(** * Memo-Audio ("Journal Eloquent"): a shallow embedding of the audio pipeline

    The development follows the layout of the repository:

    - [Js]            the JavaScript values and host functions the code relies on
                      (property reads, truthiness, [String.prototype.split],
                      [JSON.parse], [JSON.stringify]);
    - [Base64]        the binary-to-text transfer encoding performed by the host
                      ([FileReader.readAsDataURL], [atob]);
    - [GeminiService] services/geminiService.ts: [processAudioEntry], [decode],
                      [decodeAudioData], [playEloquenceTTS];
    - [AudioRecorder] components/AudioRecorder.tsx: the recorder component;
    - [App]           App.tsx: [blobToBase64], [handleRecordingComplete], the
                      save effect, the search and the reminder;
    - [EntryDetail]   components/EntryDetail.tsx: [handlePlayTTS], the metrics,
                      the practice round and the progression chart;
    - [EntryList]     components/EntryList.tsx: the rows of the journal;
    - [SettingsView]  components/SettingsView.tsx: the reminder settings.

    Asynchronous functions are modelled by the value their promise settles
    with: [Ok v] for a fulfilled promise, [Err e] for a rejected one. *)

From Stdlib Require Import List String Ascii NArith ZArith QArith Lia Bool Arith.
From Stdlib Require Import Strings.Byte QArith.Qround DecimalString DecimalNat.
From Stdlib Require Import Permutation Sorted.
Import ListNotations.

Set Warnings "-register-all".

Open Scope string_scope.
Open Scope nat_scope.
Open Scope list_scope.

(* ================================================================== *)
(** * JavaScript values and host functions *)
(* ================================================================== *)

Module Js.

(** Exceptions thrown by the code and by the host. *)
Inductive js_error : Type :=
| Error (message : string)          (* [new Error(message)]                  *)
| TypeError                         (* property read on null or undefined    *)
| RangeError                        (* typed-array construction              *)
| SyntaxError                       (* [JSON.parse]                          *)
| DOMException (name : string)      (* host failures, by their [name]        *)
| ApiError (message : string).      (* rejection raised by the remote client *)

(** The settlement of a promise, or the completion of a call that may throw. *)
Inductive result (A : Type) : Type :=
| Ok (a : A)
| Err (e : js_error).

Arguments Ok {A} a.
Arguments Err {A} e.

Definition bind {A B} (r : result A) (k : A -> result B) : result B :=
  match r with
  | Ok a => k a
  | Err e => Err e
  end.

Declare Scope js_scope.
Delimit Scope js_scope with js.
Notation "x <- r ;; k" := (bind r (fun x => k))
  (at level 61, r at next level, right associativity) : js_scope.
#[local] Open Scope js_scope.

Definition is_ok {A} (r : result A) : bool :=
  match r with Ok _ => true | Err _ => false end.

(** Runtime values.  Numbers are restricted to the integers, which is all the
    response schemas declare ([Type.INTEGER]). *)
Inductive jsval : Type :=
| VUndef
| VNull
| VBool (b : bool)
| VNum (z : Z)
| VStr (s : string)
| VArr (elems : list jsval)
| VObj (props : list (string * jsval)).

(** Own-property lookup in a property list: the first binding of the key. *)
Fixpoint lookup (k : string) (props : list (string * jsval)) : option jsval :=
  match props with
  | [] => None
  | (k', v) :: rest => if String.eqb k k' then Some v else lookup k rest
  end.

(** [o.k] for the keys the application reads, which no primitive, array or
    prototype defines: an absent property reads as [undefined]; reading a
    property of [null] or [undefined] throws. *)
Definition get (k : string) (o : jsval) : result jsval :=
  match o with
  | VUndef | VNull => Err TypeError
  | VObj props => Ok (match lookup k props with Some v => v | None => VUndef end)
  | _ => Ok VUndef
  end.

(** The same read on a value known to be an object. *)
Definition field (k : string) (o : jsval) : jsval :=
  match o with
  | VObj props => match lookup k props with Some v => v | None => VUndef end
  | _ => VUndef
  end.

(** ToBoolean. *)
Definition truthy (v : jsval) : bool :=
  match v with
  | VUndef | VNull => false
  | VBool b => b
  | VNum z => negb (Z.eqb z 0)
  | VStr s => negb (String.eqb s "")
  | VArr _ | VObj _ => true
  end.

(** [s.split(sep)] for a one-character separator. *)
Fixpoint split (sep : ascii) (s : string) : list string :=
  match s with
  | EmptyString => [EmptyString]
  | String c s' =>
      if Ascii.eqb c sep then EmptyString :: split sep s'
      else match split sep s' with
           | h :: t => String c h :: t
           | [] => [String c EmptyString]
           end
  end.

(** Whether a character occurs in a string. *)
Fixpoint occurs (c : ascii) (s : string) : bool :=
  match s with
  | EmptyString => false
  | String c' s' => Ascii.eqb c c' || occurs c s'
  end.

(** [for (let i = 0; i < n; i++) body(i)] over a state [S]; an exception
    thrown by the body leaves the loop. *)
Fixpoint for_loop_from {S : Type} (i n : nat) (body : nat -> S -> result S)
    (s : S) : result S :=
  match n with
  | O => Ok s
  | Datatypes.S n' => s' <- body i s ;; for_loop_from (Datatypes.S i) n' body s'
  end.

Definition for_loop {S : Type} (n : nat) (body : nat -> S -> result S) (s : S)
  : result S :=
  for_loop_from 0 n body s.

(** A [Blob]: immutable bytes with a MIME type. *)
Record Blob : Type := mkBlob { blob_bytes : list byte; blob_type : string }.

Definition blob_size (b : Blob) : nat := List.length (blob_bytes b).

(** The bytes of a sequence of blobs, in order. *)
Definition bytes_of (l : list Blob) : list byte := List.concat (map blob_bytes l).

(** [new Blob(parts, { type })]: the parts' bytes, in order. *)
Definition new_Blob (parts : list Blob) (type : string) : Blob :=
  mkBlob (bytes_of parts) type.

(** ** [JSON.stringify], on trees

    The text written by [JSON.stringify] is represented by the tree it
    denotes (the value [JSON.parse] reads back from it): a property whose value
    is [undefined] is left out, an [undefined] array element becomes [null],
    and [undefined] itself has no serialization. *)
Fixpoint json_of (v : jsval) : option jsval :=
  match v with
  | VUndef => None
  | VNull => Some VNull
  | VBool b => Some (VBool b)
  | VNum z => Some (VNum z)
  | VStr s => Some (VStr s)
  | VArr elems =>
      Some (VArr (map (fun x => match json_of x with
                                | Some j => j
                                | None => VNull
                                end) elems))
  | VObj props =>
      Some (VObj ((fix members (ps : list (string * jsval)) :=
                     match ps with
                     | [] => []
                     | (k, x) :: rest =>
                         match json_of x with
                         | Some j => (k, j) :: members rest
                         | None => members rest
                         end
                     end) props))
  end.

(** A value that holds no [undefined]: every result of [JSON.parse] is one. *)
Fixpoint is_json (v : jsval) : bool :=
  match v with
  | VUndef => false
  | VNull | VBool _ | VNum _ | VStr _ => true
  | VArr elems => forallb is_json elems
  | VObj props =>
      (fix all (ps : list (string * jsval)) : bool :=
         match ps with
         | [] => true
         | (_, x) :: rest => is_json x && all rest
         end) props
  end.

(** The members that [JSON.stringify] writes for a property list. *)
Definition members (props : list (string * jsval)) : list (string * jsval) :=
  match json_of (VObj props) with
  | Some (VObj ms) => ms
  | _ => []
  end.

(** What is read back of a serialized value. *)
Definition read_back (v : jsval) : jsval :=
  match json_of v with
  | Some j => j
  | None => VUndef
  end.

(** ** [JSON.parse], on a fragment of JSON

    The parser covers objects, arrays, strings with the one-character
    escapes, integer literals and the three keywords.  Literals with a
    fraction or an exponent and [\u] escapes are outside the fragment. *)

Definition dquote : ascii := "034"%char.
Definition backslash : ascii := "092"%char.

Definition is_json_ws (c : ascii) : bool :=
  match N_of_ascii c with
  | 9%N | 10%N | 13%N | 32%N => true
  | _ => false
  end.

Fixpoint skip_ws (s : list ascii) : list ascii :=
  match s with
  | c :: rest => if is_json_ws c then skip_ws rest else s
  | [] => []
  end.

Definition digit_of (c : ascii) : option Z :=
  let n := N_of_ascii c in
  if (48 <=? n)%N && (n <=? 57)%N then Some (Z.of_N n - 48)%Z else None.

Fixpoint parse_digits (acc : Z) (s : list ascii) : Z * list ascii :=
  match s with
  | c :: rest =>
      match digit_of c with
      | Some d => parse_digits (acc * 10 + d) rest
      | None => (acc, s)
      end
  | [] => (acc, [])
  end.

Definition starts_fraction (s : list ascii) : bool :=
  match s with
  | c :: _ => Ascii.eqb c "." || Ascii.eqb c "e" || Ascii.eqb c "E"
  | [] => false
  end.

(** An integer literal without its sign: [0], or a nonzero digit followed by
    digits. *)
Definition parse_nat_literal (s : list ascii) : option (Z * list ascii) :=
  match s with
  | c :: rest =>
      match digit_of c with
      | Some 0%Z => if starts_fraction rest then None
                    else match rest with
                         | c' :: _ => match digit_of c' with
                                      | Some _ => None
                                      | None => Some (0%Z, rest)
                                      end
                         | [] => Some (0%Z, rest)
                         end
      | Some d => let '(z, rest') := parse_digits d rest in
                  if starts_fraction rest' then None else Some (z, rest')
      | None => None
      end
  | [] => None
  end.

Definition unescape (c : ascii) : option ascii :=
  if Ascii.eqb c dquote then Some dquote
  else if Ascii.eqb c backslash then Some backslash
  else if Ascii.eqb c "/" then Some "/"%char
  else if Ascii.eqb c "b" then Some "008"%char
  else if Ascii.eqb c "f" then Some "012"%char
  else if Ascii.eqb c "n" then Some "010"%char
  else if Ascii.eqb c "r" then Some "013"%char
  else if Ascii.eqb c "t" then Some "009"%char
  else None.

(** The characters of a string literal after its opening quote. *)
Fixpoint parse_string_body (s : list ascii) : option (string * list ascii) :=
  match s with
  | [] => None
  | c :: rest =>
      if Ascii.eqb c dquote then Some (EmptyString, rest)
      else if Ascii.eqb c backslash then
        match rest with
        | e :: rest' =>
            match unescape e, parse_string_body rest' with
            | Some c', Some (str, tl) => Some (String c' str, tl)
            | _, _ => None
            end
        | [] => None
        end
      else if (N_of_ascii c <? 32)%N then None
      else match parse_string_body rest with
           | Some (str, tl) => Some (String c str, tl)
           | None => None
           end
  end.

Fixpoint expect (kw s : list ascii) : option (list ascii) :=
  match kw, s with
  | [], _ => Some s
  | k :: kw', c :: s' => if Ascii.eqb k c then expect kw' s' else None
  | _ :: _, [] => None
  end.

(** Defining a property: a repeated key keeps its place and takes the later
    value. *)
Fixpoint set_prop (k : string) (v : jsval) (props : list (string * jsval))
  : list (string * jsval) :=
  match props with
  | [] => [(k, v)]
  | (k', v') :: rest =>
      if String.eqb k k' then (k', v) :: rest else (k', v') :: set_prop k v rest
  end.

Fixpoint parse_value (fuel : nat) (s : list ascii) : option (jsval * list ascii) :=
  match fuel with
  | O => None
  | Datatypes.S fuel' =>
      match skip_ws s with
      | [] => None
      | c :: rest =>
          if Ascii.eqb c "n" then
            option_map (pair VNull) (expect (list_ascii_of_string "ull") rest)
          else if Ascii.eqb c "t" then
            option_map (pair (VBool true)) (expect (list_ascii_of_string "rue") rest)
          else if Ascii.eqb c "f" then
            option_map (pair (VBool false)) (expect (list_ascii_of_string "alse") rest)
          else if Ascii.eqb c dquote then
            match parse_string_body rest with
            | Some (str, tl) => Some (VStr str, tl)
            | None => None
            end
          else if Ascii.eqb c "-" then
            match parse_nat_literal rest with
            | Some (z, tl) => Some (VNum (- z), tl)
            | None => None
            end
          else if Ascii.eqb c "[" then
            match skip_ws rest with
            | c' :: rest' =>
                if Ascii.eqb c' "]" then Some (VArr [], rest')
                else match parse_elements fuel' rest with
                     | Some (elems, tl) => Some (VArr elems, tl)
                     | None => None
                     end
            | [] => None
            end
          else if Ascii.eqb c "{" then
            match skip_ws rest with
            | c' :: rest' =>
                if Ascii.eqb c' "}" then Some (VObj [], rest')
                else match parse_members fuel' [] rest with
                     | Some (props, tl) => Some (VObj props, tl)
                     | None => None
                     end
            | [] => None
            end
          else
            match parse_nat_literal (c :: rest) with
            | Some (z, tl) => Some (VNum z, tl)
            | None => None
            end
      end
  end

with parse_elements (fuel : nat) (s : list ascii)
  : option (list jsval * list ascii) :=
  match fuel with
  | O => None
  | Datatypes.S fuel' =>
      match parse_value fuel' s with
      | Some (v, tl) =>
          match skip_ws tl with
          | c :: rest =>
              if Ascii.eqb c "]" then Some ([v], rest)
              else if Ascii.eqb c "," then
                match parse_elements fuel' rest with
                | Some (vs, tl') => Some (v :: vs, tl')
                | None => None
                end
              else None
          | [] => None
          end
      | None => None
      end
  end

with parse_members (fuel : nat) (acc : list (string * jsval)) (s : list ascii)
  : option (list (string * jsval) * list ascii) :=
  match fuel with
  | O => None
  | Datatypes.S fuel' =>
      match skip_ws s with
      | q :: s1 =>
          if Ascii.eqb q dquote then
            match parse_string_body s1 with
            | Some (k, s2) =>
                match skip_ws s2 with
                | colon :: s3 =>
                    if Ascii.eqb colon ":" then
                      match parse_value fuel' s3 with
                      | Some (v, s4) =>
                          let acc' := set_prop k v acc in
                          match skip_ws s4 with
                          | c :: rest =>
                              if Ascii.eqb c "}" then Some (acc', rest)
                              else if Ascii.eqb c "," then
                                parse_members fuel' acc' rest
                              else None
                          | [] => None
                          end
                      | None => None
                      end
                    else None
                | [] => None
                end
            | None => None
            end
          else None
      | [] => None
      end
  end.

(** [JSON.parse(text)]: one value, then only white space.  Each nested call
    of the parser follows a consumed character, so twice the length of the
    text is fuel enough. *)
Definition JSON_parse (text : string) : result jsval :=
  let s := list_ascii_of_string text in
  match parse_value (2 * List.length s + 2) s with
  | Some (v, tl) =>
      match skip_ws tl with
      | [] => Ok v
      | _ :: _ => Err SyntaxError
      end
  | None => Err SyntaxError
  end.

(** Writing JSON text in the examples: a quoted string and a member. *)
Definition quoted (s : string) : string :=
  (String dquote s ++ String dquote EmptyString)%string.

Definition member (k v : string) : string := (quoted k ++ ":" ++ v)%string.

(** ** Strings *)

(** [n.toString()] for a count. *)
Definition nat_toString (n : nat) : string :=
  NilEmpty.string_of_uint (Nat.to_uint n).

Fixpoint repeat_char (c : ascii) (n : nat) : string :=
  match n with
  | O => EmptyString
  | Datatypes.S n' => String c (repeat_char c n')
  end.

(** [s.padStart(target, c)] for a one-character filler. *)
Definition padStart (target : nat) (c : ascii) (s : string) : string :=
  repeat_char c (target - String.length s) ++ s.

(** [s.includes(sub)]. *)
Fixpoint includes (s sub : string) : bool :=
  String.prefix sub s
  || match s with
     | EmptyString => false
     | String _ s' => includes s' sub
     end.

(** [array.filter(f)] for a callback that may throw. *)
Fixpoint filter_result {A : Type} (f : A -> result bool) (l : list A)
  : result (list A) :=
  match l with
  | [] => Ok []
  | x :: rest =>
      keep <- f x ;;
      kept <- filter_result f rest ;;
      Ok (if keep then x :: kept else kept)
  end.

(** [array.sort(cmp)] for a comparator that may throw.  The sort of the
    language is stable, so for a consistent comparator its result is the one
    of the insertion sort below, which puts an element in front of the first
    element it does not follow. *)
Fixpoint insert_result {A : Type} (cmp : A -> A -> result Z) (x : A) (l : list A)
  : result (list A) :=
  match l with
  | [] => Ok [x]
  | y :: rest =>
      c <- cmp x y ;;
      if (c <=? 0)%Z then Ok (x :: y :: rest)
      else (r <- insert_result cmp x rest ;; Ok (y :: r))
  end.

Fixpoint sort_result {A : Type} (cmp : A -> A -> result Z) (l : list A)
  : result (list A) :=
  match l with
  | [] => Ok []
  | x :: rest =>
      sorted <- sort_result cmp rest ;;
      insert_result cmp x sorted
  end.

(** [array.slice(-n)]: the last [n] elements, all of them when there are
    fewer. *)
Definition slice_last {A : Type} (n : nat) (l : list A) : list A :=
  skipn (List.length l - n) l.

End Js.

Import Js.
Open Scope js_scope.

(* ================================================================== *)
(** * The transfer encoding performed by the host *)
(* ================================================================== *)

Module Base64.

(** The 64-character alphabet of RFC 4648, section 4. *)
Definition alphabet : list ascii :=
  list_ascii_of_string
    "ABCDEFGHIJKLMNOPQRSTUVWXYZabcdefghijklmnopqrstuvwxyz0123456789+/".

Definition pad : ascii := "="%char.

Definition b64_char (n : N) : ascii := nth (N.to_nat n) alphabet pad.

Fixpoint index_from (i : N) (c : ascii) (l : list ascii) : option N :=
  match l with
  | [] => None
  | x :: rest => if Ascii.eqb c x then Some i else index_from (N.succ i) c rest
  end.

Definition b64_index (c : ascii) : option N := index_from 0 c alphabet.

(** The byte whose value is [n mod 256]. *)
Definition byte_of_N (n : N) : byte :=
  match Byte.of_N (n mod 256) with
  | Some b => b
  | None => x00
  end.

(** Base64 encoding of a byte sequence, three bytes to four characters, the
    last group padded with [=]. *)
Fixpoint encode (bs : list byte) : list ascii :=
  match bs with
  | [] => []
  | [a] =>
      let n := Byte.to_N a in
      [b64_char (n / 4); b64_char ((n mod 4) * 16); pad; pad]
  | [a; b] =>
      let n := (Byte.to_N a * 256 + Byte.to_N b)%N in
      [b64_char (n / 1024); b64_char ((n / 16) mod 64);
       b64_char ((n mod 16) * 4); pad]
  | a :: b :: c :: rest =>
      let n := (Byte.to_N a * 65536 + Byte.to_N b * 256 + Byte.to_N c)%N in
      b64_char (n / 262144) :: b64_char ((n / 4096) mod 64)
        :: b64_char ((n / 64) mod 64) :: b64_char (n mod 64) :: encode rest
  end.

(** The sextets that [encode] writes as characters, and the padding it
    appends. *)
Fixpoint sextets_of (bs : list byte) : list N :=
  match bs with
  | [] => []
  | [a] =>
      let n := Byte.to_N a in
      [(n / 4)%N; ((n mod 4) * 16)%N]
  | [a; b] =>
      let n := (Byte.to_N a * 256 + Byte.to_N b)%N in
      [(n / 1024)%N; ((n / 16) mod 64)%N; ((n mod 16) * 4)%N]
  | a :: b :: c :: rest =>
      let n := (Byte.to_N a * 65536 + Byte.to_N b * 256 + Byte.to_N c)%N in
      (n / 262144)%N :: ((n / 4096) mod 64)%N :: ((n / 64) mod 64)%N
        :: (n mod 64)%N :: sextets_of rest
  end.

Fixpoint padding_of (bs : list byte) : list ascii :=
  match bs with
  | [] => []
  | [_] => [pad; pad]
  | [_; _] => [pad]
  | _ :: _ :: _ :: rest => padding_of rest
  end.

(** [FileReader.readAsDataURL]: the data URL of a blob's bytes, with the
    blob's type as the media type (RFC 2397). *)
Definition data_url (type : string) (bs : list byte) : string :=
  ("data:" ++ type ++ ";base64," ++ string_of_list_ascii (encode bs))%string.

(** ** [atob]: the forgiving-base64 decode of the HTML standard *)

Definition is_ascii_whitespace (c : ascii) : bool :=
  match N_of_ascii c with
  | 9%N | 10%N | 12%N | 13%N | 32%N => true
  | _ => false
  end.

(** Step 2: when the length is a multiple of four, one or two trailing [=]
    are removed. *)
Definition strip_padding (l : list ascii) : list ascii :=
  if Nat.eqb (List.length l mod 4) 0 then
    match rev l with
    | c1 :: c2 :: r =>
        if Ascii.eqb c1 pad then
          if Ascii.eqb c2 pad then rev r else rev (c2 :: r)
        else l
    | _ => l
    end
  else l.

(** Step 4: every remaining character must belong to the alphabet. *)
Fixpoint sextets (l : list ascii) : option (list N) :=
  match l with
  | [] => Some []
  | c :: rest =>
      match b64_index c, sextets rest with
      | Some n, Some ns => Some (n :: ns)
      | _, _ => None
      end
  end.

(** A text without padding characters. *)
Definition unpadded (x : list ascii) : Prop :=
  Forall (fun c => Ascii.eqb c pad = false) x.

(** Steps 5 to 10: four sextets give three bytes; a final group of three gives
    two bytes and a final group of two gives one, the excess bits dropped. *)
Fixpoint bytes_of_sextets (l : list N) : list byte :=
  match l with
  | a :: b :: c :: d :: rest =>
      let n := (a * 262144 + b * 4096 + c * 64 + d)%N in
      byte_of_N (n / 65536) :: byte_of_N (n / 256) :: byte_of_N n
        :: bytes_of_sextets rest
  | [a; b; c] =>
      let n := (a * 4096 + b * 64 + c)%N in
      [byte_of_N (n / 1024); byte_of_N (n / 4)]
  | [a; b] =>
      let n := (a * 64 + b)%N in
      [byte_of_N (n / 16)]
  | _ => []
  end.

(** What the decoder needs of the character of a sextet: it is found again
    in the alphabet, and is neither padding, a comma nor white space. *)
Definition alphabet_ok (n : N) : bool :=
  match b64_index (b64_char n) with
  | Some m => N.eqb m n
  | None => false
  end
  && negb (Ascii.eqb (b64_char n) pad)
  && negb (Ascii.eqb (b64_char n) ",")
  && negb (is_ascii_whitespace (b64_char n)).

Definition forgiving_decode (s : list ascii) : option (list byte) :=
  let s1 := filter (fun c => negb (is_ascii_whitespace c)) s in
  let s2 := strip_padding s1 in
  if Nat.eqb (List.length s2 mod 4) 1 then None
  else option_map bytes_of_sextets (sextets s2).

(** [atob(s)]: a binary string, one character per decoded byte; throws
    [InvalidCharacterError] on data that is not base64. *)
Definition atob (s : string) : result string :=
  match forgiving_decode (list_ascii_of_string s) with
  | Some bs => Ok (string_of_list_ascii (map ascii_of_byte bs))
  | None => Err (DOMException "InvalidCharacterError")
  end.

End Base64.

(* ================================================================== *)
(** * services/geminiService.ts *)
(* ================================================================== *)

Module GeminiService.

Import Js.
#[local] Open Scope js_scope.

(** ** The remote client *)

(** A response schema ([Schema] of the client library), as far as the two
    schemas of the service use it. *)
Inductive Schema : Type :=
| SString
| SInteger
| SBoolean
| SEnum (values : list string)
| SArray (items : Schema)
| SObject (properties : list (string * Schema)) (required : list string).

Definition analysisSchema : Schema :=
  SObject
    [ ("transcription", SString);
      ("summary", SString);
      ("mood", SString);
      ("tags", SArray SString);
      ("metrics",
        SObject
          [ ("clarity", SInteger);
            ("assertiveness", SInteger);
            ("vocabularyRichness", SInteger);
            ("pace", SEnum ["Too Slow"; "Good"; "Too Fast"]) ]
          ["clarity"; "assertiveness"; "vocabularyRichness"; "pace"]);
      ("deepAnalysis", SString);
      ("suggestions",
        SArray
          (SObject
             [ ("original", SString); ("improved", SString); ("reason", SString) ]
             ["original"; "improved"; "reason"]));
      ("eloquenceTip",
        SObject
          [ ("focusPoint", SString);
            ("explanation", SString);
            ("exampleOriginal", SString);
            ("exampleImproved", SString);
            ("instruction", SString) ]
          ["focusPoint"; "explanation"; "exampleOriginal"; "exampleImproved";
           "instruction"]) ]
    ["transcription"; "summary"; "mood"; "tags"; "metrics"; "deepAnalysis";
     "suggestions"; "eloquenceTip"].

Definition exerciseFeedbackSchema : Schema :=
  SObject
    [ ("transcription", SString);
      ("success", SBoolean);
      ("score", SInteger);
      ("critique", SString) ]
    ["transcription"; "success"; "score"; "critique"].

(** The required fields of a schema that an object lacks: those of the object
    itself, then those of its object-valued properties. *)
Fixpoint missing (sch : Schema) (v : jsval) : list string :=
  match sch, v with
  | SObject properties required, VObj props =>
      filter (fun k => match lookup k props with Some _ => false | None => true end)
             required
      ++ (fix nested (ps : list (string * Schema)) : list string :=
            match ps with
            | [] => []
            | (k, s) :: rest =>
                match lookup k props with
                | Some x => missing s x ++ nested rest
                | None => nested rest
                end
            end) properties
  | _, _ => []
  end.

Inductive Part : Type :=
| InlineData (mimeType : string) (data : jsval)
| Text (text : string).

(** The argument of [ai.models.generateContent].  The fixed persona text of
    [config.systemInstruction] is configuration and is left out. *)
Record GenerateContentParameters : Type := mkRequest {
  model : string;
  parts : list Part;
  responseMimeType : option string;
  responseSchema : option Schema;
  responseModalities : list string;
  voiceName : option string
}.

(** What the service reads of a response: [response.text], and
    [response.candidates?.[0]?.content?.parts?.[0]?.inlineData?.data];
    [None] stands for [undefined]. *)
Record GenerateContentResponse : Type := mkResponse {
  text : option string;
  inlineAudio : option string
}.

(** The remote service: a request is answered or the call is rejected. *)
Definition Remote : Type :=
  GenerateContentParameters -> result GenerateContentResponse.

Definition analysisRequest (audioBase64 : jsval) (mimeType : string)
  : GenerateContentParameters :=
  mkRequest "gemini-2.5-flash"
    [ InlineData mimeType audioBase64;
      Text "Transcribe and provide a deep literary analysis and a focused micro-exercise." ]
    (Some "application/json") (Some analysisSchema) [] None.

Definition exerciseRequest (audioBase64 : jsval) (mimeType : string)
  : GenerateContentParameters :=
  mkRequest "gemini-2.5-flash"
    [ InlineData mimeType audioBase64; Text "Evaluate this exercise attempt." ]
    (Some "application/json") (Some exerciseFeedbackSchema) [] None.

Definition ttsRequest (text : string) : GenerateContentParameters :=
  mkRequest "gemini-2.5-flash-preview-tts" [ Text text ] None None ["AUDIO"]
    (Some "Kore").

(** ** [processAudioEntry] *)

Record EntryAnalysis : Type := mkEntryAnalysis {
  transcription : jsval;
  analysis : jsval
}.

Section Service.

(** [JSON.parse] and the remote client are the service's collaborators. *)
Variable JSON_parse : string -> result jsval.
Variable generateContent : Remote.

(** The [catch] clause logs the error and throws it again, so the function
    rejects with the error raised in its body. *)
Definition processAudioEntry (audioBase64 : jsval) (mimeType : string)
  : result EntryAnalysis :=
  response <- generateContent (analysisRequest audioBase64 mimeType) ;;
  match text response with
  | None | Some EmptyString => Err (Error "No response from Gemini")
  | Some resultText =>
      parsed <- JSON_parse resultText ;;
      p_transcription <- get "transcription" parsed ;;
      p_summary <- get "summary" parsed ;;
      p_mood <- get "mood" parsed ;;
      p_tags <- get "tags" parsed ;;
      p_metrics <- get "metrics" parsed ;;
      p_deepAnalysis <- get "deepAnalysis" parsed ;;
      p_suggestions <- get "suggestions" parsed ;;
      p_eloquenceTip <- get "eloquenceTip" parsed ;;
      Ok (mkEntryAnalysis p_transcription
            (VObj [ ("summary", p_summary);
                    ("mood", p_mood);
                    ("tags", p_tags);
                    ("metrics", p_metrics);
                    ("deepAnalysis", p_deepAnalysis);
                    ("suggestions", p_suggestions);
                    ("eloquenceTip", p_eloquenceTip) ]))
  end.

(** [evaluateExercise]: [JSON.parse(response.text!)], the result returned
    as it is.  An [undefined] text is parsed as the string "undefined". *)
Definition evaluateExercise (audioBase64 : jsval) (mimeType : string)
    (goal : string) : result jsval :=
  response <- generateContent (exerciseRequest audioBase64 mimeType) ;;
  JSON_parse (match text response with Some t => t | None => "undefined" end).

(** The seven properties of the [analysis] object that [processAudioEntry]
    builds. *)
Definition analysis_keys : list string :=
  ["summary"; "mood"; "tags"; "metrics"; "deepAnalysis"; "suggestions";
   "eloquenceTip"].

End Service.

(** ** Typed arrays *)

Fixpoint update {A : Type} (i : nat) (x : A) (l : list A) : list A :=
  match l, i with
  | [], _ => []
  | _ :: rest, O => x :: rest
  | y :: rest, S i' => y :: update i' x rest
  end.

(** A [Uint8Array]: a window of [u8_length] bytes at [u8_byteOffset] in its
    buffer. *)
Record Uint8Array : Type := mkUint8Array {
  u8_buffer : list byte;
  u8_byteOffset : nat;
  u8_length : nat
}.

(** [new Uint8Array(len)]: a fresh zero-filled buffer of [len] bytes. *)
Definition new_Uint8Array (len : nat) : Uint8Array :=
  mkUint8Array (repeat x00 len) 0 len.

(** [a[i] = v]: the value modulo 256 ([NaN] stores 0); a write outside the
    window is ignored. *)
Definition Uint8Array_set (a : Uint8Array) (i : nat) (v : option N) : Uint8Array :=
  if i <? u8_length a then
    mkUint8Array
      (update (u8_byteOffset a + i)
              (Base64.byte_of_N (match v with Some n => n | None => 0%N end))
              (u8_buffer a))
      (u8_byteOffset a) (u8_length a)
  else a.

(** [s.charCodeAt(i)]; [None] stands for [NaN]. *)
Definition charCodeAt (s : string) (i : nat) : option N :=
  option_map N_of_ascii (String.get i s).

(** An [Int16Array] constructed over a whole buffer. *)
Record Int16Array : Type := mkInt16Array { i16_buffer : list byte }.

(** [new Int16Array(buffer)] throws a [RangeError] unless the byte length of
    the buffer is a multiple of 2. *)
Definition new_Int16Array (buffer : list byte) : result Int16Array :=
  if Nat.even (List.length buffer) then Ok (mkInt16Array buffer)
  else Err RangeError.

Definition Int16Array_length (a : Int16Array) : nat :=
  List.length (i16_buffer a) / 2.

(** The signed 16-bit integer stored little-endian in two bytes. *)
Definition int16_le (lo hi : byte) : Z :=
  let u := (Z.of_N (Byte.to_N lo) + 256 * Z.of_N (Byte.to_N hi))%Z in
  if (u <? 32768)%Z then u else (u - 65536)%Z.

(** [a[k]]; [None] stands for [undefined], the read outside the array.
    A typed array reads in the byte order of the platform, which is
    little-endian wherever the application runs. *)
Definition Int16Array_get (a : Int16Array) (k : nat) : option Z :=
  match nth_error (i16_buffer a) (2 * k), nth_error (i16_buffer a) (2 * k + 1) with
  | Some lo, Some hi => Some (int16_le lo hi)
  | _, _ => None
  end.

(** ** Numbers and audio buffers *)

(** The numbers the decoding computes with: exact rationals, and the two
    results of a division by zero. *)
Inductive number : Type :=
| Fin (q : Q)
| Infinity
| NaN.

(** [a / b] for two array lengths or counts. *)
Definition div_count (a b : nat) : number :=
  match b with
  | O => match a with O => NaN | S _ => Infinity end
  | S _ => Fin (Z.of_nat a # Pos.of_nat b)
  end.

(** How often [for (let i = 0; i < x; i++)] runs its body.  The loop over
    the frames is entered only for a positive channel count, hence for a
    finite [x]. *)
Definition count_below (x : number) : nat :=
  match x with
  | Fin q => Z.to_nat (Qceiling q)
  | Infinity | NaN => 0
  end.

(** [x / 32768.0]; an [undefined] operand gives [NaN]. *)
Definition div32768 (x : option Z) : number :=
  match x with
  | Some z => Fin (z # 32768)
  | None => NaN
  end.

Record AudioBuffer : Type := mkAudioBuffer {
  ab_sampleRate : N;
  ab_channels : list (list number)
}.

(** The [AudioContext] passed to [decodeAudioData], by the one method the
    function calls. *)
Record AudioContext : Type := mkAudioContext {
  createBuffer : nat -> number -> N -> result AudioBuffer
}.

(** [buffer.getChannelData(channel)]. *)
Definition getChannelData (buffer : AudioBuffer) (channel : nat)
  : result (list number) :=
  match nth_error (ab_channels buffer) channel with
  | Some data => Ok data
  | None => Err (DOMException "IndexSizeError")
  end.

(** [channelData[i] = v]; a write outside the array is ignored. *)
Definition Float32Array_set (a : list number) (i : nat) (v : number) : list number :=
  update i v a.

(** The channel data is a view of the buffer: writing it writes the buffer. *)
Definition set_channel (buffer : AudioBuffer) (channel : nat) (data : list number)
  : AudioBuffer :=
  mkAudioBuffer (ab_sampleRate buffer) (update channel data (ab_channels buffer)).

(** ** [decode] and [decodeAudioData] *)

Definition decode (base64 : string) : result Uint8Array :=
  binaryString <- Base64.atob base64 ;;
  let len := String.length binaryString in
  let bytes := new_Uint8Array len in
  for_loop len
    (fun i bytes => Ok (Uint8Array_set bytes i (charCodeAt binaryString i)))
    bytes.

Definition decodeAudioData (data : Uint8Array) (ctx : AudioContext)
    (sampleRate : N) (numChannels : nat) : result AudioBuffer :=
  dataInt16 <- new_Int16Array (u8_buffer data) ;;
  let frameCount := div_count (Int16Array_length dataInt16) numChannels in
  buffer <- createBuffer ctx numChannels frameCount sampleRate ;;
  for_loop numChannels
    (fun channel buffer =>
       channelData <- getChannelData buffer channel ;;
       channelData' <-
         for_loop (count_below frameCount)
           (fun i channelData =>
              Ok (Float32Array_set channelData i
                    (div32768 (Int16Array_get dataInt16 (i * numChannels + channel)))))
           channelData ;;
       Ok (set_channel buffer channel channelData'))
    buffer.

(** The samples of one channel as [decodeAudioData] computes them. *)
Definition decoded_channel (dataInt16 : Int16Array) (numChannels frames channel : nat)
  : list number :=
  map (fun i => div32768 (Int16Array_get dataInt16 (i * numChannels + channel)))
      (seq 0 frames).

(** The rationals that a [Float32Array] holds without rounding: a 24-bit
    significand and an exponent in the range of single precision. *)
Definition binary32 (q : Q) : Prop :=
  exists m e : Z,
    (Z.abs m < 2 ^ 24)%Z /\ (-149 <= e <= 104)%Z
    /\ (q == inject_Z m * (2 # 1) ^ e)%Q.

(** ** The Web Audio context of the host *)

(** Conversion of a number to [unsigned long]. *)
Definition to_unsigned_long (x : number) : nat :=
  match x with
  | Fin q => Z.to_nat (Z.quot (Qnum q) (Zpos (Qden q)) mod 4294967296)
  | Infinity | NaN => 0
  end.

(** [BaseAudioContext.createBuffer]: a zero-filled buffer, or
    [NotSupportedError] when an argument is zero or outside its nominal
    range (1 to 32 channels, 8000 to 96000 Hz). *)
Definition webAudio : AudioContext :=
  mkAudioContext
    (fun numberOfChannels length sampleRate =>
       let n := to_unsigned_long length in
       if (numberOfChannels =? 0) || (32 <? numberOfChannels) || (n =? 0)
          || (sampleRate <? 8000)%N || (96000 <? sampleRate)%N
       then Err (DOMException "NotSupportedError")
       else Ok (mkAudioBuffer sampleRate
                  (repeat (repeat (Fin 0) n) numberOfChannels))).

(** ** [playEloquenceTTS]

    The result is the buffer handed to the playback source. *)
Definition playEloquenceTTS (generateContent : Remote) (ctx : AudioContext)
    (text : string) : result AudioBuffer :=
  response <- generateContent (ttsRequest text) ;;
  match inlineAudio response with
  | None | Some EmptyString => Err (Error "No audio data returned")
  | Some base64Audio =>
      bytes <- decode base64Audio ;;
      decodeAudioData bytes ctx 24000%N 1
  end.

End GeminiService.

(* ================================================================== *)
(** * components/AudioRecorder.tsx *)
(* ================================================================== *)

Module AudioRecorder.

Import Js.

(** The component with the part of the host it drives.  A media stream and
    the [MediaRecorder] built on it share one identifier.  The canvas of the
    visualizer is taken to be mounted. *)
Record State : Type := mkState {
  (* React state *)
  isRecording : bool;
  duration : nat;
  (* refs *)
  mediaRecorder : option nat;      (* [mediaRecorderRef.current]              *)
  chunks : list Blob;              (* [chunksRef.current]                     *)
  timerActive : bool;              (* the interval of [timerRef] is running   *)
  audioContext : bool;             (* [audioContextRef.current] is set        *)
  (* host *)
  pending : nat;                   (* calls suspended at [getUserMedia]       *)
  live : list nat;                 (* streams whose tracks are live           *)
  recording : list nat;            (* recorders in state "recording"          *)
  stopping : list nat;             (* recorders stopped, [stop] event to come *)
  leakedTimers : nat;              (* running intervals no ref points to      *)
  (* effects *)
  completed : list Blob;           (* arguments of [onRecordingComplete]      *)
  alerts : list string;
  console : list js_error
}.

Definition init : State :=
  mkState false 0 None [] false false 0 [] [] [] 0 [] [] [].

Definition mem (x : nat) (l : list nat) : bool := existsb (Nat.eqb x) l.

Definition without (x : nat) (l : list nat) : list nat :=
  filter (fun y => negb (Nat.eqb x y)) l.

Definition micAlert : string :=
  "Impossible d'accéder au microphone. Veuillez vérifier vos permissions.".

(** [stopVisualizer]. *)
Definition stopVisualizer (st : State) : State :=
  mkState (isRecording st) (duration st) (mediaRecorder st) (chunks st)
    (timerActive st) false (pending st) (live st) (recording st) (stopping st)
    (leakedTimers st) (completed st) (alerts st) (console st).

(** [startRecording], from the point where [getUserMedia] settles with
    [acquired]; the second component is the settlement of the promise that
    [startRecording] returns.  On an acquired stream the visualizer and the
    recorder are taken to start without a throw. *)
Definition startRecording (acquired : result nat) (st : State)
  : State * result unit :=
  match acquired with
  | Ok stream =>
      (mkState true 0 (Some stream) [] true true (pending st)
         (stream :: live st) (stream :: recording st) (stopping st)
         (if timerActive st then S (leakedTimers st) else leakedTimers st)
         (completed st) (alerts st) (console st),
       Ok tt)
  | Err err =>
      (mkState (isRecording st) (duration st) (mediaRecorder st) (chunks st)
         (timerActive st) (audioContext st) (pending st) (live st)
         (recording st) (stopping st) (leakedTimers st) (completed st)
         (alerts st ++ [micAlert]) (console st ++ [err]),
       Ok tt)
  end.

(** [stopRecording]. *)
Definition stopRecording (st : State) : State :=
  match mediaRecorder st with
  | Some r =>
      if isRecording st then
        mkState false (duration st) (mediaRecorder st) (chunks st) false
          (audioContext st) (pending st) (live st)
          (without r (recording st))
          (if mem r (recording st) then r :: stopping st else stopping st)
          (leakedTimers st) (completed st) (alerts st) (console st)
      else st
  | None => st
  end.

(** The [ondataavailable] handler. *)
Definition ondataavailable (data : Blob) (st : State) : State :=
  if 0 <? blob_size data then
    mkState (isRecording st) (duration st) (mediaRecorder st)
      (chunks st ++ [data]) (timerActive st) (audioContext st) (pending st)
      (live st) (recording st) (stopping st) (leakedTimers st) (completed st)
      (alerts st) (console st)
  else st.

(** The [onstop] handler installed for the recorder of [stream]. *)
Definition onstop (stream : nat) (st : State) : State :=
  let st' := stopVisualizer st in
  let blob := new_Blob (chunks st') "audio/webm" in
  mkState (isRecording st') (duration st') (mediaRecorder st') (chunks st')
    (timerActive st') (audioContext st') (pending st')
    (without stream (live st')) (recording st') (stopping st')
    (leakedTimers st') (completed st' ++ [blob]) (alerts st') (console st').

(** What happens to the component. *)
Inductive event : Type :=
| Click                                    (* the record button               *)
| Acquired (outcome : result nat)          (* [getUserMedia] settles          *)
| DataAvailable (rec : nat) (data : Blob)  (* a recorder delivers a chunk     *)
| Stopped (rec : nat)                      (* a recorder fires [stop]         *)
| Tick.                                    (* an interval fires               *)

Definition with_pending (n : nat) (st : State) : State :=
  mkState (isRecording st) (duration st) (mediaRecorder st) (chunks st)
    (timerActive st) (audioContext st) n (live st) (recording st) (stopping st)
    (leakedTimers st) (completed st) (alerts st) (console st).

Definition with_stopping (l : list nat) (st : State) : State :=
  mkState (isRecording st) (duration st) (mediaRecorder st) (chunks st)
    (timerActive st) (audioContext st) (pending st) (live st) (recording st) l
    (leakedTimers st) (completed st) (alerts st) (console st).

Definition tick (st : State) : State :=
  mkState (isRecording st) (S (duration st)) (mediaRecorder st) (chunks st)
    (timerActive st) (audioContext st) (pending st) (live st) (recording st)
    (stopping st) (leakedTimers st) (completed st) (alerts st) (console st).

(** The button's handler is [isRecording ? stopRecording : startRecording];
    an event the host cannot deliver in a state leaves it unchanged.  The
    [stop] event is that of a recorder the button has stopped: a recorder
    that stops by itself, when the tracks of its stream end, is outside the
    runs considered, and so are the unmounting and mounting of the
    component, for which see [unmount]. *)
Definition step (st : State) (ev : event) : State :=
  match ev with
  | Click =>
      if isRecording st then stopRecording st
      else with_pending (S (pending st)) st
  | Acquired outcome =>
      match pending st with
      | O => st
      | S n => fst (startRecording outcome (with_pending n st))
      end
  | DataAvailable r data =>
      if mem r (recording st) || mem r (stopping st) then ondataavailable data st
      else st
  | Stopped r =>
      if mem r (stopping st) then onstop r (with_stopping (without r (stopping st)) st)
      else st
  | Tick =>
      if timerActive st || (0 <? leakedTimers st) then tick st else st
  end.

Definition run (st : State) (evs : list event) : State := fold_left step evs st.

(** The component is quiescent when no acquisition and no [stop] event is
    outstanding. *)
Definition quiescent (st : State) : bool :=
  (pending st =? 0) && match stopping st with [] => true | _ :: _ => false end.

(** A run in which the button is pressed in quiescent states only. *)
Fixpoint serialized (st : State) (evs : list event) : Prop :=
  match evs with
  | [] => True
  | ev :: rest =>
      match ev with
      | Click => quiescent st = true
      | _ => True
      end /\ serialized (step st ev) rest
  end.

(** ** One recording session *)

(** What the host delivers while the recorder of a session is active. *)
Inductive session_event : Type :=
| Chunk (data : Blob)
| Second.

Definition deliver (stream : nat) (e : session_event) : event :=
  match e with
  | Chunk data => DataAvailable stream data
  | Second => Tick
  end.

(** The chunks received, in the order of arrival. *)
Fixpoint chunks_of (l : list session_event) : list Blob :=
  match l with
  | [] => []
  | Chunk data :: rest => data :: chunks_of rest
  | Second :: rest => chunks_of rest
  end.

(** A session on [stream]: the button is pressed, the microphone is
    acquired, chunks arrive, the button is pressed again, the last chunks
    arrive and the recorder fires [stop]. *)
Definition session (stream : nat) (during after : list session_event)
  : list event :=
  Click :: Acquired (Ok stream) :: map (deliver stream) during
    ++ Click :: map (deliver stream) after ++ [Stopped stream].

(** ** The phases of the component under serialized use *)

Definition idle (st : State) : Prop :=
  isRecording st = false /\ pending st = 0 /\ live st = []
  /\ recording st = [] /\ stopping st = [].

Definition acquiring (st : State) : Prop :=
  isRecording st = false /\ pending st = 1 /\ live st = []
  /\ recording st = [] /\ stopping st = [].

Definition capturing (s : nat) (st : State) : Prop :=
  isRecording st = true /\ pending st = 0 /\ mediaRecorder st = Some s
  /\ live st = [s] /\ recording st = [s] /\ stopping st = [].

Definition finishing (s : nat) (st : State) : Prop :=
  isRecording st = false /\ pending st = 0 /\ live st = [s]
  /\ recording st = [] /\ stopping st = [s].

Definition phase (st : State) : Prop :=
  idle st \/ acquiring st \/ (exists s, capturing s st) \/ (exists s, finishing s st).

(** The chunks that the [ondataavailable] handler keeps. *)
Definition kept (l : list Blob) : list Blob :=
  filter (fun b => 0 <? blob_size b) l.

(** ** The display of the elapsed time *)

(** [formatTime]: minutes, a colon, and the seconds on two digits. *)
Definition formatTime (seconds : nat) : string :=
  let mins := seconds / 60 in
  let secs := seconds mod 60 in
  nat_toString mins ++ ":" ++ padStart 2 "0" (nat_toString secs).

(** Whether the seconds part of the display takes two characters. *)
Definition two_digits (n : nat) : bool :=
  String.length (padStart 2 "0" (nat_toString n)) =? 2.

(** ** Unmounting *)

(** The cleanup of the mount effect: [stopVisualizer], and the interval of
    [timerRef] cleared.  Neither the recorder nor the tracks of the stream
    are stopped. *)
Definition unmount (st : State) : State :=
  let st' := stopVisualizer st in
  mkState (isRecording st') (duration st') (mediaRecorder st') (chunks st')
    false (audioContext st') (pending st') (live st') (recording st')
    (stopping st') (leakedTimers st') (completed st') (alerts st') (console st').

(** What the host delivers to a recorder that nothing stops: chunks, ticks
    and settlements of acquisitions.  The button is gone with the component,
    and a [stop] event comes only when the tracks of the stream end by
    themselves. *)
Definition from_host (ev : event) : bool :=
  match ev with
  | Click | Stopped _ => false
  | _ => true
  end.

(** A recorder left running on the stream [s]. *)
Definition abandoned (s : nat) (st : State) : Prop :=
  pending st = 0 /\ live st = [s] /\ recording st = [s] /\ stopping st = [].

(** The seconds that arrive among the events of a session. *)
Fixpoint seconds_of (l : list session_event) : nat :=
  match l with
  | [] => 0
  | Second :: rest => S (seconds_of rest)
  | Chunk _ :: rest => seconds_of rest
  end.

End AudioRecorder.

(* ================================================================== *)
(** * App.tsx *)
(* ================================================================== *)

Module App.

Import Js GeminiService.
#[local] Open Scope js_scope.

(** [blobToBase64]: the text after the first comma of the data URL that the
    reader produces, [undefined] when there is none; a read error rejects. *)
Definition blobToBase64 (readAsDataURL : Blob -> result string) (blob : Blob)
  : result jsval :=
  base64String <- readAsDataURL blob ;;
  match nth_error (split "," base64String) 1 with
  | Some base64Data => Ok (VStr base64Data)
  | None => Ok VUndef
  end.

(** The reader of the host, which reads a blob held in memory. *)
Definition readAsDataURL (blob : Blob) : result string :=
  Ok (Base64.data_url (blob_type blob) (blob_bytes blob)).

Inductive ViewState : Type := HOME | RECORDING | DETAILS | SEARCH | SETTINGS.

Record State : Type := mkState {
  view : ViewState;
  entries : list jsval;
  selectedEntry : option jsval;
  isProcessing : bool;
  alerts : list string;
  console : list js_error
}.

(** The host and the remote service, as one invocation of the pipeline meets
    them. *)
Record Env : Type := mkEnv {
  now : string;                              (* [Date.now().toString()]      *)
  isoDate : string;                          (* [new Date().toISOString()]   *)
  objectURL : string;                        (* [URL.createObjectURL(blob)]  *)
  fileReader : Blob -> result string;
  parseJSON : string -> result jsval;
  generateContent : Remote
}.

(** The body of the [try] block of [handleRecordingComplete], up to the new
    entry. *)
Definition analyse (env : Env) (audioBlob : Blob) : result jsval :=
  let newId := now env in
  let tempAudioUrl := objectURL env in
  base64Audio <- blobToBase64 (fileReader env) audioBlob ;;
  let mimeType :=
    if String.eqb (blob_type audioBlob) "" then "audio/webm"
    else blob_type audioBlob in
  r <- processAudioEntry (parseJSON env) (generateContent env) base64Audio mimeType ;;
  Ok (VObj [ ("id", VStr newId);
             ("date", VStr (isoDate env));
             ("transcription", transcription r);
             ("analysis", analysis r);
             ("audioUrl", VStr tempAudioUrl);
             ("isProcessing", VBool false) ]).

Definition analysisAlert : string :=
  "Une erreur est survenue lors de l'analyse. Veuillez réessayer.".

Definition handleRecordingComplete (env : Env) (audioBlob : Blob) (st : State)
  : State :=
  match analyse env audioBlob with
  | Ok newEntry =>
      mkState DETAILS (newEntry :: entries st) (Some newEntry) false
        (alerts st) (console st)
  | Err error =>
      mkState (view st) (entries st) (selectedEntry st) false
        (alerts st ++ [analysisAlert]) (console st ++ [error])
  end.

(** ** The save effect *)

Definition string_of_nat (n : nat) : string :=
  NilEmpty.string_of_uint (Nat.to_uint n).

Fixpoint indexed {A : Type} (i : nat) (l : list A) : list (string * A) :=
  match l with
  | [] => []
  | x :: rest => (string_of_nat i, x) :: indexed (S i) rest
  end.

(** The own enumerable properties that the object pattern reads: those of an
    object; the elements of an array and the characters of a string under
    their indices; none for a number or a boolean.  [null] and [undefined]
    cannot be destructured. *)
Definition own_properties (e : jsval) : result (list (string * jsval)) :=
  match e with
  | VUndef | VNull => Err TypeError
  | VObj props => Ok props
  | VArr elems => Ok (indexed 0 elems)
  | VStr s =>
      Ok (indexed 0 (map (fun c => VStr (String c EmptyString))
                         (list_ascii_of_string s)))
  | VBool _ | VNum _ => Ok []
  end.

(** [({ audioUrl, ...rest }) => rest]. *)
Definition rest_of (e : jsval) : result jsval :=
  props <- own_properties e ;;
  Ok (VObj (filter (fun kv => negb (String.eqb (fst kv) "audioUrl")) props)).

Fixpoint map_result {A B : Type} (f : A -> result B) (l : list A)
  : result (list B) :=
  match l with
  | [] => Ok []
  | x :: rest => y <- f x ;; ys <- map_result f rest ;; Ok (y :: ys)
  end.

Definition entriesToSave (entries : list jsval) : result (list jsval) :=
  map_result rest_of entries.

(** What the effect writes under the key [eloquent_journal_entries]: the
    serialization of [entriesToSave], as the tree it denotes. *)
Definition saved (entries : list jsval) : result jsval :=
  toSave <- entriesToSave entries ;;
  match json_of (VArr toSave) with
  | Some j => Ok j
  | None => Ok VUndef
  end.

(** ** The storage *)

(** The storage of the host: the value last written under each key, as the
    tree its text denotes. *)
Definition Storage : Type := list (string * jsval).

Definition entriesKey : string := "eloquent_journal_entries".

(** One run of the save effect of the entries.  React runs the effect after
    a render that commits, the first time at mount on the entries of the
    first render; after a render that throws no effect runs.  [setItem] is
    the host's: it stores the value or throws ([QuotaExceededError]). *)
Definition saveEntries (setItem : string -> jsval -> Storage -> result Storage)
    (entries : list jsval) (storage : Storage) : result Storage :=
  value <- saved entries ;;
  setItem entriesKey value storage.

(** ** The search of the journal *)

Section Search.

(** [String.prototype.toLowerCase] is left to the host. *)
Variable toLowerCase : string -> string.

(** [v.toLowerCase()]: only a string has the method. *)
Definition lower_of (v : jsval) : result string :=
  match v with
  | VStr s => Ok (toLowerCase s)
  | _ => Err TypeError
  end.

(** [tags.some(t => t.toLowerCase().includes(lowerQ))] on the elements. *)
Fixpoint some_includes (lowerQ : string) (tags : list jsval) : result bool :=
  match tags with
  | [] => Ok false
  | t :: rest =>
      l <- lower_of t ;;
      if includes l lowerQ then Ok true else some_includes lowerQ rest
  end.

(** The callback of [filteredEntries] for a query that is not empty. *)
Definition matches (lowerQ : string) (e : jsval) : result bool :=
  t <- get "transcription" e ;;
  lt <- lower_of t ;;
  if includes lt lowerQ then Ok true
  else
    a <- get "analysis" e ;;
    match a with
    | VUndef | VNull => Ok false
    | _ =>
        sm <- get "summary" a ;;
        ls <- lower_of sm ;;
        if includes ls lowerQ then Ok true
        else
          tg <- get "tags" a ;;
          match tg with
          | VArr elems => some_includes lowerQ elems
          | _ => Err TypeError
          end
    end.

Definition filteredEntries (searchQuery : string) (entries : list jsval)
  : result (list jsval) :=
  filter_result
    (fun e =>
       if String.eqb searchQuery "" then Ok true
       else matches (toLowerCase searchQuery) e)
    entries.

End Search.

Definition is_string (v : jsval) : bool :=
  match v with
  | VStr _ => true
  | _ => false
  end.

(** An entry of the declared shape, as far as the search reads it: an object
    with a string [transcription] and an [analysis] that is [null] or holds
    a string [summary] and an array of strings [tags]. *)
Definition searchable (e : jsval) : bool :=
  match e with
  | VObj _ =>
      is_string (field "transcription" e)
      && match field "analysis" e with
         | VNull => true
         | VObj props =>
             is_string (field "summary" (VObj props))
             && match field "tags" (VObj props) with
                | VArr elems => forallb is_string elems
                | _ => false
                end
         | _ => false
         end
  | _ => false
  end.

Definition text_of (v : jsval) : string :=
  match v with
  | VStr s => s
  | _ => EmptyString
  end.

(** Whether the query, letter case apart, occurs in the transcription, the
    summary or a tag of an entry. *)
Definition found (toLowerCase : string -> string) (searchQuery : string)
    (e : jsval) : bool :=
  let occurs_in v := includes (toLowerCase (text_of v)) (toLowerCase searchQuery) in
  occurs_in (field "transcription" e)
  || match field "analysis" e with
     | VObj props =>
         occurs_in (field "summary" (VObj props))
         || match field "tags" (VObj props) with
            | VArr elems => existsb occurs_in elems
            | _ => false
            end
     | _ => false
     end.

(** ** The daily reminder *)

Record AppSettings : Type := mkSettings {
  reminderEnabled : bool;
  reminderTime : string
}.


Inductive NotificationPermission : Type :=
| PermissionDefault
| PermissionDenied
| PermissionGranted.

Definition is_granted (p : NotificationPermission) : bool :=
  match p with
  | PermissionGranted => true
  | _ => false
  end.






End App.

(* ================================================================== *)
(** * components/EntryDetail.tsx *)
(* ================================================================== *)

Module EntryDetail.

Import Js GeminiService.

(** The [playingTTS] of the mounted instance of the component, as React holds
    it and as the last render captured it for its handlers, and the synthesis
    requests that have not settled, each under the instance that issued it.
    The service is shared by the instances; the state is not. *)
Record State : Type := mkState {
  instance : nat;                  (* the instance that is mounted              *)
  playingTTS : option string;      (* its state: [null], or the id of a button  *)
  captured : option string;        (* [playingTTS] as the last render read it   *)
  requests : list nat;             (* calls of [playEloquenceTTS] not settled   *)
  alerts : list string
}.

Definition init : State := mkState 0 None None [] [].

Definition ttsAlert : string := "Impossible de lire l'audio pour le moment.".

(** [handlePlayTTS] up to its [await]: the guard, [setPlayingTTS(id)] and
    the call of [playEloquenceTTS].  The guard reads the constant
    [playingTTS] of the render that created the handler, not the state. *)
Definition handlePlayTTS (playingTTS : option string) (text id : string)
    (st : State) : State :=
  if truthy (match playingTTS with Some s => VStr s | None => VNull end)
  then st
  else mkState (instance st) (Some id) (captured st)
         (requests st ++ [instance st]) (alerts st).

Fixpoint remove_one (x : nat) (l : list nat) : list nat :=
  match l with
  | [] => []
  | y :: rest => if Nat.eqb x y then rest else y :: remove_one x rest
  end.

(** [handlePlayTTS] from its [await] on, when the request of the instance
    [issuer] settles: the alert of the [catch] clause, and
    [setPlayingTTS(null)], which reaches the state of the issuer only. *)
Definition resume (issuer : nat) (outcome : result AudioBuffer) (st : State)
  : State :=
  mkState (instance st)
    (if Nat.eqb issuer (instance st) then None else playingTTS st)
    (captured st)
    (remove_one issuer (requests st))
    (match outcome with
     | Ok _ => alerts st
     | Err _ => alerts st ++ [ttsAlert]
     end).

(** The two kinds of button that call the handler. *)
Inductive button : Type :=
| ImprovedExample
| Suggestion (idx : nat).

Definition button_id (b : button) : string :=
  match b with
  | ImprovedExample => "improved"
  | Suggestion idx => "sug-" ++ App.string_of_nat idx
  end.

(** What happens to the component: the handler of the last render is
    called for a button, React renders the component again, a request
    settles, the user goes back to the list and opens the entry again. *)
Inductive event : Type :=
| Press (b : button) (text : string)
| Render
| Settled (issuer : nat) (outcome : result AudioBuffer)
| Reopen.

Definition render (st : State) : State :=
  mkState (instance st) (playingTTS st) (playingTTS st) (requests st) (alerts st).

(** A fresh instance starts from [useState(null)]. *)
Definition reopen (st : State) : State :=
  mkState (S (instance st)) None None (requests st) (alerts st).

Definition step (st : State) (ev : event) : State :=
  match ev with
  | Press b text => handlePlayTTS (captured st) text (button_id b) st
  | Render => render st
  | Settled issuer outcome =>
      if existsb (Nat.eqb issuer) (requests st) then resume issuer outcome st
      else st
  | Reopen => reopen st
  end.

Definition run (st : State) (evs : list event) : State := fold_left step evs st.

(** The synthesis requests in flight. *)
Definition inflight (st : State) : nat := List.length (requests st).

(** ** The metrics of the analysis tab *)

(** The three values of [metricsList], computed at every rendering of the
    component; [None] stands for the placeholder shown when the entry has no
    analysis. *)
Definition metricsList (entry : jsval) : result (option (list jsval)) :=
  analysis <- get "analysis" entry ;;
  if truthy analysis then
    metrics <- get "metrics" analysis ;;
    clarity <- get "clarity" metrics ;;
    assertiveness <- get "assertiveness" metrics ;;
    vocabularyRichness <- get "vocabularyRichness" metrics ;;
    Ok (Some [ clarity; assertiveness;
               if truthy vocabularyRichness then vocabularyRichness
               else VNum 0 ])
  else Ok None.

(** ** The practice round *)

Inductive ExerciseState : Type := IDLE | RECORDING | ANALYZING | FEEDBACK.

Record Exercise : Type := mkExercise {
  exerciseState : ExerciseState;
  exerciseFeedback : jsval;          (* [null] at first                         *)
  evaluating : nat;                  (* calls of [evaluateExercise] not settled *)
  exerciseAlerts : list string
}.

Definition exercise_init : Exercise := mkExercise IDLE VNull 0 [].

Definition exerciseAlert : string := "Erreur lors de l'analyse de l'exercice.".

(** The goal passed to [evaluateExercise]: a legacy tip itself, or the
    instruction of a structured tip, or the empty string. *)
Definition tipGoal (entry : jsval) : result jsval :=
  analysis <- get "analysis" entry ;;
  match analysis with
  | VUndef | VNull => Ok (VStr "")
  | _ =>
      tip <- get "eloquenceTip" analysis ;;
      match tip with
      | VStr s => Ok (VStr s)
      | VUndef | VNull => Ok (VStr "")
      | _ =>
          instruction <- get "instruction" tip ;;
          Ok (if truthy instruction then instruction else VStr "")
      end
  end.

(** [handleExerciseRecordingComplete] up to the settlement of the
    evaluation. *)
Definition handleExerciseRecordingComplete (ex : Exercise) : Exercise :=
  mkExercise ANALYZING (exerciseFeedback ex) (S (evaluating ex))
    (exerciseAlerts ex).

(** [handleExerciseRecordingComplete] when the encoding and the evaluation
    have settled. *)
Definition exerciseSettled (outcome : result jsval) (ex : Exercise) : Exercise :=
  match outcome with
  | Ok feedback =>
      mkExercise FEEDBACK feedback (pred (evaluating ex)) (exerciseAlerts ex)
  | Err _ =>
      mkExercise IDLE (exerciseFeedback ex) (pred (evaluating ex))
        (exerciseAlerts ex ++ [exerciseAlert])
  end.

(** The controls of the exercise tab that set the state.  Each is rendered
    in some states only: the start button in [IDLE], the cancel link in
    [RECORDING], and the retry link, which is part of the feedback panel, in
    [FEEDBACK] when the feedback is truthy. *)
Inductive control : Type := StartButton | CancelLink | RetryLink.

Definition rendered (c : control) (ex : Exercise) : bool :=
  match c, exerciseState ex with
  | StartButton, IDLE => true
  | CancelLink, RECORDING => true
  | RetryLink, FEEDBACK => truthy (exerciseFeedback ex)
  | _, _ => false
  end.

(** The recorder is mounted in [RECORDING] and in [ANALYZING], where it
    shows a spinner in place of its button. *)
Definition recorder_mounted (ex : Exercise) : bool :=
  match exerciseState ex with
  | RECORDING | ANALYZING => true
  | _ => false
  end.

Definition with_exerciseState (s : ExerciseState) (ex : Exercise) : Exercise :=
  mkExercise s (exerciseFeedback ex) (evaluating ex) (exerciseAlerts ex).

Definition press (c : control) (ex : Exercise) : Exercise :=
  match c with
  | StartButton => with_exerciseState RECORDING ex
  | CancelLink => with_exerciseState IDLE ex
  | RetryLink => with_exerciseState IDLE ex
  end.

(** What happens to the tab: a control is pressed, a recorder hands over its
    recording, an evaluation settles. *)
Inductive exercise_event : Type :=
| Pressed (c : control)
| ExerciseRecorded
| EvaluationSettled (outcome : result jsval).

Definition exercise_step (ex : Exercise) (ev : exercise_event) : Exercise :=
  match ev with
  | Pressed c => if rendered c ex then press c ex else ex
  | ExerciseRecorded => handleExerciseRecordingComplete ex
  | EvaluationSettled outcome =>
      match evaluating ex with
      | O => ex
      | S _ => exerciseSettled outcome ex
      end
  end.

Definition exercise_run (ex : Exercise) (evs : list exercise_event) : Exercise :=
  fold_left exercise_step evs ex.

(** ** The progression chart *)

Section Chart.

(** [new Date(x).getTime()]; [None] stands for [NaN]. *)
Variable getTime : jsval -> option Z.

(** [new Date(x) <= new Date(y)]. *)
Definition on_or_before (x y : jsval) : bool :=
  match getTime x, getTime y with
  | Some s, Some t => (s <=? t)%Z
  | _, _ => false
  end.

(** The callback of the filter. *)
Definition charted (currentEntry e : jsval) : result bool :=
  analysis <- get "analysis" e ;;
  if truthy analysis then
    d <- get "date" e ;;
    c <- get "date" currentEntry ;;
    Ok (on_or_before d c)
  else Ok false.

(** The comparator of the sort; the sort takes [NaN] for zero. *)
Definition byDate (a b : jsval) : result Z :=
  x <- get "date" a ;;
  y <- get "date" b ;;
  Ok (match getTime x, getTime y with
      | Some s, Some t => (s - t)%Z
      | _, _ => 0%Z
      end).

(** The [data] of [EloquenceChart]. *)
Definition chartData (currentEntry : jsval) (allEntries : list jsval)
  : result (list jsval) :=
  kept <- filter_result (charted currentEntry) allEntries ;;
  sorted <- sort_result byDate kept ;;
  Ok (slice_last 5 sorted).

(** The chart is drawn for two entries or more. *)
Definition chart_drawn (data : list jsval) : bool := 2 <=? List.length data.

(** The time of the date of an entry. *)
Definition time_of (e : jsval) : option Z :=
  match get "date" e with
  | Ok d => getTime d
  | Err _ => None
  end.

(** An entry with a valid date. *)
Definition dated (e : jsval) : Prop := exists s, time_of e = Some s.

(** An entry dated no later than another. *)
Definition le_time (a b : jsval) : Prop :=
  exists s t, time_of a = Some s /\ time_of b = Some t /\ (s <= t)%Z.

End Chart.

End EntryDetail.

(* ================================================================== *)
(** * components/EntryList.tsx *)
(* ================================================================== *)

Module EntryList.

Import Js.
#[local] Open Scope js_scope.

Section Rows.

(** The conversion to a number of an operand of [>=] that is not a number
    is left to the host; [None] stands for [NaN]. *)
Variable toNumber : jsval -> option Z.

(** [x >= 80]. *)
Definition at_least_80 (x : jsval) : bool :=
  match x with
  | VNum z => (80 <=? z)%Z
  | _ => match toNumber x with
         | Some z => (80 <=? z)%Z
         | None => false
         end
  end.

(** [entry.analysis?.metrics.m && entry.analysis.metrics.m >= 80]: the
    metric itself when it is falsy, the comparison otherwise. *)
Definition metric_high (m : string) (entry : jsval) : result jsval :=
  analysis <- get "analysis" entry ;;
  match analysis with
  | VUndef | VNull => Ok VUndef
  | _ =>
      metrics <- get "metrics" analysis ;;
      x <- get m metrics ;;
      Ok (if truthy x then VBool (at_least_80 x) else x)
  end.

(** [entry.analysis?.k || fallback]. *)
Definition analysis_or (k : string) (fallback : string) (entry : jsval)
  : result jsval :=
  analysis <- get "analysis" entry ;;
  match analysis with
  | VUndef | VNull => Ok (VStr fallback)
  | _ =>
      x <- get k analysis ;;
      Ok (if truthy x then x else VStr fallback)
  end.

(** [entry.analysis?.tags.slice(0, 3).map(...)]: the tags shown. *)
Definition shown_tags (entry : jsval) : result (list jsval) :=
  analysis <- get "analysis" entry ;;
  match analysis with
  | VUndef | VNull => Ok []
  | _ =>
      tags <- get "tags" analysis ;;
      match tags with
      | VArr elems => Ok (firstn 3 elems)
      | _ => Err TypeError
      end
  end.

(** What a row of the list shows, the two date labels apart.  [trophy] is
    the value of [isAssertive || isClear] and [highlighted] that of
    [isAssertive]: the trophy is drawn, and the mood set off, when the value
    is truthy; a value that is the number 0 is written in the row. *)
Record Row : Type := mkRow {
  trophy : jsval;
  highlighted : jsval;
  mood : jsval;
  title : jsval;
  tags : list jsval
}.

Definition row (entry : jsval) : result Row :=
  isAssertive <- metric_high "assertiveness" entry ;;
  isClear <- metric_high "clarity" entry ;;
  mood <- analysis_or "mood" "Neutre" entry ;;
  title <- analysis_or "summary" "Nouvelle entrée..." entry ;;
  tags <- shown_tags entry ;;
  Ok (mkRow (if truthy isAssertive then isAssertive else isClear) isAssertive
        mood title tags).

(** The component: [None] stands for the placeholder of the empty journal. *)
Definition EntryList (entries : list jsval) : result (option (list Row)) :=
  match entries with
  | [] => Ok None
  | _ :: _ => rows <- App.map_result row entries ;; Ok (Some rows)
  end.

End Rows.

End EntryList.

(* ================================================================== *)
(** * components/SettingsView.tsx *)
(* ================================================================== *)

Module SettingsView.

Import Js App.

(** The settings held by the application, and the permission and the alerts
    of the view. *)
Record State : Type := mkState {
  settings : AppSettings;
  granted : NotificationPermission;    (* the state [permission] *)
  alerts : list string
}.

Definition permissionAlert : string :=
  "Les notifications doivent être autorisées pour activer le rappel.".

(** [handleToggleReminder]; [answer] is what [Notification.requestPermission]
    resolves to when it is called. *)
Definition handleToggleReminder (answer : NotificationPermission) (st : State)
  : State :=
  let newValue := negb (reminderEnabled (settings st)) in
  if newValue && negb (is_granted (granted st)) then
    if is_granted answer then
      mkState (mkSettings newValue (reminderTime (settings st))) answer (alerts st)
    else
      mkState (settings st) answer (alerts st ++ [permissionAlert])
  else
    mkState (mkSettings newValue (reminderTime (settings st))) (granted st)
      (alerts st).

(** [handleTimeChange]. *)
Definition handleTimeChange (value : string) (st : State) : State :=
  mkState (mkSettings (reminderEnabled (settings st)) value) (granted st)
    (alerts st).

Inductive event : Type :=
| Toggle (answer : NotificationPermission)
| TimeChange (value : string).

Definition step (st : State) (ev : event) : State :=
  match ev with
  | Toggle answer => handleToggleReminder answer st
  | TimeChange value => handleTimeChange value st
  end.

Definition run (st : State) (evs : list event) : State := fold_left step evs st.


End SettingsView.

(* ================================================================== *)
(** * Concrete inputs *)
(* ================================================================== *)

Module Examples.

Import Js GeminiService.

(** Four samples, 1, -1, -32768 and 32767, as eight little-endian bytes. *)
Definition pcm_bytes : list byte := [x01; x00; xff; xff; x00; x80; xff; x7f].

Definition pcm_data : Uint8Array := mkUint8Array pcm_bytes 0 8.

(** The buffer the host allocates for two channels of two frames. *)
Definition stereo_buffer : AudioBuffer :=
  mkAudioBuffer 24000 [[Fin 0; Fin 0]; [Fin 0; Fin 0]].

(** Three bytes: one sample and a half. *)
Definition odd_data : Uint8Array := mkUint8Array [x01; x00; xff] 0 3.

(** A remote service that answers every request with the same text. *)
Definition answering (text : string) : Remote :=
  fun _ => Ok (mkResponse (Some text) None).

(** A remote service whose answer carries no text. *)
Definition silent : Remote := fun _ => Ok (mkResponse None None).

Definition tip_text : string :=
  "{" ++ member "focusPoint" (quoted "La voix passive") ++ ","
      ++ member "explanation" (quoted "Elle affaiblit le propos.") ++ ","
      ++ member "exampleOriginal" (quoted "Le projet a ete fini par moi") ++ ","
      ++ member "exampleImproved" (quoted "J'ai fini le projet") ++ ","
      ++ member "instruction" (quoted "Repetez: J'ai fini le projet.") ++ "}".

(** A response that is valid JSON and has every required field except
    [metrics]. *)
Definition payload_without_metrics : string :=
  "{" ++ member "transcription" (quoted "Bonjour") ++ ","
      ++ member "summary" (quoted "Une salutation.") ++ ","
      ++ member "mood" (quoted "calme") ++ ","
      ++ member "tags" ("[" ++ quoted "salut" ++ "]") ++ ","
      ++ member "deepAnalysis" (quoted "Bref.") ++ ","
      ++ member "suggestions" "[]" ++ ","
      ++ member "eloquenceTip" tip_text ++ "}".

Definition tip_value : jsval :=
  VObj [ ("focusPoint", VStr "La voix passive");
         ("explanation", VStr "Elle affaiblit le propos.");
         ("exampleOriginal", VStr "Le projet a ete fini par moi");
         ("exampleImproved", VStr "J'ai fini le projet");
         ("instruction", VStr "Repetez: J'ai fini le projet.") ].

Definition parsed_without_metrics : jsval :=
  VObj [ ("transcription", VStr "Bonjour");
         ("summary", VStr "Une salutation.");
         ("mood", VStr "calme");
         ("tags", VArr [VStr "salut"]);
         ("deepAnalysis", VStr "Bref.");
         ("suggestions", VArr []);
         ("eloquenceTip", tip_value) ].

(** What [processAudioEntry] returns for it. *)
Definition result_without_metrics : EntryAnalysis :=
  mkEntryAnalysis (VStr "Bonjour")
    (VObj [ ("summary", VStr "Une salutation.");
            ("mood", VStr "calme");
            ("tags", VArr [VStr "salut"]);
            ("metrics", VUndef);
            ("deepAnalysis", VStr "Bref.");
            ("suggestions", VArr []);
            ("eloquenceTip", tip_value) ]).

(** A recording of four bytes. *)
Definition recording : Blob := mkBlob [x1a; x45; xdf; xa3] "audio/webm".

(** A host whose remote service answers without text. *)
Definition silent_env : App.Env :=
  App.mkEnv "1730000000000" "2024-10-27T03:33:20.000Z" "blob:1"
    App.readAsDataURL JSON_parse silent.

(** A host whose remote service answers without [metrics]. *)
Definition careless_env : App.Env :=
  App.mkEnv "1730000000000" "2024-10-27T03:33:20.000Z" "blob:1"
    App.readAsDataURL JSON_parse (answering payload_without_metrics).

(** An earlier entry, as the store holds it. *)
Definition earlier_entry : jsval :=
  VObj [ ("id", VStr "1729990000000");
         ("date", VStr "2024-10-27T00:46:40.000Z");
         ("transcription", VStr "Hier");
         ("analysis", VNull);
         ("audioUrl", VStr "blob:0");
         ("isProcessing", VBool false) ].

(** A new entry as [handleRecordingComplete] builds it: with its audio
    reference and without [exerciseFeedback]. *)
Definition fresh_entry : list (string * jsval) :=
  [ ("id", VStr "1730000000000");
    ("date", VStr "2024-10-27T03:33:20.000Z");
    ("transcription", VStr "Bonjour");
    ("analysis", VObj [("summary", VStr "Une salutation."); ("mood", VStr "calme")]);
    ("audioUrl", VStr "blob:1");
    ("isProcessing", VBool false) ].

(** Two chunks of a recording, with an empty one and a timer tick between. *)
Definition first_chunk : Blob := mkBlob [x1a; x45] "audio/webm;codecs=opus".
Definition last_chunk : Blob := mkBlob [xdf; xa3; x9f] "audio/webm;codecs=opus".
Definition no_chunk : Blob := mkBlob [] "audio/webm;codecs=opus".

(** The button pressed twice before the microphone is acquired. *)
Definition double_click : list AudioRecorder.event :=
  [ AudioRecorder.Click; AudioRecorder.Click;
    AudioRecorder.Acquired (Ok 1); AudioRecorder.Acquired (Ok 2) ].

Definition permission_denied : js_error := DOMException "NotAllowedError".

Definition earlier_state : App.State :=
  App.mkState App.HOME [earlier_entry] None false [] [].

(** A response with every required field. *)
Definition metrics_text : string :=
  "{" ++ member "clarity" "82" ++ "," ++ member "assertiveness" "91" ++ ","
      ++ member "vocabularyRichness" "60" ++ ","
      ++ member "pace" (quoted "Good") ++ "}".

Definition payload_complete : string :=
  "{" ++ member "transcription" (quoted "Bonjour") ++ ","
      ++ member "summary" (quoted "Une salutation.") ++ ","
      ++ member "mood" (quoted "calme") ++ ","
      ++ member "tags" ("[" ++ quoted "salut" ++ "]") ++ ","
      ++ member "metrics" metrics_text ++ ","
      ++ member "deepAnalysis" (quoted "Bref.") ++ ","
      ++ member "suggestions" "[]" ++ ","
      ++ member "eloquenceTip" tip_text ++ "}".

Definition props_complete : list (string * jsval) :=
  [ ("transcription", VStr "Bonjour");
    ("summary", VStr "Une salutation.");
    ("mood", VStr "calme");
    ("tags", VArr [VStr "salut"]);
    ("metrics", VObj [ ("clarity", VNum 82); ("assertiveness", VNum 91);
                       ("vocabularyRichness", VNum 60); ("pace", VStr "Good") ]);
    ("deepAnalysis", VStr "Bref.");
    ("suggestions", VArr []);
    ("eloquenceTip", tip_value) ].

(** A speech of four samples, as the remote service returns it. *)
Definition speech : GenerateContentResponse :=
  mkResponse None (Some (string_of_list_ascii (Base64.encode pcm_bytes))).

(** Lower case for the letters of ASCII. *)
Fixpoint ascii_lower (s : string) : string :=
  match s with
  | EmptyString => EmptyString
  | String c rest =>
      let n := N_of_ascii c in
      String (if (65 <=? n)%N && (n <=? 90)%N then ascii_of_N (n + 32) else c)
             (ascii_lower rest)
  end.

(** An entry stored for a response without [summary]. *)
Definition entry_without_summary : jsval :=
  VObj [ ("id", VStr "1730000000001");
         ("date", VStr "2024-10-27T04:00:00.000Z");
         ("transcription", VStr "Bonjour a tous");
         ("analysis", VObj [ ("summary", VUndef); ("mood", VStr "calme");
                             ("tags", VArr [VStr "salut"]) ]);
         ("isProcessing", VBool false) ].

(** A well-formed entry. *)
Definition entry_complete : jsval :=
  VObj [ ("id", VStr "1730000000002");
         ("date", VStr "2024-10-27T05:00:00.000Z");
         ("transcription", VStr "Bonjour a tous");
         ("analysis", VObj [ ("summary", VStr "Une Salutation.");
                             ("mood", VStr "calme");
                             ("tags", VArr [VStr "salut"; VStr "Matin"]) ]);
         ("isProcessing", VBool false) ].



(** An entry as the pipeline stores it for a complete payload. *)
Definition entry_with_metrics : jsval :=
  VObj [ ("id", VStr "1730000000003");
         ("date", VStr "2024-10-27T06:00:00.000Z");
         ("transcription", VStr "Bonjour");
         ("analysis",
           VObj [ ("summary", VStr "Une salutation.");
                  ("mood", VStr "calme");
                  ("tags", VArr [VStr "salut"; VStr "matin"; VStr "jour";
                                 VStr "voix"]);
                  ("metrics", VObj [ ("clarity", VNum 85);
                                     ("assertiveness", VNum 40);
                                     ("vocabularyRichness", VNum 60);
                                     ("pace", VStr "Good") ]);
                  ("deepAnalysis", VStr "Bref.");
                  ("suggestions", VArr []);
                  ("eloquenceTip", tip_value) ]);
         ("audioUrl", VStr "blob:1");
         ("isProcessing", VBool false) ].

(** A recorder acquired and capturing, then what the host delivers after
    the component is gone. *)
Definition capture_begun : list AudioRecorder.event :=
  [ AudioRecorder.Click; AudioRecorder.Acquired (Ok 1);
    AudioRecorder.DataAvailable 1 first_chunk ].

Definition after_unmount : list AudioRecorder.event :=
  [ AudioRecorder.Tick; AudioRecorder.DataAvailable 1 last_chunk;
    AudioRecorder.Acquired (Ok 2) ].

(** The times of the dates of the examples, in milliseconds. *)
Definition example_time (x : jsval) : option Z :=
  match x with
  | VStr d =>
      if String.eqb d "2024-10-27T00:46:40.000Z" then Some 1729990000000%Z
      else if String.eqb d "2024-10-27T05:00:00.000Z" then Some 1730005200000%Z
      else if String.eqb d "2024-10-27T06:00:00.000Z" then Some 1730008800000%Z
      else None
  | _ => None
  end.

(** A storage with room, and a storage that is full. *)
Definition roomy : string -> jsval -> App.Storage -> result App.Storage :=
  fun key value storage =>
    Ok ((key, value)
          :: filter (fun kv => negb (String.eqb (fst kv) key)) storage).

Definition full : string -> jsval -> App.Storage -> result App.Storage :=
  fun _ _ _ => Err (DOMException "QuotaExceededError").

(** A host whose remote service answers with every required field. *)
Definition careful_env : App.Env :=
  App.mkEnv "1730000000000" "2024-10-27T03:33:20.000Z" "blob:1"
    App.readAsDataURL JSON_parse (answering payload_complete).

(** The handler called twice by the buttons of one render. *)
Definition two_presses : list EntryDetail.event :=
  [ EntryDetail.Press EntryDetail.ImprovedExample "J'ai fini le projet";
    EntryDetail.Press (EntryDetail.Suggestion 0) "Je termine le projet" ].

(** A press, then the entry left and opened again while the request is
    pending, and a press in the new instance. *)
Definition press_reopen_press : list EntryDetail.event :=
  [ EntryDetail.Press EntryDetail.ImprovedExample "J'ai fini le projet";
    EntryDetail.Render; EntryDetail.Reopen;
    EntryDetail.Press EntryDetail.ImprovedExample "J'ai fini le projet" ].


(** The empty buffer. *)
Definition empty_data : Uint8Array := mkUint8Array [] 0 0.

(** Strings that are decimal integers are not needed by the examples:
    every operand of a comparison in them is a number. *)
Definition no_conversion : jsval -> option Z := fun _ => None.

End Examples.

(* ================================================================== *)
(** * Properties *)
(* ================================================================== *)

Import Js GeminiService.

(** ** The transfer encoding *)

Section Base64_facts.

Import Base64.

(** Lists of bytes are taken three at a time. *)
Lemma list_ind3 (A : Type) (P : list A -> Prop) :
  P [] -> (forall a, P [a]) -> (forall a b, P [a; b]) ->
  (forall a b c l, P l -> P (a :: b :: c :: l)) ->
  forall l, P l.
Proof.
  intros H0 H1 H2 H3.
  fix IH 1.
  intros [|a [|b [|c l]]].
  - exact H0.
  - apply H1.
  - apply H2.
  - apply H3, IH.
Qed.

Lemma alphabet_ok_all : forall n, (n < 64)%N -> alphabet_ok n = true.
Proof.
  intros n Hn.
  assert (Hall : forallb alphabet_ok (map N.of_nat (seq 0 64)) = true)
    by (vm_compute; reflexivity).
  rewrite forallb_forall in Hall.
  apply Hall.
  apply in_map_iff.
  exists (N.to_nat n); split.
  - apply N2Nat.id.
  - apply in_seq. lia.
Qed.

Lemma b64_index_char n : (n < 64)%N -> b64_index (b64_char n) = Some n.
Proof.
  intros Hn. pose proof (alphabet_ok_all n Hn) as H.
  unfold alphabet_ok in H.
  repeat (apply andb_prop in H; destruct H as [H ?]).
  destruct (b64_index (b64_char n)) as [m|]; [|discriminate].
  apply N.eqb_eq in H. now subst.
Qed.

Lemma b64_char_not_pad n : (n < 64)%N -> Ascii.eqb (b64_char n) pad = false.
Proof.
  intros Hn. pose proof (alphabet_ok_all n Hn) as H.
  unfold alphabet_ok in H.
  repeat (apply andb_prop in H; destruct H as [H ?]).
  now apply negb_true_iff.
Qed.

Lemma b64_char_not_comma n : (n < 64)%N -> Ascii.eqb (b64_char n) "," = false.
Proof.
  intros Hn. pose proof (alphabet_ok_all n Hn) as H.
  unfold alphabet_ok in H.
  repeat (apply andb_prop in H; destruct H as [H ?]).
  now apply negb_true_iff.
Qed.

Lemma b64_char_not_ws n : (n < 64)%N -> is_ascii_whitespace (b64_char n) = false.
Proof.
  intros Hn. pose proof (alphabet_ok_all n Hn) as H.
  unfold alphabet_ok in H.
  repeat (apply andb_prop in H; destruct H as [H ?]).
  now apply negb_true_iff.
Qed.

Lemma to_N_lt (b : byte) : (Byte.to_N b < 256)%N.
Proof. pose proof (Byte.to_N_bounded b). lia. Qed.

Lemma byte_of_to_N (b : byte) : byte_of_N (Byte.to_N b) = b.
Proof.
  unfold byte_of_N.
  rewrite N.mod_small by apply to_N_lt.
  now rewrite Byte.of_to_N.
Qed.

Lemma byte_of_N_small n b : n = Byte.to_N b -> byte_of_N n = b.
Proof. intros ->. apply byte_of_to_N. Qed.

(** *** Arithmetic of one group *)

Lemma sextets_one x :
  (x < 256)%N ->
  (((x / 4) * 64 + (x mod 4) * 16) / 16 = x)%N.
Proof.
  intros Hx.
  pose proof (N.div_mod' x 4) as E.
  symmetry. apply N.div_unique with 0%N; lia.
Qed.

Lemma sextets_two_sum n :
  ((n / 1024) * 4096 + ((n / 16) mod 64) * 64 + (n mod 16) * 4 = 4 * n)%N.
Proof.
  pose proof (N.div_mod' n 16) as E1.
  pose proof (N.div_mod' (n / 16) 64) as E2.
  rewrite N.Div0.div_div in E2. change (16 * 64)%N with 1024%N in E2.
  lia.
Qed.

Lemma sextets_three_sum n :
  ((n / 262144) * 262144 + ((n / 4096) mod 64) * 4096
   + ((n / 64) mod 64) * 64 + n mod 64 = n)%N.
Proof.
  pose proof (N.div_mod' n 64) as E1.
  pose proof (N.div_mod' (n / 64) 64) as E2.
  rewrite N.Div0.div_div in E2. change (64 * 64)%N with 4096%N in E2.
  pose proof (N.div_mod' (n / 4096) 64) as E3.
  rewrite N.Div0.div_div in E3. change (4096 * 64)%N with 262144%N in E3.
  lia.
Qed.

(** The sextets of an encoding are below 64. *)
Lemma sextets_of_bounded : forall bs, Forall (fun n => (n < 64)%N) (sextets_of bs).
Proof.
  induction bs as [|a|a b|a b c l IH] using list_ind3; cbn [sextets_of].
  - constructor.
  - pose proof (to_N_lt a).
    repeat constructor.
    + apply N.Div0.div_lt_upper_bound; lia.
    + pose proof (N.mod_upper_bound (Byte.to_N a) 4). lia.
  - pose proof (to_N_lt a). pose proof (to_N_lt b).
    repeat constructor.
    + apply N.Div0.div_lt_upper_bound; lia.
    + apply N.mod_upper_bound; lia.
    + pose proof (N.mod_upper_bound (Byte.to_N a * 256 + Byte.to_N b) 16). lia.
  - pose proof (to_N_lt a). pose proof (to_N_lt b). pose proof (to_N_lt c).
    repeat (constructor; [first [ apply N.Div0.div_lt_upper_bound; lia
                                | apply N.mod_upper_bound; lia ] | ]).
    exact IH.
Qed.

(** Decoding the sextets of an encoding gives the bytes back. *)
Lemma bytes_of_sextets_of : forall bs, bytes_of_sextets (sextets_of bs) = bs.
Proof.
  induction bs as [|a|a b|a b c l IH] using list_ind3.
  - reflexivity.
  - cbn [sextets_of bytes_of_sextets].
    rewrite sextets_one by apply to_N_lt.
    now rewrite byte_of_to_N.
  - cbn [sextets_of bytes_of_sextets].
    pose proof (to_N_lt a). pose proof (to_N_lt b).
    rewrite sextets_two_sum.
    f_equal; [|f_equal].
    + apply byte_of_N_small. symmetry.
      apply N.div_unique with (4 * Byte.to_N b)%N; lia.
    + unfold byte_of_N.
      replace (4 * (Byte.to_N a * 256 + Byte.to_N b) / 4)%N
        with (Byte.to_N a * 256 + Byte.to_N b)%N
        by (apply N.div_unique with 0%N; lia).
      replace ((Byte.to_N a * 256 + Byte.to_N b) mod 256)%N with (Byte.to_N b)
        by (apply N.mod_unique with (Byte.to_N a); lia).
      now rewrite Byte.of_to_N.
  - change (sextets_of (a :: b :: c :: l)) with
      (let n := (Byte.to_N a * 65536 + Byte.to_N b * 256 + Byte.to_N c)%N in
       (n / 262144)%N :: ((n / 4096) mod 64)%N :: ((n / 64) mod 64)%N
         :: (n mod 64)%N :: sextets_of l).
    cbv zeta. cbn [bytes_of_sextets].
    rewrite sextets_three_sum, IH.
    pose proof (to_N_lt a). pose proof (to_N_lt b). pose proof (to_N_lt c).
    f_equal; [|f_equal; [|f_equal]].
    + apply byte_of_N_small. symmetry.
      apply N.div_unique with (Byte.to_N b * 256 + Byte.to_N c)%N; lia.
    + unfold byte_of_N.
      replace ((Byte.to_N a * 65536 + Byte.to_N b * 256 + Byte.to_N c) / 256
               mod 256)%N with (Byte.to_N b).
      * now rewrite Byte.of_to_N.
      * apply N.mod_unique with (Byte.to_N a); [lia|].
        symmetry. apply N.div_unique with (Byte.to_N c); lia.
    + unfold byte_of_N.
      replace ((Byte.to_N a * 65536 + Byte.to_N b * 256 + Byte.to_N c) mod 256)%N
        with (Byte.to_N c).
      * now rewrite Byte.of_to_N.
      * apply N.mod_unique with (Byte.to_N a * 256 + Byte.to_N b)%N; lia.
Qed.

(** *** The shape of an encoding *)

Lemma encode_split : forall bs,
  encode bs = map b64_char (sextets_of bs) ++ padding_of bs.
Proof.
  induction bs as [|a|a b|a b c l IH] using list_ind3; try reflexivity.
  change (encode (a :: b :: c :: l)) with
    (let n := (Byte.to_N a * 65536 + Byte.to_N b * 256 + Byte.to_N c)%N in
     b64_char (n / 262144) :: b64_char ((n / 4096) mod 64)
       :: b64_char ((n / 64) mod 64) :: b64_char (n mod 64) :: encode l).
  cbv zeta. rewrite IH. reflexivity.
Qed.

Lemma encode_length : forall bs, exists k, List.length (encode bs) = 4 * k.
Proof.
  induction bs as [|a|a b|a b c l [k IH]] using list_ind3.
  - now exists 0.
  - now exists 1.
  - now exists 1.
  - exists (S k).
    change (List.length (encode (a :: b :: c :: l)))
      with (S (S (S (S (List.length (encode l)))))).
    lia.
Qed.

Lemma sextets_of_length : forall bs,
  exists k, List.length (sextets_of bs) = 4 * k
         \/ List.length (sextets_of bs) = 4 * k + 2
         \/ List.length (sextets_of bs) = 4 * k + 3.
Proof.
  induction bs as [|a|a b|a b c l [k IH]] using list_ind3.
  - exists 0; now left.
  - exists 0; right; now left.
  - exists 0; right; now right.
  - exists (S k).
    change (List.length (sextets_of (a :: b :: c :: l)))
      with (S (S (S (S (List.length (sextets_of l)))))).
    lia.
Qed.

Lemma padded_nonempty : forall bs, padding_of bs <> [] -> sextets_of bs <> [].
Proof.
  induction bs as [|a|a b|a b c l IH] using list_ind3; cbn; try congruence.
Qed.

Lemma padding_cases : forall bs,
  padding_of bs = [] \/ padding_of bs = [pad] \/ padding_of bs = [pad; pad].
Proof.
  induction bs as [|a|a b|a b c l IH] using list_ind3; cbn; auto.
Qed.

Lemma map_b64_char_unpadded ns :
  Forall (fun n => (n < 64)%N) ns -> unpadded (map b64_char ns).
Proof.
  intros H. apply Forall_map. eapply Forall_impl; [|exact H].
  intros n Hn. now apply b64_char_not_pad.
Qed.

Lemma mod4_of_multiple n k : n = 4 * k -> (n mod 4 =? 0) = true.
Proof.
  intros ->. apply Nat.eqb_eq.
  rewrite Nat.mul_comm. apply Nat.Div0.mod_mul.
Qed.

Lemma rev_head_in (A : Type) (x : list A) c r : rev x = c :: r -> In c x.
Proof.
  intros E. apply in_rev. rewrite E. now left.
Qed.

Lemma strip_padding_none x : unpadded x -> strip_padding x = x.
Proof.
  intros Hx. unfold strip_padding.
  destruct (List.length x mod 4 =? 0); [|reflexivity].
  destruct (rev x) as [|c1 [|c2 r]] eqn:E; try reflexivity.
  apply rev_head_in in E.
  unfold unpadded in Hx. rewrite Forall_forall in Hx.
  now rewrite (Hx _ E).
Qed.

Lemma strip_padding_one x k :
  unpadded x -> x <> [] -> List.length (x ++ [pad]) = 4 * k ->
  strip_padding (x ++ [pad]) = x.
Proof.
  intros Hx Hne Hlen. unfold strip_padding.
  rewrite (mod4_of_multiple _ k Hlen).
  rewrite rev_app_distr. cbn [rev app].
  destruct (rev x) as [|c2 r] eqn:E.
  - apply (f_equal (@rev ascii)) in E. rewrite rev_involutive in E. now subst.
  - rewrite Ascii.eqb_refl.
    pose proof (rev_head_in _ _ _ _ E) as Hin.
    unfold unpadded in Hx. rewrite Forall_forall in Hx.
    rewrite (Hx _ Hin).
    change (rev r ++ [c2]) with (rev (c2 :: r)).
    rewrite <- E. apply rev_involutive.
Qed.

Lemma strip_padding_two x k :
  List.length (x ++ [pad; pad]) = 4 * k ->
  strip_padding (x ++ [pad; pad]) = x.
Proof.
  intros Hlen. unfold strip_padding.
  rewrite (mod4_of_multiple _ k Hlen).
  rewrite rev_app_distr. cbn [rev app].
  rewrite !Ascii.eqb_refl. apply rev_involutive.
Qed.

Lemma strip_padding_encode bs :
  strip_padding (encode bs) = map b64_char (sextets_of bs).
Proof.
  destruct (encode_length bs) as [k Hk].
  pose proof (map_b64_char_unpadded _ (sextets_of_bounded bs)) as Hu.
  pose proof (padded_nonempty bs) as Hne.
  rewrite encode_split in *.
  destruct (padding_cases bs) as [E | [E | E]]; rewrite E in *.
  - rewrite app_nil_r. now apply strip_padding_none.
  - apply strip_padding_one with k; auto.
    intros Hnil. apply map_eq_nil in Hnil. apply Hne; [discriminate | exact Hnil].
  - now apply strip_padding_two with k.
Qed.

Lemma sextets_map_b64_char ns :
  Forall (fun n => (n < 64)%N) ns -> sextets (map b64_char ns) = Some ns.
Proof.
  induction 1 as [|n ns Hn _ IH]; cbn [map sextets].
  - reflexivity.
  - now rewrite (b64_index_char n Hn), IH.
Qed.

Lemma encode_no_whitespace bs :
  filter (fun c => negb (is_ascii_whitespace c)) (encode bs) = encode bs.
Proof.
  apply forallb_filter_id. apply forallb_forall.
  intros c Hc. rewrite encode_split in Hc.
  apply in_app_or in Hc. destruct Hc as [Hc | Hc].
  - apply in_map_iff in Hc. destruct Hc as [n [<- Hn]].
    pose proof (sextets_of_bounded bs) as Hb. rewrite Forall_forall in Hb.
    now rewrite b64_char_not_ws by auto.
  - destruct (padding_cases bs) as [E | [E | E]]; rewrite E in Hc; cbn in Hc;
      intuition (subst; reflexivity).
Qed.

(** The forgiving decoder inverts the encoder. *)
Lemma forgiving_decode_encode bs : forgiving_decode (encode bs) = Some bs.
Proof.
  unfold forgiving_decode.
  rewrite encode_no_whitespace, strip_padding_encode.
  rewrite length_map.
  destruct (sextets_of_length bs) as [k Hk].
  replace (List.length (sextets_of bs) mod 4 =? 1) with false.
  - rewrite sextets_map_b64_char by apply sextets_of_bounded.
    cbn [option_map]. now rewrite bytes_of_sextets_of.
  - symmetry. apply Nat.eqb_neq.
    destruct Hk as [E | [E | E]]; rewrite E; clear E;
      rewrite (Nat.mul_comm 4 k).
    + rewrite Nat.Div0.mod_mul. discriminate.
    + rewrite Nat.add_comm, Nat.Div0.mod_add. discriminate.
    + rewrite Nat.add_comm, Nat.Div0.mod_add. discriminate.
Qed.

(** An encoding holds no comma. *)
Lemma encode_no_comma bs :
  occurs "," (string_of_list_ascii (encode bs)) = false.
Proof.
  assert (H : Forall (fun c => Ascii.eqb "," c = false) (encode bs)).
  { apply Forall_forall. intros c Hc. rewrite encode_split in Hc.
    apply in_app_or in Hc. destruct Hc as [Hc | Hc].
    - apply in_map_iff in Hc. destruct Hc as [n [<- Hn]].
      pose proof (sextets_of_bounded bs) as Hb. rewrite Forall_forall in Hb.
      rewrite Ascii.eqb_sym. now apply b64_char_not_comma, Hb.
    - destruct (padding_cases bs) as [E | [E | E]]; rewrite E in Hc; cbn in Hc;
        intuition (subst; reflexivity). }
  induction H as [|c l Hc _ IH]; cbn [string_of_list_ascii occurs];
    [reflexivity|].
  now rewrite Hc, IH.
Qed.

End Base64_facts.

(** ** [split], [blobToBase64] and [decode] *)

Section Transfer_facts.

Lemma split_nonempty sep s : split sep s <> [].
Proof.
  destruct s as [|c s]; cbn [split]; [discriminate|].
  destruct (Ascii.eqb c sep); [discriminate|].
  destruct (split sep s); discriminate.
Qed.

Lemma split_app sep p s :
  occurs sep p = false ->
  split sep (p ++ s) =
  match split sep s with
  | h :: t => (p ++ h)%string :: t
  | [] => [p]
  end.
Proof.
  induction p as [|c p IH]; cbn [occurs append split]; intros H.
  - pose proof (split_nonempty sep s). now destruct (split sep s).
  - apply orb_false_iff in H. destruct H as [Hc Hp].
    rewrite Ascii.eqb_sym, Hc, (IH Hp).
    pose proof (split_nonempty sep s). now destruct (split sep s).
Qed.

Lemma split_absent sep s : occurs sep s = false -> split sep s = [s].
Proof.
  induction s as [|c s IH]; cbn [occurs split]; intros H; [reflexivity|].
  apply orb_false_iff in H. destruct H as [Hc Hs].
  now rewrite Ascii.eqb_sym, Hc, (IH Hs).
Qed.

(** The text after the first comma of a data URL is the encoding. *)
Lemma split_data_url type bs :
  occurs "," type = false ->
  nth_error (split "," (Base64.data_url type bs)) 1
  = Some (string_of_list_ascii (Base64.encode bs)).
Proof.
  intros Htype. unfold Base64.data_url.
  rewrite (split_app "," "data:") by reflexivity.
  rewrite (split_app "," type) by exact Htype.
  cbn [append split Ascii.eqb Bool.eqb].
  rewrite (split_absent _ _ (encode_no_comma bs)).
  reflexivity.
Qed.

Lemma update_app (A : Type) (pre post : list A) x y :
  update (List.length pre) y (pre ++ x :: post) = pre ++ y :: post.
Proof.
  induction pre as [|a pre IH]; cbn; [reflexivity|]. now rewrite IH.
Qed.

Lemma get_app_length pre c post :
  String.get (List.length pre) (string_of_list_ascii (pre ++ c :: post)) = Some c.
Proof.
  induction pre as [|a pre IH]; cbn; [reflexivity | exact IH].
Qed.

Lemma string_length_of_list l :
  String.length (string_of_list_ascii l) = List.length l.
Proof.
  induction l as [|c l IH]; cbn; [reflexivity | now rewrite IH].
Qed.

Lemma byte_of_N_ascii (b : byte) :
  Base64.byte_of_N (N_of_ascii (ascii_of_byte b)) = b.
Proof. destruct b; reflexivity. Qed.

Lemma Uint8Array_set_next (pre post : list byte) (x b : byte) (n : nat) :
  List.length pre < n ->
  Uint8Array_set (mkUint8Array (pre ++ x :: post) 0 n) (List.length pre)
    (Some (N_of_ascii (ascii_of_byte b)))
  = mkUint8Array (pre ++ b :: post) 0 n.
Proof.
  intros Hlt. unfold Uint8Array_set. cbn [u8_length u8_byteOffset u8_buffer].
  apply Nat.ltb_lt in Hlt. rewrite Hlt. cbn [Nat.add].
  now rewrite update_app, byte_of_N_ascii.
Qed.

Lemma charCodeAt_binary (pre post : list byte) (b : byte) :
  charCodeAt (string_of_list_ascii (map ascii_of_byte (pre ++ b :: post)))
             (List.length pre)
  = Some (N_of_ascii (ascii_of_byte b)).
Proof.
  unfold charCodeAt. rewrite map_app. cbn [map].
  rewrite <- (length_map ascii_of_byte pre).
  now rewrite get_app_length.
Qed.

(** The copying loop of [decode] over the binary string of [all], after
    [pre] has been copied. *)
Lemma decode_loop (all : list byte) : forall post pre,
  all = pre ++ post ->
  for_loop_from (List.length pre) (List.length post)
    (fun i bytes =>
       Ok (Uint8Array_set bytes i
             (charCodeAt (string_of_list_ascii (map ascii_of_byte all)) i)))
    (mkUint8Array (pre ++ repeat x00 (List.length post)) 0 (List.length all))
  = Ok (mkUint8Array all 0 (List.length all)).
Proof.
  induction post as [|b post IH]; intros pre Hall.
  - cbn. rewrite app_nil_r in *. now subst.
  - cbn [List.length for_loop_from bind repeat].
    assert (E : charCodeAt (string_of_list_ascii (map ascii_of_byte all))
                           (List.length pre)
                = Some (N_of_ascii (ascii_of_byte b)))
      by (rewrite Hall; apply charCodeAt_binary).
    rewrite E.
    rewrite Uint8Array_set_next
      by (rewrite Hall, length_app; cbn [List.length]; lia).
    specialize (IH (pre ++ [b])).
    rewrite length_app in IH. cbn [List.length] in IH.
    rewrite Nat.add_1_r in IH.
    rewrite <- !app_assoc in IH. cbn [app] in IH.
    apply IH. exact Hall.
Qed.

(** [decode] inverts the encoding. *)
Lemma decode_encode bs :
  decode (string_of_list_ascii (Base64.encode bs))
  = Ok (mkUint8Array bs 0 (List.length bs)).
Proof.
  unfold decode, Base64.atob.
  rewrite list_ascii_of_string_of_list_ascii, forgiving_decode_encode.
  cbn [bind].
  rewrite string_length_of_list, length_map.
  exact (decode_loop bs bs [] eq_refl).
Qed.

End Transfer_facts.

(** C4.  The transfer encoding is a round trip: for every byte buffer, the
    empty one included, held in a blob whose type has no comma (as the type
    [audio/webm] of every recording), [blobToBase64] resolves to a text that
    [decode] turns back into exactly the bytes of the buffer. *)
Theorem transfer_round_trip (bytes : list byte) (type : string) :
  occurs "," type = false ->
  exists base64,
    App.blobToBase64 App.readAsDataURL (mkBlob bytes type) = Ok (VStr base64)
    /\ decode base64 = Ok (mkUint8Array bytes 0 (List.length bytes)).
Proof.
  intros Htype.
  exists (string_of_list_ascii (Base64.encode bytes)). split.
  - unfold App.blobToBase64, App.readAsDataURL. cbn [bind blob_type blob_bytes].
    now rewrite split_data_url.
  - apply decode_encode.
Qed.

Lemma transfer_round_trip_witness :
  occurs "," "audio/webm" = false
  /\ exists base64,
       App.blobToBase64 App.readAsDataURL (mkBlob [x1a; x45; xdf; xa3] "audio/webm")
       = Ok (VStr base64)
       /\ decode base64 = Ok (mkUint8Array [x1a; x45; xdf; xa3] 0 4).
Proof.
  split; [reflexivity|].
  exact (transfer_round_trip [x1a; x45; xdf; xa3] "audio/webm" eq_refl).
Defined.

(** ** PCM decoding *)

Section Decode_facts.

Lemma update_length (A : Type) (i : nat) (x : A) (l : list A) :
  List.length (update i x l) = List.length l.
Proof.
  revert i. induction l as [|y l IH]; intros [|i]; cbn; auto.
Qed.

(** A loop that writes [f i] at each index [i] of an array. *)
Lemma fill_loop (A : Type) (f : nat -> A) : forall post pre,
  for_loop_from (List.length pre) (List.length post)
    (fun i l => Ok (update i (f i) l)) (pre ++ post)
  = Ok (pre ++ map f (seq (List.length pre) (List.length post))).
Proof.
  induction post as [|x post IH]; intros pre.
  - reflexivity.
  - cbn [List.length for_loop_from bind seq map].
    rewrite update_app.
    specialize (IH (pre ++ [f (List.length pre)])).
    rewrite length_app in IH. cbn [List.length] in IH.
    rewrite Nat.add_1_r in IH.
    rewrite <- !app_assoc in IH. cbn [app] in IH.
    exact IH.
Qed.

Lemma count_below_exact (n f : nat) :
  count_below (div_count (S n * f) (S n)) = f.
Proof.
  unfold div_count, count_below, Qceiling, Qfloor, Qopp.
  cbn [Qnum Qden].
  rewrite Nat2Z.inj_mul.
  replace (Z.pos (Pos.of_nat (S n))) with (Z.of_nat (S n))
    by lia.
  rewrite <- Z.mul_opp_r, Z.mul_comm, Z.div_mul by lia.
  lia.
Qed.

Lemma frame_loop (dataInt16 : Int16Array) (numChannels channel : nat)
    (channelData : list number) :
  for_loop (List.length channelData)
    (fun i channelData =>
       Ok (Float32Array_set channelData i
             (div32768 (Int16Array_get dataInt16 (i * numChannels + channel)))))
    channelData
  = Ok (decoded_channel dataInt16 numChannels (List.length channelData) channel).
Proof.
  exact (fill_loop _
           (fun i => div32768 (Int16Array_get dataInt16 (i * numChannels + channel)))
           channelData []).
Qed.

Lemma nth_error_middle (A : Type) (pre post : list A) (x : A) :
  nth_error (pre ++ x :: post) (List.length pre) = Some x.
Proof.
  induction pre as [|a pre IH]; cbn; [reflexivity | exact IH].
Qed.

(** The loop over the channels, after the channels of [pre] are decoded. *)
Lemma channel_loop (dataInt16 : Int16Array) (numChannels frames : nat) (sr : N) :
  forall post pre,
  Forall (fun ch => List.length ch = frames) post ->
  for_loop_from (List.length pre) (List.length post)
    (fun channel buffer =>
       channelData <- getChannelData buffer channel ;;
       channelData' <-
         for_loop frames
           (fun i channelData =>
              Ok (Float32Array_set channelData i
                    (div32768 (Int16Array_get dataInt16 (i * numChannels + channel)))))
           channelData ;;
       Ok (set_channel buffer channel channelData'))
    (mkAudioBuffer sr (pre ++ post))
  = Ok (mkAudioBuffer sr
          (pre ++ map (decoded_channel dataInt16 numChannels frames)
                      (seq (List.length pre) (List.length post)))).
Proof.
  set (body := fun (channel : nat) (buffer : AudioBuffer) => _).
  induction post as [|ch post IH]; intros pre Hpost.
  - reflexivity.
  - inversion Hpost as [|? ? Hch Hrest]; subst.
    cbn [List.length for_loop_from seq map].
    assert (Hstep :
      body (List.length pre) (mkAudioBuffer sr (pre ++ ch :: post))
      = Ok (mkAudioBuffer sr
              (pre ++ decoded_channel dataInt16 numChannels (List.length ch)
                        (List.length pre) :: post))).
    { subst body. cbv beta.
      unfold getChannelData. cbn [ab_channels].
      rewrite nth_error_middle. cbn [bind].
      rewrite frame_loop. cbn [bind].
      unfold set_channel. cbn [ab_sampleRate ab_channels].
      now rewrite update_app. }
    rewrite Hstep. cbn [bind].
    specialize (IH (pre ++ [decoded_channel dataInt16 numChannels
                              (List.length ch) (List.length pre)]) Hrest).
    rewrite length_app in IH. cbn [List.length] in IH.
    rewrite Nat.add_1_r in IH.
    rewrite <- !app_assoc in IH. cbn [app] in IH.
    exact IH.
Qed.

Lemma int16_le_range lo hi : (-32768 <= int16_le lo hi <= 32767)%Z.
Proof.
  unfold int16_le.
  pose proof (to_N_lt lo). pose proof (to_N_lt hi).
  destruct (Z.ltb_spec (Z.of_N (Byte.to_N lo) + 256 * Z.of_N (Byte.to_N hi)) 32768);
    lia.
Qed.

Lemma sample_in_unit_interval z :
  (-32768 <= z <= 32767)%Z -> (-1 <= z # 32768)%Q /\ (z # 32768 <= 1)%Q.
Proof.
  intros Hz. unfold Qle. cbn [Qnum Qden]. lia.
Qed.

(** The quotient by 32768 of a 16-bit integer is a single-precision number:
    the division and the store into the [Float32Array] are exact. *)
Lemma sample_binary32 z : (-32768 <= z <= 32767)%Z -> binary32 (z # 32768).
Proof.
  intros Hz. exists z, (-15)%Z. repeat split; try lia.
  unfold Qeq. cbn. lia.
Qed.

Lemma Int16Array_get_in_range (buffer : list byte) (k : nat) :
  2 * k + 1 < List.length buffer ->
  exists lo hi,
    nth_error buffer (2 * k) = Some lo
    /\ nth_error buffer (2 * k + 1) = Some hi
    /\ Int16Array_get (mkInt16Array buffer) k = Some (int16_le lo hi).
Proof.
  intros Hk. unfold Int16Array_get. cbn [i16_buffer].
  destruct (nth_error buffer (2 * k)) as [lo|] eqn:Elo.
  - destruct (nth_error buffer (2 * k + 1)) as [hi|] eqn:Ehi.
    + now exists lo, hi.
    + apply nth_error_None in Ehi. lia.
  - apply nth_error_None in Elo. lia.
Qed.

Lemma even_length_halves (n : nat) : Nat.even n = true -> n = 2 * (n / 2).
Proof.
  intros H. apply Nat.even_spec in H. destruct H as [k ->].
  now rewrite Nat.mul_comm, Nat.div_mul, Nat.mul_comm by discriminate.
Qed.

End Decode_facts.

(** The channels [decodeAudioData] returns when the context allocates the
    buffer it is asked for. *)
Lemma decodeAudioData_channels (data : Uint8Array) (ctx : AudioContext)
    (sampleRate : N) (numChannels : nat) (allocated : AudioBuffer) :
  Nat.even (List.length (u8_buffer data)) = true ->
  (List.length (u8_buffer data) / 2) mod numChannels = 0 ->
  createBuffer ctx numChannels
    (div_count (List.length (u8_buffer data) / 2) numChannels) sampleRate
  = Ok allocated ->
  List.length (ab_channels allocated) = numChannels ->
  Forall (fun ch => List.length ch = List.length (u8_buffer data) / 2 / numChannels)
         (ab_channels allocated) ->
  decodeAudioData data ctx sampleRate numChannels
  = Ok (mkAudioBuffer (ab_sampleRate allocated)
          (map (decoded_channel (mkInt16Array (u8_buffer data)) numChannels
                  (List.length (u8_buffer data) / 2 / numChannels))
               (seq 0 numChannels))).
Proof.
  intros Heven Hdiv Halloc Hchannels Hframes.
  unfold decodeAudioData, new_Int16Array.
  rewrite Heven. cbn [bind].
  unfold Int16Array_length. cbn [i16_buffer].
  rewrite Halloc. cbn [bind].
  destruct numChannels as [|n].
  - destruct allocated as [sr [|ch chs]]; [reflexivity | discriminate].
  - set (samples := List.length (u8_buffer data) / 2) in *.
    assert (Hs : samples = S n * (samples / S n))
      by (apply Nat.Div0.div_exact; exact Hdiv).
    assert (Hcount : count_below (div_count samples (S n)) = samples / S n)
      by (rewrite Hs at 1; apply count_below_exact).
    rewrite Hcount.
    destruct allocated as [sr chs]. cbn [ab_channels ab_sampleRate] in *.
    unfold for_loop.
    pose proof (channel_loop (mkInt16Array (u8_buffer data)) (S n)
                  (samples / S n) sr chs [] Hframes) as Hloop.
    cbn [List.length app] in Hloop.
    rewrite Hchannels in Hloop. exact Hloop.
Qed.

(** The context of the host allocates what [decodeAudioData] asks for when
    the channel count, the frame count and the sample rate are in its
    nominal ranges. *)
Lemma webAudio_allocates (numChannels frames : nat) (sampleRate : N) :
  1 <= numChannels <= 32 ->
  1 <= frames -> (Z.of_nat frames < 4294967296)%Z ->
  (8000 <= sampleRate <= 96000)%N ->
  createBuffer webAudio numChannels (div_count (numChannels * frames) numChannels)
    sampleRate
  = Ok (mkAudioBuffer sampleRate (repeat (repeat (Fin 0) frames) numChannels)).
Proof.
  intros Hc Hf Hf32 Hsr.
  destruct numChannels as [|n]; [lia|].
  unfold webAudio, createBuffer, div_count, to_unsigned_long. cbn [Qnum Qden].
  assert (E : Z.to_nat (Z.quot (Z.of_nat (S n * frames))
                               (Z.pos (Pos.of_nat (S n))) mod 4294967296)
              = frames).
  { replace (Z.pos (Pos.of_nat (S n))) with (Z.of_nat (S n)) by lia.
    rewrite Z.quot_div_nonneg by lia.
    rewrite Nat2Z.inj_mul, Z.mul_comm, Z.div_mul by lia.
    rewrite Z.mod_small by lia. apply Nat2Z.id. }
  rewrite E.
  replace (S n =? 0) with false by reflexivity.
  replace (32 <? S n) with false by (symmetry; apply Nat.ltb_ge; lia).
  replace (frames =? 0) with false by (symmetry; apply Nat.eqb_neq; lia).
  replace (sampleRate <? 8000)%N with false by (symmetry; apply N.ltb_ge; lia).
  replace (96000 <? sampleRate)%N with false by (symmetry; apply N.ltb_ge; lia).
  reflexivity.
Qed.

(** C3, refuted.  The empty buffer has an even length and a sample count
    divisible by the channel count, and it is not decoded: the context
    refuses a buffer of no frame, and [decodeAudioData] rejects with its
    [NotSupportedError]. *)
Lemma decodeAudioData_rejects_empty_buffer :
  Nat.even (List.length (u8_buffer Examples.empty_data)) = true
  /\ (List.length (u8_buffer Examples.empty_data) / 2) mod 1 = 0
  /\ decodeAudioData Examples.empty_data webAudio 24000%N 1
     = Err (DOMException "NotSupportedError").
Proof. repeat split. Qed.

(** The empty buffer reaches [decodeAudioData] through [playEloquenceTTS]:
    inline data made of white space is truthy and decodes to no byte. *)
Lemma playEloquenceTTS_rejects_blank_speech (text : string) :
  playEloquenceTTS (fun _ => Ok (mkResponse None (Some " "))) webAudio text
  = Err (DOMException "NotSupportedError").
Proof. reflexivity. Qed.

(** C3, amended.  For a byte buffer of even length whose count of 16-bit
    samples is divisible by the channel count, and a context that allocates
    the buffer asked for, [decodeAudioData] returns one array per channel,
    each of byteLength/2/channelCount frames, in which the sample of channel
    c at frame i is the little-endian signed 16-bit integer at index
    i*channelCount+c divided by 32768: a value of [-1, 1] that single
    precision holds exactly. *)
Theorem decodeAudioData_samples (data : Uint8Array) (ctx : AudioContext)
    (sampleRate : N) (numChannels : nat) (allocated : AudioBuffer) :
  let bytes := u8_buffer data in
  let frameCount := List.length bytes / 2 / numChannels in
  Nat.even (List.length bytes) = true ->
  (List.length bytes / 2) mod numChannels = 0 ->
  createBuffer ctx numChannels (div_count (List.length bytes / 2) numChannels)
    sampleRate = Ok allocated ->
  List.length (ab_channels allocated) = numChannels ->
  Forall (fun ch => List.length ch = frameCount) (ab_channels allocated) ->
  exists decoded,
    decodeAudioData data ctx sampleRate numChannels = Ok decoded
    /\ List.length (ab_channels decoded) = numChannels
    /\ forall c, c < numChannels ->
        exists channelData,
          nth_error (ab_channels decoded) c = Some channelData
          /\ List.length channelData = frameCount
          /\ forall i, i < frameCount ->
              exists lo hi,
                nth_error bytes (2 * (i * numChannels + c)) = Some lo
                /\ nth_error bytes (2 * (i * numChannels + c) + 1) = Some hi
                /\ nth_error channelData i = Some (Fin (int16_le lo hi # 32768))
                /\ (-1 <= int16_le lo hi # 32768)%Q
                /\ (int16_le lo hi # 32768 <= 1)%Q
                /\ binary32 (int16_le lo hi # 32768).
Proof.
  intros bytes frameCount Heven Hdiv Halloc Hchannels Hframes.
  eexists. split; [|split].
  - apply (decodeAudioData_channels data ctx sampleRate numChannels allocated);
      assumption.
  - cbn [ab_channels]. now rewrite length_map, length_seq.
  - intros c Hc. cbn [ab_channels].
    exists (decoded_channel (mkInt16Array bytes) numChannels frameCount c).
    split; [|split].
    + rewrite nth_error_map, nth_error_seq.
      apply Nat.ltb_lt in Hc. now rewrite Hc.
    + unfold decoded_channel. now rewrite length_map, length_seq.
    + intros i Hi.
      assert (Hlen : List.length bytes = 2 * (numChannels * frameCount)).
      { rewrite (even_length_halves _ Heven) at 1. f_equal.
        destruct numChannels as [|n]; [lia|].
        apply Nat.Div0.div_exact. exact Hdiv. }
      assert (Hk : 2 * (i * numChannels + c) + 1 < List.length bytes) by nia.
      destruct (Int16Array_get_in_range bytes _ Hk) as (lo & hi & Hlo & Hhi & Hget).
      exists lo, hi.
      pose proof (int16_le_range lo hi) as Hrange.
      destruct (sample_in_unit_interval _ Hrange) as [Hge Hle].
      repeat split; auto.
      * unfold decoded_channel.
        rewrite nth_error_map, nth_error_seq.
        apply Nat.ltb_lt in Hi. rewrite Hi. cbn [option_map Nat.add].
        now rewrite Hget.
      * now apply sample_binary32.
Qed.

Lemma decodeAudioData_samples_witness :
  Nat.even (List.length Examples.pcm_bytes) = true
  /\ (List.length Examples.pcm_bytes / 2) mod 2 = 0
  /\ createBuffer webAudio 2 (div_count (List.length Examples.pcm_bytes / 2) 2) 24000
     = Ok Examples.stereo_buffer
  /\ exists decoded,
       decodeAudioData Examples.pcm_data webAudio 24000 2 = Ok decoded
       /\ List.length (ab_channels decoded) = 2
       /\ forall c, c < 2 ->
           exists channelData,
             nth_error (ab_channels decoded) c = Some channelData
             /\ List.length channelData = 2
             /\ forall i, i < 2 ->
                 exists lo hi,
                   nth_error Examples.pcm_bytes (2 * (i * 2 + c)) = Some lo
                   /\ nth_error Examples.pcm_bytes (2 * (i * 2 + c) + 1) = Some hi
                   /\ nth_error channelData i = Some (Fin (int16_le lo hi # 32768))
                   /\ (-1 <= int16_le lo hi # 32768)%Q
                   /\ (int16_le lo hi # 32768 <= 1)%Q
                   /\ binary32 (int16_le lo hi # 32768).
Proof.
  split; [reflexivity|]. split; [reflexivity|]. split; [reflexivity|].
  apply (decodeAudioData_samples Examples.pcm_data webAudio 24000 2
           Examples.stereo_buffer); try reflexivity.
  repeat constructor.
Defined.

Lemma new_Int16Array_odd (buffer : list byte) :
  Nat.odd (List.length buffer) = true -> new_Int16Array buffer = Err RangeError.
Proof.
  intros Hodd. unfold new_Int16Array. now rewrite <- Nat.negb_odd, Hodd.
Qed.

Lemma decodeAudioData_odd (data : Uint8Array) (ctx : AudioContext)
    (sampleRate : N) (numChannels : nat) :
  Nat.odd (List.length (u8_buffer data)) = true ->
  decodeAudioData data ctx sampleRate numChannels = Err RangeError.
Proof.
  intros Hodd. unfold decodeAudioData. now rewrite new_Int16Array_odd.
Qed.

(** C10.  The decoding is partial: over a buffer of odd length the
    construction of the [Int16Array] throws a [RangeError], and
    [decodeAudioData] rejects with it whatever the context, the sample rate
    and the channel count. *)
Theorem decodeAudioData_odd_length (data : Uint8Array) :
  Nat.odd (List.length (u8_buffer data)) = true ->
  new_Int16Array (u8_buffer data) = Err RangeError
  /\ forall ctx sampleRate numChannels,
       decodeAudioData data ctx sampleRate numChannels = Err RangeError.
Proof.
  intros Hodd. split.
  - now apply new_Int16Array_odd.
  - intros. now apply decodeAudioData_odd.
Qed.

Lemma decodeAudioData_odd_length_witness :
  Nat.odd (List.length (u8_buffer Examples.odd_data)) = true
  /\ new_Int16Array (u8_buffer Examples.odd_data) = Err RangeError
  /\ forall ctx sampleRate numChannels,
       decodeAudioData Examples.odd_data ctx sampleRate numChannels = Err RangeError.
Proof.
  split; [reflexivity|].
  exact (decodeAudioData_odd_length Examples.odd_data eq_refl).
Defined.

(** Decoding succeeds on buffers of even length only. *)
Corollary decodeAudioData_needs_even_length (data : Uint8Array)
    (ctx : AudioContext) (sampleRate : N) (numChannels : nat)
    (decoded : AudioBuffer) :
  decodeAudioData data ctx sampleRate numChannels = Ok decoded ->
  Nat.even (List.length (u8_buffer data)) = true.
Proof.
  intros Hok.
  destruct (Nat.even (List.length (u8_buffer data))) eqn:E; [reflexivity|].
  unfold decodeAudioData, new_Int16Array in Hok. rewrite E in Hok.
  discriminate.
Qed.

(** When the sample count is no multiple of the channel count, the host
    truncates the frame count and the samples of the incomplete frame are
    lost: of four samples in three channels, the fourth. *)
Example decodeAudioData_incomplete_frame :
  decodeAudioData Examples.pcm_data webAudio 24000 3
  = Ok (mkAudioBuffer 24000
          [[Fin (1 # 32768)]; [Fin (-1 # 32768)]; [Fin (-32768 # 32768)]]).
Proof. vm_compute. reflexivity. Qed.

(** On the path of [playEloquenceTTS], an audio payload of an odd number of
    bytes makes the playback fail with the [RangeError]. *)
Lemma playEloquenceTTS_odd_payload (generateContent : Remote) (ctx : AudioContext)
    (text : string) (bytes : list byte) (response : GenerateContentResponse) :
  generateContent (ttsRequest text) = Ok response ->
  inlineAudio response = Some (string_of_list_ascii (Base64.encode bytes)) ->
  Nat.odd (List.length bytes) = true ->
  playEloquenceTTS generateContent ctx text = Err RangeError.
Proof.
  intros Hresp Haudio Hodd.
  unfold playEloquenceTTS. rewrite Hresp. cbn [bind]. rewrite Haudio.
  destruct bytes as [|b bytes]; [discriminate|].
  destruct (string_of_list_ascii (Base64.encode (b :: bytes))) eqn:E.
  - exfalso.
    apply (f_equal list_ascii_of_string) in E.
    rewrite list_ascii_of_string_of_list_ascii in E.
    destruct bytes as [|b2 [|b3 bytes]]; discriminate.
  - rewrite <- E, decode_encode. cbn [bind].
    now apply decodeAudioData_odd.
Qed.

(** ** The analysis of an entry *)

(** C1, refuted.  A response that is valid JSON and lacks the required field
    [metrics] is not rejected: [processAudioEntry] fulfils with a result
    whose [metrics] is [undefined]. *)
Lemma processAudioEntry_accepts_missing_metrics :
  JSON_parse Examples.payload_without_metrics = Ok Examples.parsed_without_metrics
  /\ missing analysisSchema Examples.parsed_without_metrics = ["metrics"]
  /\ processAudioEntry JSON_parse (Examples.answering Examples.payload_without_metrics)
       (VStr "GkXfow==") "audio/webm"
     = Ok Examples.result_without_metrics
  /\ field "metrics" (analysis Examples.result_without_metrics) = VUndef.
Proof.
  repeat split; vm_compute; reflexivity.
Qed.

Lemma get_object (k : string) (props : list (string * jsval)) :
  get k (VObj props) = Ok (field k (VObj props)).
Proof. reflexivity. Qed.

(** C1, amended.  [processAudioEntry] checks no required field.  For every
    response whose text is not empty and parses to a JSON object, it
    fulfils; the transcription and the seven properties of the analysis are
    the payload's own, and a property the payload lacks is [undefined] in
    the result. *)
Theorem processAudioEntry_passes_fields_through
    (parse : string -> result jsval) (generateContent : Remote)
    (audioBase64 : jsval) (mimeType : string)
    (response : GenerateContentResponse) (resultText : string)
    (props : list (string * jsval)) :
  generateContent (analysisRequest audioBase64 mimeType) = Ok response ->
  text response = Some resultText ->
  resultText <> "" ->
  parse resultText = Ok (VObj props) ->
  exists r,
    processAudioEntry parse generateContent audioBase64 mimeType = Ok r
    /\ transcription r = field "transcription" (VObj props)
    /\ (forall k, In k analysis_keys ->
         field k (analysis r) = field k (VObj props))
    /\ (forall k, In k analysis_keys -> lookup k props = None ->
         field k (analysis r) = VUndef).
Proof.
  intros Hresp Htext Hne Hparse.
  eexists. split; [|split; [|split]].
  - unfold processAudioEntry. rewrite Hresp. cbn [bind]. rewrite Htext.
    destruct resultText as [|c t]; [congruence|].
    rewrite Hparse. cbn [bind].
    rewrite !get_object. cbn [bind]. reflexivity.
  - reflexivity.
  - intros k Hk. cbn [analysis].
    unfold analysis_keys in Hk. cbn [In] in Hk.
    repeat (destruct Hk as [<- | Hk]; [reflexivity|]). contradiction.
  - intros k Hk Hnone. cbn [analysis].
    unfold analysis_keys in Hk. cbn [In] in Hk.
    repeat (destruct Hk as [<- | Hk];
            [cbn [field lookup String.eqb Ascii.eqb Bool.eqb];
             now rewrite Hnone|]).
    contradiction.
Qed.

Lemma processAudioEntry_passes_fields_through_witness :
  Examples.answering Examples.payload_without_metrics
    (analysisRequest (VStr "GkXfow==") "audio/webm")
  = Ok (mkResponse (Some Examples.payload_without_metrics) None)
  /\ Examples.payload_without_metrics <> ""
  /\ JSON_parse Examples.payload_without_metrics = Ok Examples.parsed_without_metrics
  /\ exists r,
       processAudioEntry JSON_parse
         (Examples.answering Examples.payload_without_metrics)
         (VStr "GkXfow==") "audio/webm" = Ok r
       /\ transcription r = VStr "Bonjour"
       /\ field "metrics" (analysis r) = VUndef.
Proof.
  split; [reflexivity|]. split; [discriminate|].
  split; [vm_compute; reflexivity|].
  destruct (processAudioEntry_passes_fields_through JSON_parse
              (Examples.answering Examples.payload_without_metrics)
              (VStr "GkXfow==") "audio/webm"
              (mkResponse (Some Examples.payload_without_metrics) None)
              Examples.payload_without_metrics
              [ ("transcription", VStr "Bonjour");
                ("summary", VStr "Une salutation.");
                ("mood", VStr "calme");
                ("tags", VArr [VStr "salut"]);
                ("deepAnalysis", VStr "Bref.");
                ("suggestions", VArr []);
                ("eloquenceTip", Examples.tip_value) ])
    as (r & Hr & Htr & _ & Hmissing).
  - reflexivity.
  - reflexivity.
  - discriminate.
  - vm_compute; reflexivity.
  - exists r. split; [exact Hr|]. split; [exact Htr|].
    apply Hmissing; [cbn; tauto | reflexivity].
Defined.

(** [evaluateExercise] checks no field either: it returns what [JSON.parse]
    gives. *)
Lemma evaluateExercise_returns_parsed
    (parse : string -> result jsval) (generateContent : Remote)
    (audioBase64 : jsval) (mimeType goal : string)
    (response : GenerateContentResponse) (resultText : string) :
  generateContent (exerciseRequest audioBase64 mimeType) = Ok response ->
  text response = Some resultText ->
  evaluateExercise parse generateContent audioBase64 mimeType goal
  = parse resultText.
Proof.
  intros Hresp Htext. unfold evaluateExercise. rewrite Hresp. cbn [bind].
  now rewrite Htext.
Qed.

(** The failures of [processAudioEntry]: a rejected call, an absent or empty
    text, a text that [JSON.parse] rejects, and the payload [null]. *)
Lemma processAudioEntry_failures
    (parse : string -> result jsval) (generateContent : Remote)
    (audioBase64 : jsval) (mimeType : string) :
  (forall e, generateContent (analysisRequest audioBase64 mimeType) = Err e ->
     processAudioEntry parse generateContent audioBase64 mimeType = Err e)
  /\ (forall response,
       generateContent (analysisRequest audioBase64 mimeType) = Ok response ->
       text response = None \/ text response = Some "" ->
       processAudioEntry parse generateContent audioBase64 mimeType
       = Err (Error "No response from Gemini"))
  /\ (forall response c t e,
       generateContent (analysisRequest audioBase64 mimeType) = Ok response ->
       text response = Some (String c t) ->
       parse (String c t) = Err e ->
       processAudioEntry parse generateContent audioBase64 mimeType = Err e)
  /\ (forall response c t,
       generateContent (analysisRequest audioBase64 mimeType) = Ok response ->
       text response = Some (String c t) ->
       parse (String c t) = Ok VNull ->
       processAudioEntry parse generateContent audioBase64 mimeType = Err TypeError).
Proof.
  unfold processAudioEntry. repeat split.
  - intros e ->. reflexivity.
  - intros response -> [H | H]; cbn [bind]; now rewrite H.
  - intros response c t e -> H1 H2. cbn [bind]. now rewrite H1, H2.
  - intros response c t -> H1 H2. cbn [bind]. now rewrite H1, H2.
Qed.

(** ** The pipeline of [handleRecordingComplete] *)

(** The [mimeType] that [handleRecordingComplete] passes on. *)
Lemma analyse_unfold (env : App.Env) (audioBlob : Blob) :
  App.analyse env audioBlob =
  (base64Audio <- App.blobToBase64 (App.fileReader env) audioBlob ;;
   r <- processAudioEntry (App.parseJSON env) (App.generateContent env) base64Audio
          (if String.eqb (blob_type audioBlob) "" then "audio/webm"
           else blob_type audioBlob) ;;
   Ok (VObj [ ("id", VStr (App.now env));
              ("date", VStr (App.isoDate env));
              ("transcription", transcription r);
              ("analysis", analysis r);
              ("audioUrl", VStr (App.objectURL env));
              ("isProcessing", VBool false) ])).
Proof. reflexivity. Qed.

Lemma handleRecordingComplete_on_error (env : App.Env) (audioBlob : Blob)
    (st : App.State) (e : js_error) :
  App.analyse env audioBlob = Err e ->
  App.handleRecordingComplete env audioBlob st
  = App.mkState (App.view st) (App.entries st) (App.selectedEntry st) false
      (App.alerts st ++ [App.analysisAlert]) (App.console st ++ [e]).
Proof.
  intros H. unfold App.handleRecordingComplete. now rewrite H.
Qed.

(** C2.  When the encoding fails, the remote call fails or the response is
    rejected, [handleRecordingComplete] leaves the entries as they were
    before the invocation; the selected entry and the view are kept too. *)
Theorem handleRecordingComplete_failure_keeps_entries (env : App.Env)
    (audioBlob : Blob) (st : App.State) :
  let mimeType := if String.eqb (blob_type audioBlob) "" then "audio/webm"
                  else blob_type audioBlob in
  (exists e, App.blobToBase64 (App.fileReader env) audioBlob = Err e)
  \/ (exists base64Audio e,
        App.blobToBase64 (App.fileReader env) audioBlob = Ok base64Audio
        /\ App.generateContent env (analysisRequest base64Audio mimeType) = Err e)
  \/ (exists base64Audio e,
        App.blobToBase64 (App.fileReader env) audioBlob = Ok base64Audio
        /\ processAudioEntry (App.parseJSON env) (App.generateContent env)
             base64Audio mimeType = Err e) ->
  App.entries (App.handleRecordingComplete env audioBlob st) = App.entries st
  /\ App.selectedEntry (App.handleRecordingComplete env audioBlob st)
     = App.selectedEntry st
  /\ App.view (App.handleRecordingComplete env audioBlob st) = App.view st.
Proof.
  intros mimeType H.
  assert (Herr : exists e, App.analyse env audioBlob = Err e).
  { rewrite analyse_unfold. fold mimeType.
    destruct H as [[e H] | [(b & e & Hb & H) | (b & e & Hb & H)]].
    - exists e. now rewrite H.
    - exists e. rewrite Hb. cbn [bind].
      unfold processAudioEntry. now rewrite H.
    - exists e. rewrite Hb. cbn [bind]. now rewrite H. }
  destruct Herr as [e Herr].
  rewrite (handleRecordingComplete_on_error env audioBlob st e Herr).
  now cbn.
Qed.

Lemma handleRecordingComplete_failure_keeps_entries_witness :
  (exists base64Audio e,
     App.blobToBase64 (App.fileReader Examples.silent_env) Examples.recording
     = Ok base64Audio
     /\ processAudioEntry (App.parseJSON Examples.silent_env)
          (App.generateContent Examples.silent_env) base64Audio "audio/webm"
        = Err e)
  /\ App.entries (App.handleRecordingComplete Examples.silent_env
                    Examples.recording Examples.earlier_state)
     = [Examples.earlier_entry].
Proof.
  assert (H : exists base64Audio e,
     App.blobToBase64 (App.fileReader Examples.silent_env) Examples.recording
     = Ok base64Audio
     /\ processAudioEntry (App.parseJSON Examples.silent_env)
          (App.generateContent Examples.silent_env) base64Audio "audio/webm"
        = Err e).
  { exists (VStr "GkXfow=="), (Error "No response from Gemini").
    split; vm_compute; reflexivity. }
  split; [exact H|].
  exact (proj1 (handleRecordingComplete_failure_keeps_entries
                  Examples.silent_env Examples.recording Examples.earlier_state
                  (or_intror (or_intror H)))).
Defined.

(** The one change of the entries: a successful analysis puts its entry in
    front. *)
Lemma handleRecordingComplete_entries (env : App.Env) (audioBlob : Blob)
    (st : App.State) :
  App.entries (App.handleRecordingComplete env audioBlob st)
  = match App.analyse env audioBlob with
    | Ok newEntry => newEntry :: App.entries st
    | Err _ => App.entries st
    end.
Proof.
  unfold App.handleRecordingComplete.
  now destruct (App.analyse env audioBlob).
Qed.

(** A response without [metrics] is not a failure of the pipeline: its
    entry enters the store. *)
Example handleRecordingComplete_stores_incomplete_analysis :
  App.entries (App.handleRecordingComplete Examples.careless_env
                 Examples.recording Examples.earlier_state)
  = [ VObj [ ("id", VStr "1730000000000");
             ("date", VStr "2024-10-27T03:33:20.000Z");
             ("transcription", VStr "Bonjour");
             ("analysis", analysis Examples.result_without_metrics);
             ("audioUrl", VStr "blob:1");
             ("isProcessing", VBool false) ];
      Examples.earlier_entry ].
Proof. vm_compute. reflexivity. Qed.

(** ** The save effect *)

Section Save_facts.

(** Induction on values, through arrays and objects. *)
Lemma jsval_nested_ind (P : jsval -> Prop) :
  P VUndef -> P VNull -> (forall b, P (VBool b)) -> (forall z, P (VNum z)) ->
  (forall s, P (VStr s)) ->
  (forall elems, Forall P elems -> P (VArr elems)) ->
  (forall props, Forall (fun kv => P (snd kv)) props -> P (VObj props)) ->
  forall v, P v.
Proof.
  intros HU HN HB HZ HS HA HO.
  fix IH 1.
  intros [| |b|z|s|elems|props].
  - exact HU.
  - exact HN.
  - apply HB.
  - apply HZ.
  - apply HS.
  - apply HA. induction elems as [|x elems IHl]; constructor; [apply IH | exact IHl].
  - apply HO. induction props as [|[k x] props IHl]; constructor;
      [apply IH | exact IHl].
Qed.

(** A value free of [undefined] is its own serialization. *)
Lemma json_of_is_json : forall v, is_json v = true -> json_of v = Some v.
Proof.
  induction v as [| |b|z|s|elems IH|props IH] using jsval_nested_ind;
    cbn [is_json json_of]; intros H; try reflexivity; try discriminate.
  - do 2 f_equal.
    induction IH as [|x elems Hx _ IHl]; [reflexivity|].
    cbn [forallb] in H. apply andb_prop in H. destruct H as [H1 H2].
    cbn [map]. now rewrite (Hx H1), (IHl H2).
  - do 2 f_equal.
    induction IH as [|[k x] props Hx _ IHl]; [reflexivity|].
    apply andb_prop in H. destruct H as [H1 H2].
    cbn [snd] in Hx. now rewrite (Hx H1), (IHl H2).
Qed.

Lemma read_back_is_json v : is_json v = true -> read_back v = v.
Proof.
  intros H. unfold read_back. now rewrite json_of_is_json.
Qed.

Lemma members_cons k x props :
  members ((k, x) :: props) =
  match json_of x with
  | Some j => (k, j) :: members props
  | None => members props
  end.
Proof.
  unfold members. cbn [json_of]. now destruct (json_of x).
Qed.

Lemma json_of_object props : json_of (VObj props) = Some (VObj (members props)).
Proof. reflexivity. Qed.

Lemma lookup_members_absent k props :
  lookup k props = None -> lookup k (members props) = None.
Proof.
  induction props as [|[k' x] props IH]; [reflexivity|].
  cbn [lookup]. rewrite members_cons.
  destruct (String.eqb k k') eqn:E; [discriminate|]. intros H.
  destruct (json_of x); cbn [lookup]; [rewrite E|]; auto.
Qed.

(** Reading a member of a serialized object whose keys are distinct. *)
Lemma lookup_members k props :
  NoDup (map fst props) ->
  match lookup k (members props) with Some j => j | None => VUndef end
  = read_back (match lookup k props with Some v => v | None => VUndef end).
Proof.
  induction props as [|[k' x] props IH]; intros Hnd; [reflexivity|].
  cbn [map fst] in Hnd. inversion Hnd as [|? ? Hnotin Hnd']; subst.
  cbn [lookup]. rewrite members_cons.
  destruct (String.eqb k k') eqn:E.
  - apply String.eqb_eq in E. subst k'.
    unfold read_back.
    destruct (json_of x) as [j|]; cbn [lookup].
    + now rewrite String.eqb_refl.
    + rewrite lookup_members_absent; [reflexivity|].
      destruct (lookup k props) as [v|] eqn:El; [|reflexivity].
      exfalso. apply Hnotin.
      clear -El. induction props as [|[k2 x2] props IHp]; [discriminate|].
      cbn [lookup] in El. cbn [map fst].
      destruct (String.eqb k k2) eqn:E2.
      * left. symmetry. now apply String.eqb_eq.
      * right. now apply IHp.
  - destruct (json_of x) as [j|]; cbn [lookup]; [rewrite E|]; now apply IH.
Qed.

Lemma lookup_filter_other k props :
  k <> "audioUrl" ->
  lookup k (filter (fun kv => negb (String.eqb (fst kv) "audioUrl")) props)
  = lookup k props.
Proof.
  intros Hk. induction props as [|[k' x] props IH]; [reflexivity|].
  cbn [filter fst lookup].
  destruct (String.eqb k' "audioUrl") eqn:E; cbn [negb lookup].
  - apply String.eqb_eq in E. subst k'.
    destruct (String.eqb k "audioUrl") eqn:E2; [|exact IH].
    apply String.eqb_eq in E2. contradiction.
  - now rewrite IH.
Qed.

Lemma lookup_filter_audioUrl props :
  lookup "audioUrl" (filter (fun kv => negb (String.eqb (fst kv) "audioUrl")) props)
  = None.
Proof.
  induction props as [|[k' x] props IH]; [reflexivity|].
  cbn [filter fst].
  destruct (String.eqb k' "audioUrl") eqn:E; cbn [negb]; [exact IH|].
  cbn [lookup]. rewrite String.eqb_sym, E. exact IH.
Qed.

Lemma NoDup_filter_keys (f : string * jsval -> bool) props :
  NoDup (map fst props) -> NoDup (map fst (filter f props)).
Proof.
  induction props as [|[k x] props IH]; intros Hnd; [constructor|].
  cbn [map fst] in Hnd. inversion Hnd as [|? ? Hnotin Hnd']; subst.
  cbn [filter]. destruct (f (k, x)); [|now apply IH].
  cbn [map fst]. constructor; [|now apply IH].
  intros Hin. apply Hnotin.
  apply in_map_iff in Hin. destruct Hin as [[k2 x2] [Hk Hin]].
  apply filter_In in Hin. destruct Hin as [Hin _].
  apply in_map_iff. now exists (k2, x2).
Qed.

Lemma entriesToSave_objects (entries : list (list (string * jsval))) :
  App.entriesToSave (map VObj entries)
  = Ok (map (fun props =>
               VObj (filter (fun kv => negb (String.eqb (fst kv) "audioUrl")) props))
            entries).
Proof.
  unfold App.entriesToSave.
  induction entries as [|props entries IH]; [reflexivity|].
  cbn [map App.map_result]. rewrite IH. reflexivity.
Qed.

Lemma saved_objects (entries : list (list (string * jsval))) :
  App.saved (map VObj entries)
  = Ok (VArr (map (fun props =>
                     VObj (members (filter (fun kv =>
                                              negb (String.eqb (fst kv) "audioUrl"))
                                           props)))
                  entries)).
Proof.
  unfold App.saved. rewrite entriesToSave_objects. cbn [bind json_of].
  rewrite map_map. reflexivity.
Qed.

End Save_facts.

(** C9.  For every collection of entries (objects with distinct keys), what
    the save effect writes is an array with one record per entry, in order;
    the record has no [audioUrl], and each other field reads as the
    serialization of the entry's field: unchanged for [id], [date],
    [transcription], [analysis], [isProcessing], [exerciseFeedback] and any
    other field whose value is JSON, and [undefined] for a field the entry
    does not have. *)
Theorem saved_entries_omit_audioUrl (entries : list (list (string * jsval))) :
  Forall (fun props => NoDup (map fst props)) entries ->
  exists records,
    App.saved (map VObj entries) = Ok (VArr records)
    /\ List.length records = List.length entries
    /\ forall i props, nth_error entries i = Some props ->
        exists record,
          nth_error records i = Some record
          /\ field "audioUrl" record = VUndef
          /\ (forall k, k <> "audioUrl" ->
               field k record = read_back (field k (VObj props)))
          /\ (forall k, k <> "audioUrl" -> is_json (field k (VObj props)) = true ->
               field k record = field k (VObj props)).
Proof.
  intros Hobjects.
  eexists. split; [apply saved_objects|]. split; [apply length_map|].
  intros i props Hi.
  eexists. split; [rewrite nth_error_map, Hi; reflexivity|].
  assert (Hnd : NoDup (map fst props)).
  { rewrite Forall_forall in Hobjects. apply Hobjects.
    eapply nth_error_In; eauto. }
  assert (Hread : forall k, k <> "audioUrl" ->
            field k (VObj (members (filter (fun kv =>
                             negb (String.eqb (fst kv) "audioUrl")) props)))
            = read_back (field k (VObj props))).
  { intros k Hk. cbn [field].
    rewrite lookup_members by now apply NoDup_filter_keys.
    now rewrite lookup_filter_other. }
  split; [|split].
  - cbn [field].
    rewrite lookup_members_absent; [reflexivity|].
    apply lookup_filter_audioUrl.
  - exact Hread.
  - intros k Hk Hjson. rewrite Hread by exact Hk.
    now apply read_back_is_json.
Qed.

Lemma saved_entries_omit_audioUrl_witness :
  Forall (fun props => NoDup (map fst props)) [Examples.fresh_entry]
  /\ exists records,
       App.saved (map VObj [Examples.fresh_entry]) = Ok (VArr records)
       /\ List.length records = 1
       /\ forall i props, nth_error [Examples.fresh_entry] i = Some props ->
           exists record,
             nth_error records i = Some record
             /\ field "audioUrl" record = VUndef
             /\ (forall k, k <> "audioUrl" ->
                  field k record = read_back (field k (VObj props)))
             /\ (forall k, k <> "audioUrl" ->
                  is_json (field k (VObj props)) = true ->
                  field k record = field k (VObj props)).
Proof.
  assert (H : Forall (fun props => NoDup (map fst props)) [Examples.fresh_entry]).
  { constructor; [|constructor].
    repeat (constructor; [cbn; intuition discriminate|]). constructor. }
  split; [exact H|].
  exact (saved_entries_omit_audioUrl [Examples.fresh_entry] H).
Defined.

(** ** The recorder *)

Section Recorder_facts.

Import AudioRecorder.

Lemma bytes_of_app l1 l2 : bytes_of (l1 ++ l2) = bytes_of l1 ++ bytes_of l2.
Proof. unfold bytes_of. now rewrite map_app, concat_app. Qed.

Lemma mem_head s l : mem s (s :: l) = true.
Proof. unfold mem. cbn [existsb]. now rewrite Nat.eqb_refl. Qed.

(** A chunk or a tick changes the chunks and the duration only; an empty
    chunk is not kept, which loses no byte. *)
Lemma deliver_step (s : nat) (e : session_event) (st : State) :
  mem s (recording st) || mem s (stopping st) = true ->
  let st' := step st (deliver s e) in
  bytes_of (chunks st') = bytes_of (chunks st) ++ bytes_of (chunks_of [e])
  /\ isRecording st' = isRecording st
  /\ mediaRecorder st' = mediaRecorder st
  /\ recording st' = recording st
  /\ stopping st' = stopping st
  /\ completed st' = completed st.
Proof.
  intros Hmem. destruct e as [data|]; cbn [deliver step chunks_of].
  - rewrite Hmem. unfold ondataavailable, blob_size.
    assert (Hone : bytes_of [data] = blob_bytes data)
      by (unfold bytes_of; cbn [map List.concat]; apply app_nil_r).
    rewrite Hone.
    destruct (blob_bytes data) as [|b bs] eqn:E; cbn [List.length Nat.ltb Nat.leb].
    + rewrite app_nil_r. repeat split.
    + cbn [chunks isRecording mediaRecorder recording stopping completed].
      rewrite bytes_of_app, Hone. repeat split.
  - assert (Hnone : bytes_of [] = []) by reflexivity.
    rewrite Hnone, app_nil_r.
    destruct (timerActive st || (0 <? leakedTimers st)); repeat split.
Qed.

Lemma chunks_of_app l1 l2 : chunks_of (l1 ++ l2) = chunks_of l1 ++ chunks_of l2.
Proof.
  induction l1 as [|[data|] l1 IH]; cbn [app chunks_of]; [reflexivity| |exact IH].
  now rewrite IH.
Qed.

Lemma deliver_run (s : nat) (evs : list session_event) : forall st,
  mem s (recording st) || mem s (stopping st) = true ->
  let st' := run st (map (deliver s) evs) in
  bytes_of (chunks st') = bytes_of (chunks st) ++ bytes_of (chunks_of evs)
  /\ isRecording st' = isRecording st
  /\ mediaRecorder st' = mediaRecorder st
  /\ recording st' = recording st
  /\ stopping st' = stopping st
  /\ completed st' = completed st.
Proof.
  induction evs as [|e evs IH]; intros st Hmem.
  - cbn [map run fold_left chunks_of].
    assert (Hnone : bytes_of [] = []) by reflexivity.
    rewrite Hnone, app_nil_r. repeat split.
  - cbn [map run fold_left].
    destruct (deliver_step s e st Hmem) as (Hc & Hi & Hm & Hr & Hs & Hd).
    assert (Hmem' : mem s (recording (step st (deliver s e)))
                    || mem s (stopping (step st (deliver s e))) = true)
      by now rewrite Hr, Hs.
    destruct (IH _ Hmem') as (Hc' & Hi' & Hm' & Hr' & Hs' & Hd').
    unfold run in *.
    rewrite Hc', Hc, Hi', Hi, Hm', Hm, Hr', Hr, Hs', Hs, Hd', Hd.
    change (e :: evs) with ([e] ++ evs).
    rewrite chunks_of_app, bytes_of_app, app_assoc.
    repeat split.
Qed.

Lemma blob_size_sum (l : list Blob) :
  List.length (bytes_of l) = list_sum (map blob_size l).
Proof.
  unfold bytes_of, blob_size. rewrite length_concat, map_map. reflexivity.
Qed.

(** The state in which a session on [s] starts to record. *)
Lemma session_start (s : nat) (st : State) :
  isRecording st = false ->
  let st1 := run st [Click; Acquired (Ok s)] in
  chunks st1 = [] /\ isRecording st1 = true /\ mediaRecorder st1 = Some s
  /\ recording st1 = s :: recording st /\ stopping st1 = stopping st
  /\ completed st1 = completed st.
Proof.
  intros Hidle. cbn [run fold_left step]. rewrite Hidle.
  cbn. repeat split.
Qed.

(** Pressing the button while [s] records stops its recorder. *)
Lemma session_stop (s : nat) (st : State) :
  isRecording st = true -> mediaRecorder st = Some s ->
  mem s (recording st) = true ->
  let st' := step st Click in
  chunks st' = chunks st /\ stopping st' = s :: stopping st
  /\ completed st' = completed st.
Proof.
  intros Hrec Hmr Hmem. cbn [step]. rewrite Hrec.
  unfold stopRecording. rewrite Hmr, Hrec, Hmem. cbn. repeat split.
Qed.

(** The [stop] event of [s] hands over the blob of the chunks held. *)
Lemma session_end (s : nat) (st : State) :
  mem s (stopping st) = true ->
  completed (step st (Stopped s))
  = completed st ++ [new_Blob (chunks st) "audio/webm"].
Proof.
  intros Hmem. cbn [step]. rewrite Hmem. reflexivity.
Qed.

End Recorder_facts.


(** X26.  A session that runs alone, from a component that does not record,
    hands over on stop the chunks received during the session, concatenated
    in the order of arrival: the bytes of the blob are the chunks' bytes in
    order, and its length is the sum of the chunks' lengths. *)
Theorem recording_concatenates_chunks (st : AudioRecorder.State) (stream : nat)
    (during after : list AudioRecorder.session_event) :
  AudioRecorder.isRecording st = false ->
  let final := AudioRecorder.run st (AudioRecorder.session stream during after) in
  let received := AudioRecorder.chunks_of (during ++ after) in
  exists blob,
    AudioRecorder.completed final = AudioRecorder.completed st ++ [blob]
    /\ blob_bytes blob = List.concat (map blob_bytes received)
    /\ blob_type blob = "audio/webm"
    /\ blob_size blob = list_sum (map blob_size received).
Proof.
  intros Hidle final received.
  unfold final, AudioRecorder.session, AudioRecorder.run.
  change (AudioRecorder.Click :: AudioRecorder.Acquired (Ok stream)
            :: map (AudioRecorder.deliver stream) during
            ++ AudioRecorder.Click :: map (AudioRecorder.deliver stream) after
            ++ [AudioRecorder.Stopped stream])
    with ([AudioRecorder.Click; AudioRecorder.Acquired (Ok stream)]
            ++ map (AudioRecorder.deliver stream) during
            ++ [AudioRecorder.Click] ++ map (AudioRecorder.deliver stream) after
            ++ [AudioRecorder.Stopped stream]).
  rewrite !fold_left_app.
  destruct (session_start stream st Hidle) as (Hc1 & Hi1 & Hm1 & Hr1 & Hs1 & Hd1).
  unfold AudioRecorder.run in *.
  set (st1 := fold_left AudioRecorder.step
                [AudioRecorder.Click; AudioRecorder.Acquired (Ok stream)] st) in *.
  assert (Hmem1 : AudioRecorder.mem stream (AudioRecorder.recording st1)
                  || AudioRecorder.mem stream (AudioRecorder.stopping st1) = true)
    by (rewrite Hr1, mem_head; reflexivity).
  destruct (deliver_run stream during st1 Hmem1)
    as (Hc2 & Hi2 & Hm2 & Hr2 & Hs2 & Hd2).
  unfold AudioRecorder.run in *.
  set (st2 := fold_left AudioRecorder.step
                (map (AudioRecorder.deliver stream) during) st1) in *.
  assert (Hrec2 : AudioRecorder.mem stream (AudioRecorder.recording st2) = true)
    by (rewrite Hr2, Hr1; apply mem_head).
  destruct (session_stop stream st2 (eq_trans Hi2 Hi1) (eq_trans Hm2 Hm1) Hrec2)
    as (Hc3 & Hs3 & Hd3).
  cbn [fold_left] in *.
  set (st3 := AudioRecorder.step st2 AudioRecorder.Click) in *.
  assert (Hmem3 : AudioRecorder.mem stream (AudioRecorder.recording st3)
                  || AudioRecorder.mem stream (AudioRecorder.stopping st3) = true)
    by (rewrite Hs3, mem_head; apply orb_true_r).
  destruct (deliver_run stream after st3 Hmem3)
    as (Hc4 & _ & _ & _ & Hs4 & Hd4).
  unfold AudioRecorder.run in *.
  set (st4 := fold_left AudioRecorder.step
                (map (AudioRecorder.deliver stream) after) st3) in *.
  assert (Hmem4 : AudioRecorder.mem stream (AudioRecorder.stopping st4) = true)
    by (rewrite Hs4, Hs3; apply mem_head).
  rewrite (session_end stream st4 Hmem4).
  assert (Hbytes : bytes_of (AudioRecorder.chunks st4) = bytes_of received).
  { rewrite Hc4, Hc3, Hc2, Hc1. unfold received.
    rewrite chunks_of_app, bytes_of_app. reflexivity. }
  exists (new_Blob (AudioRecorder.chunks st4) "audio/webm").
  split; [|split; [|split]].
  - now rewrite Hd4, Hd3, Hd2, Hd1.
  - exact Hbytes.
  - reflexivity.
  - unfold blob_size at 1. cbn [new_Blob blob_bytes].
    rewrite Hbytes. apply blob_size_sum.
Qed.

Lemma recording_concatenates_chunks_witness :
  AudioRecorder.isRecording AudioRecorder.init = false
  /\ exists blob,
       AudioRecorder.completed
         (AudioRecorder.run AudioRecorder.init
            (AudioRecorder.session 1
               [ AudioRecorder.Chunk Examples.first_chunk; AudioRecorder.Second;
                 AudioRecorder.Chunk Examples.no_chunk ]
               [ AudioRecorder.Chunk Examples.last_chunk ]))
       = [] ++ [blob]
       /\ blob_bytes blob = [x1a; x45; xdf; xa3; x9f]
       /\ blob_type blob = "audio/webm"
       /\ blob_size blob = 5.
Proof.
  split; [reflexivity|].
  exact (recording_concatenates_chunks AudioRecorder.init 1
           [ AudioRecorder.Chunk Examples.first_chunk; AudioRecorder.Second;
             AudioRecorder.Chunk Examples.no_chunk ]
           [ AudioRecorder.Chunk Examples.last_chunk ] eq_refl).
Defined.

(** C6, refuted.  When the acquisition of the microphone is refused,
    [startRecording] does not fail: the promise it returns is fulfilled. *)
Lemma startRecording_swallows_refusal :
  snd (AudioRecorder.startRecording (Err Examples.permission_denied)
         AudioRecorder.init)
  = Ok tt.
Proof. reflexivity. Qed.

(** C6, amended.  Whenever the acquisition of the microphone fails,
    [startRecording] catches the failure: the promise is fulfilled, the
    error is logged and an alert is shown, and nothing else changes; no
    recording is started. *)
Theorem startRecording_reports_by_alert (err : js_error)
    (st : AudioRecorder.State) :
  AudioRecorder.startRecording (Err err) st
  = (AudioRecorder.mkState
       (AudioRecorder.isRecording st) (AudioRecorder.duration st)
       (AudioRecorder.mediaRecorder st) (AudioRecorder.chunks st)
       (AudioRecorder.timerActive st) (AudioRecorder.audioContext st)
       (AudioRecorder.pending st) (AudioRecorder.live st)
       (AudioRecorder.recording st) (AudioRecorder.stopping st)
       (AudioRecorder.leakedTimers st) (AudioRecorder.completed st)
       (AudioRecorder.alerts st ++ [AudioRecorder.micAlert])
       (AudioRecorder.console st ++ [err]),
     Ok tt).
Proof. reflexivity. Qed.

(** ** One session at a time *)

Section Session_facts.

Import AudioRecorder.

Lemma without_self s : without s [s] = [].
Proof. unfold without. cbn [filter]. now rewrite Nat.eqb_refl. Qed.

Lemma mem_single r s : mem r [s] = Nat.eqb r s.
Proof. unfold mem. cbn [existsb]. apply orb_false_r. Qed.

(** Settles the fields of a phase after a step, by cases on the tests the
    step makes. *)
Ltac settle :=
  cbn;
  repeat (match goal with
          | |- context [if ?b then _ else _] => destruct b
          end; cbn);
  repeat split.

(** Under serialized use every step leads from a phase to a phase. *)
Lemma phase_step (st : State) (ev : event) :
  phase st ->
  match ev with Click => quiescent st = true | _ => True end ->
  phase (step st ev).
Proof.
  intros Hphase Hguard.
  destruct st as [isRec dur mr ch ta ac pe li re sp lt co al cs].
  unfold phase, idle, acquiring, capturing, finishing in *.
  cbn [isRecording pending live recording stopping mediaRecorder] in *.
  destruct Hphase as [H | [H | [[s H] | [s H]]]].
  - (* idle *)
    destruct H as (-> & -> & -> & -> & ->).
    destruct ev as [|[stream|err]|r data|r|].
    + right; left. settle.
    + left. settle.
    + left. settle.
    + left. settle.
    + left. settle.
    + left. settle.
  - (* acquiring *)
    destruct H as (-> & -> & -> & -> & ->).
    destruct ev as [|[stream|err]|r data|r|].
    + discriminate Hguard.
    + right; right; left. exists stream. settle.
    + left. settle.
    + right; left. settle.
    + right; left. settle.
    + right; left. settle.
  - (* capturing *)
    destruct H as (-> & -> & -> & -> & -> & ->).
    destruct ev as [|[stream|err]|r data|r|].
    + right; right; right. exists s.
      cbn [step isRecording].
      unfold stopRecording. cbn [mediaRecorder isRecording recording stopping].
      rewrite without_self, mem_single, Nat.eqb_refl. settle.
    + right; right; left. exists s. settle.
    + right; right; left. exists s. settle.
    + right; right; left. exists s.
      cbn [step recording stopping]. unfold ondataavailable.
      destruct (mem r [s] || mem r []); [destruct (0 <? blob_size data)|];
        settle.
    + right; right; left. exists s. settle.
    + right; right; left. exists s. settle.
  - (* finishing *)
    destruct H as (-> & -> & -> & -> & ->).
    destruct ev as [|[stream|err]|r data|r|].
    + discriminate Hguard.
    + right; right; right. exists s. settle.
    + right; right; right. exists s. settle.
    + right; right; right. exists s.
      cbn [step recording stopping]. unfold ondataavailable.
      destruct (mem r [] || mem r [s]); [destruct (0 <? blob_size data)|];
        settle.
    + cbn [step stopping]. rewrite mem_single.
      destruct (Nat.eqb r s) eqn:E.
      * apply Nat.eqb_eq in E. subst r. left.
        unfold onstop, with_stopping, stopVisualizer.
        cbn [isRecording pending live recording stopping].
        rewrite !without_self. repeat split.
      * right; right; right. exists s. settle.
    + right; right; right. exists s. settle.
Qed.

Lemma phase_run (evs : list event) : forall st,
  phase st -> serialized st evs -> phase (run st evs).
Proof.
  induction evs as [|ev evs IH]; intros st Hphase Hser; [exact Hphase|].
  cbn [serialized] in Hser. destruct Hser as [Hguard Hrest].
  cbn [run fold_left]. apply IH; [|exact Hrest].
  apply phase_step; assumption.
Qed.

Lemma phase_live (st : State) : phase st -> List.length (live st) <= 1.
Proof.
  unfold phase, idle, acquiring, capturing, finishing.
  intros [H | [H | [[s H] | [s H]]]];
    decompose [and] H; match goal with E : live st = _ |- _ => rewrite E end;
    cbn; lia.
Qed.

Lemma phase_init : phase init.
Proof. left. repeat split. Qed.

(** While [isRecording] holds, the button stops: it requests no stream. *)
Lemma click_while_recording (st : State) :
  isRecording st = true ->
  pending (step st Click) = pending st /\ live (step st Click) = live st.
Proof.
  intros Hrec. cbn [step]. rewrite Hrec. unfold stopRecording.
  destruct (mediaRecorder st); [rewrite Hrec|]; cbn; split; reflexivity.
Qed.

End Session_facts.

(** C7, on the code.  [isRecording] is set after the acquisition, so the
    button pressed twice before the first acquisition completes starts two
    recordings: two microphone streams are live at once.  The ref of the
    recorder holds the second one only: the button then stops the second
    stream, and the first stays live. *)
Lemma double_click_two_live_streams :
  AudioRecorder.live (AudioRecorder.run AudioRecorder.init Examples.double_click)
  = [2; 1]
  /\ ~ List.length
        (AudioRecorder.live
           (AudioRecorder.run AudioRecorder.init Examples.double_click)) <= 1.
Proof.
  split; [reflexivity|]. cbn. lia.
Qed.

(** After that the button stops the second recording only. *)
Lemma double_click_orphans_first_stream :
  AudioRecorder.live
    (AudioRecorder.run AudioRecorder.init
       (Examples.double_click
          ++ [AudioRecorder.Click; AudioRecorder.Stopped 2]))
  = [1].
Proof. reflexivity. Qed.

(** One mounted component, its button pressed only when no acquisition and
    no [stop] event is outstanding, and its recorders stopped by the button
    only: at most one microphone stream is live, and while the component
    records the button stops and requests nothing. *)
Lemma serialized_use_one_live_stream (evs : list AudioRecorder.event) :
  AudioRecorder.serialized AudioRecorder.init evs ->
  let st := AudioRecorder.run AudioRecorder.init evs in
  List.length (AudioRecorder.live st) <= 1
  /\ (AudioRecorder.isRecording st = true ->
      AudioRecorder.pending (AudioRecorder.step st AudioRecorder.Click)
      = AudioRecorder.pending st
      /\ AudioRecorder.live (AudioRecorder.step st AudioRecorder.Click)
         = AudioRecorder.live st).
Proof.
  intros Hser st. split.
  - apply phase_live. apply phase_run; [apply phase_init | exact Hser].
  - apply click_while_recording.
Qed.

(** ** Speech synthesis *)

Section TTS_facts.

Import EntryDetail.

Lemma button_id_nonempty (b : button) : button_id b <> "".
Proof. destruct b; discriminate. Qed.

(** A handler created by a render in which [playingTTS] held a button id
    returns at its guard. *)
Lemma handlePlayTTS_guarded (text id current : string) (st : State) :
  current <> "" ->
  handlePlayTTS (Some current) text id st = st.
Proof.
  intros Hne. unfold handlePlayTTS.
  destruct current as [|c rest]; [congruence | reflexivity].
Qed.

(** Once the component is rendered again after a press, its buttons issue
    nothing. *)
Lemma press_after_render (b b' : button) (text text' : string) (st : State) :
  captured st = None ->
  let st' := render (step st (Press b text)) in
  step st' (Press b' text') = st'.
Proof.
  intros Hc st'. cbn [step]. unfold st'. cbn [step].
  unfold handlePlayTTS at 2. rewrite Hc.
  cbn [truthy render captured playingTTS].
  apply handlePlayTTS_guarded, button_id_nonempty.
Qed.

End TTS_facts.

(** C8, on the code.  The guard of [handlePlayTTS] reads the [playingTTS]
    of the render that created the handler, and each mounted instance has
    a [playingTTS] of its own.  After one press a request is in flight and
    [playingTTS] holds the id of the button; a second call of the handler of
    the same render issues a second request, and so does a press in the
    entry opened again: two requests are in flight at once. *)
Theorem handlePlayTTS_two_requests_in_flight :
  EntryDetail.playingTTS
    (EntryDetail.run EntryDetail.init
       [EntryDetail.Press EntryDetail.ImprovedExample "J'ai fini le projet"])
  = Some "improved"
  /\ EntryDetail.inflight
       (EntryDetail.run EntryDetail.init
          [EntryDetail.Press EntryDetail.ImprovedExample "J'ai fini le projet"])
     = 1
  /\ EntryDetail.inflight (EntryDetail.run EntryDetail.init Examples.two_presses)
     = 2
  /\ EntryDetail.inflight
       (EntryDetail.run EntryDetail.init Examples.press_reopen_press)
     = 2.
Proof. repeat split. Qed.

(* ================================================================== *)
(** * Further properties *)
(* ================================================================== *)

(** ** The recorder: elapsed time, invariants, release *)

Section Recorder_more.

Import AudioRecorder.

Lemma digits_no_colon (d : Decimal.uint) :
  occurs ":" (NilEmpty.string_of_uint d) = false.
Proof. induction d; cbn; auto. Qed.

Lemma repeat_zero_no_colon k : occurs ":" (repeat_char "0" k) = false.
Proof. induction k; cbn; auto. Qed.

Lemma occurs_app c s1 s2 :
  occurs c (s1 ++ s2) = occurs c s1 || occurs c s2.
Proof.
  induction s1 as [|a s1 IH]; cbn [append occurs]; [reflexivity|].
  now rewrite IH, orb_assoc.
Qed.

Lemma padded_no_colon n : occurs ":" (padStart 2 "0" (nat_toString n)) = false.
Proof.
  unfold padStart, nat_toString.
  now rewrite occurs_app, repeat_zero_no_colon, digits_no_colon.
Qed.

Lemma append_empty (s : string) : (s ++ "")%string = s.
Proof. induction s as [|c s IH]; cbn; [reflexivity | now rewrite IH]. Qed.

Lemma split_formatTime n :
  split ":" (formatTime n)
  = [nat_toString (n / 60); padStart 2 "0" (nat_toString (n mod 60))].
Proof.
  unfold formatTime. cbv zeta.
  rewrite split_app by apply digits_no_colon.
  cbn [append split Ascii.eqb Bool.eqb].
  now rewrite append_empty, split_absent by apply padded_no_colon.
Qed.

Lemma nat_toString_injective a b : nat_toString a = nat_toString b -> a = b.
Proof.
  unfold nat_toString. intros H.
  apply (f_equal NilEmpty.uint_of_string) in H.
  rewrite !NilEmpty.usu in H. injection H as H.
  apply (f_equal Nat.of_uint) in H.
  now rewrite !Unsigned.of_to in H.
Qed.

(** Reading a number ignores the zeros [padStart] puts in front. *)
Lemma read_padded k n :
  option_map Nat.of_uint
    (NilEmpty.uint_of_string (repeat_char "0" k ++ nat_toString n))
  = Some n.
Proof.
  induction k as [|k IH].
  - cbn [repeat_char append]. unfold nat_toString.
    rewrite NilEmpty.usu. cbn [option_map]. now rewrite Unsigned.of_to.
  - cbn [repeat_char append NilEmpty.uint_of_string].
    destruct (NilEmpty.uint_of_string (repeat_char "0" k ++ nat_toString n))
      as [d|]; [|discriminate].
    cbn in IH |- *. exact IH.
Qed.

Lemma padded_injective a b :
  padStart 2 "0" (nat_toString a) = padStart 2 "0" (nat_toString b) -> a = b.
Proof.
  unfold padStart. intros H.
  apply (f_equal (fun s => option_map Nat.of_uint (NilEmpty.uint_of_string s))) in H.
  rewrite !read_padded in H. now injection H.
Qed.

Lemma seconds_two_digits n :
  n < 60 -> String.length (padStart 2 "0" (nat_toString n)) = 2.
Proof.
  intros Hn.
  assert (Hall : forallb two_digits (seq 0 60) = true) by (vm_compute; reflexivity).
  rewrite forallb_forall in Hall.
  apply Nat.eqb_eq. apply (Hall n). apply in_seq. lia.
Qed.

End Recorder_more.

(** X1.  [formatTime] writes the minutes, a colon and the seconds on exactly
    two characters, and two durations that differ are displayed
    differently. *)
Theorem formatTime_reads_back (a b : nat) :
  (exists seconds,
     AudioRecorder.formatTime a
     = (nat_toString (a / 60) ++ ":" ++ seconds)%string
     /\ String.length seconds = 2)
  /\ (AudioRecorder.formatTime a = AudioRecorder.formatTime b -> a = b).
Proof.
  split.
  - exists (padStart 2 "0" (nat_toString (a mod 60))). split; [reflexivity|].
    apply seconds_two_digits. apply Nat.mod_upper_bound. discriminate.
  - intros H.
    apply (f_equal (split ":")) in H. rewrite !split_formatTime in H.
    injection H as Hm Hs.
    assert (Hd : a / 60 = b / 60) by (apply nat_toString_injective; exact Hm).
    assert (Hr : a mod 60 = b mod 60) by (apply padded_injective; exact Hs).
    transitivity (60 * (a / 60) + a mod 60); [apply Nat.div_mod_eq|].
    rewrite Hd, Hr. symmetry. apply Nat.div_mod_eq.
Qed.

Lemma formatTime_reads_back_witness :
  AudioRecorder.formatTime 125 = "2:05"
  /\ AudioRecorder.formatTime 125 = AudioRecorder.formatTime (2 * 60 + 5)
  /\ 125 = 2 * 60 + 5.
Proof.
  split; [reflexivity|]. split; [reflexivity|].
  exact (proj2 (formatTime_reads_back 125 (2 * 60 + 5)) eq_refl).
Defined.

(** Reduces the projections of an explicit state of the recorder. *)
Ltac fields :=
  cbn [AudioRecorder.isRecording AudioRecorder.duration
       AudioRecorder.mediaRecorder AudioRecorder.chunks
       AudioRecorder.timerActive AudioRecorder.audioContext
       AudioRecorder.pending AudioRecorder.live AudioRecorder.recording
       AudioRecorder.stopping AudioRecorder.leakedTimers
       AudioRecorder.completed AudioRecorder.alerts AudioRecorder.console].

Section Recorder_runs.

Import AudioRecorder.

(** Settles the goals about a state after a step, by cases on the tests the
    step makes. *)
Ltac by_cases :=
  cbn;
  repeat (match goal with
          | |- context [if ?b then _ else _] => destruct b eqn:?
          | |- context [match ?o with Some _ => _ | None => _ end] =>
              destruct o eqn:?
          end; cbn);
  try (split; first [assumption | constructor]).

Lemma chunk_invariants_step (st : State) (ev : event) :
  Forall (fun b => 0 < blob_size b) (chunks st) ->
  Forall (fun b => blob_type b = "audio/webm") (completed st) ->
  Forall (fun b => 0 < blob_size b) (chunks (step st ev))
  /\ Forall (fun b => blob_type b = "audio/webm") (completed (step st ev)).
Proof.
  intros Hc Hd.
  destruct st as [isRec dur mr ch ta ac pe li re sp lt co al cs].
  cbn [chunks completed] in Hc, Hd.
  destruct ev as [|[stream|err]|r data|r|].
  - unfold step, stopRecording. by_cases.
  - unfold step. destruct pe; by_cases.
  - unfold step. destruct pe; by_cases.
  - unfold step, ondataavailable.
    cbn [recording stopping chunks completed isRecording duration mediaRecorder
         timerActive audioContext pending live leakedTimers alerts console].
    destruct (mem r re || mem r sp); [|cbn; auto].
    destruct (0 <? blob_size data) eqn:E; cbn [chunks completed]; [|auto].
    split; [|exact Hd].
    apply Forall_app. split; [exact Hc|].
    constructor; [|constructor]. now apply Nat.ltb_lt.
  - unfold step, onstop, with_stopping, stopVisualizer.
    cbn [recording stopping chunks completed isRecording duration mediaRecorder
         timerActive audioContext pending live leakedTimers alerts console].
    destruct (mem r sp); cbn [chunks completed]; [|auto].
    split; [exact Hc|].
    apply Forall_app. split; [exact Hd|].
    constructor; [reflexivity | constructor].
  - unfold step, tick. by_cases.
Qed.

(** Between the events of a session on [s], the state changes in its
    chunks and in its duration only. *)
Lemma deliver_fold (s : nat) (evs : list session_event) : forall st,
  mem s (recording st) || mem s (stopping st) = true ->
  run st (map (deliver s) evs)
  = mkState (isRecording st)
      (duration st
       + if timerActive st || (0 <? leakedTimers st) then seconds_of evs else 0)
      (mediaRecorder st) (chunks st ++ kept (chunks_of evs)) (timerActive st)
      (audioContext st) (pending st) (live st) (recording st) (stopping st)
      (leakedTimers st) (completed st) (alerts st) (console st).
Proof.
  induction evs as [|e evs IH]; intros st Hmem.
  - destruct st. cbn [run fold_left map seconds_of chunks_of kept filter].
    cbn. rewrite app_nil_r.
    match goal with |- context [if ?b then 0 else 0] => destruct b end;
      now rewrite Nat.add_0_r.
  - cbn [map run fold_left]. fold (run (step st (deliver s e)) (map (deliver s) evs)).
    destruct e as [data|]; cbn [deliver step].
    + rewrite Hmem. unfold ondataavailable.
      cbn [chunks_of seconds_of kept filter].
      destruct (0 <? blob_size data) eqn:E.
      * rewrite IH by (fields; exact Hmem). fields.
        now rewrite <- app_assoc.
      * now rewrite IH by exact Hmem.
    + cbn [chunks_of seconds_of].
      destruct (timerActive st || (0 <? leakedTimers st)) eqn:E.
      * rewrite IH by (unfold tick; fields; exact Hmem).
        unfold tick. fields.
        rewrite E. f_equal. lia.
      * rewrite IH by exact Hmem. now rewrite E.
Qed.

End Recorder_runs.

(** X2.  In every state the recorder reaches, whatever the order of the
    events, no empty chunk is held and every blob handed to
    [onRecordingComplete] has the type [audio/webm]. *)
Theorem recorder_chunk_invariants (evs : list AudioRecorder.event) :
  Forall (fun b => 0 < blob_size b)
         (AudioRecorder.chunks (AudioRecorder.run AudioRecorder.init evs))
  /\ Forall (fun b => blob_type b = "audio/webm")
            (AudioRecorder.completed (AudioRecorder.run AudioRecorder.init evs)).
Proof.
  unfold AudioRecorder.run.
  assert (H : forall st,
    Forall (fun b => 0 < blob_size b) (AudioRecorder.chunks st) ->
    Forall (fun b => blob_type b = "audio/webm") (AudioRecorder.completed st) ->
    Forall (fun b => 0 < blob_size b)
           (AudioRecorder.chunks (fold_left AudioRecorder.step evs st))
    /\ Forall (fun b => blob_type b = "audio/webm")
              (AudioRecorder.completed (fold_left AudioRecorder.step evs st))).
  { induction evs as [|ev evs IH]; intros st Hc Hd; [now split|].
    cbn [fold_left].
    destruct (chunk_invariants_step st ev Hc Hd) as [Hc' Hd'].
    now apply IH. }
  apply H; constructor.
Qed.

Section Recorder_session.

Import AudioRecorder.

(** The state in which a session leaves a component that was idle, its
    timer at rest. *)
Lemma session_final (st : State) (s : nat) (during after : list session_event) :
  idle st -> timerActive st = false -> leakedTimers st = 0 ->
  run st (session s during after)
  = mkState false (seconds_of during) (Some s)
      (kept (chunks_of during) ++ kept (chunks_of after)) false false 0 [] [] []
      0
      (completed st
       ++ [new_Blob (kept (chunks_of during) ++ kept (chunks_of after)) "audio/webm"])
      (alerts st) (console st).
Proof.
  intros Hidle Hta Hlt.
  destruct st as [isRec dur mr ch ta ac pe li re sp lt co al cs].
  unfold idle in Hidle. cbn in Hidle, Hta, Hlt.
  destruct Hidle as (-> & -> & -> & -> & ->). subst ta lt.
  unfold session, run.
  cbn [fold_left]. rewrite fold_left_app. cbn [fold_left]. rewrite fold_left_app.
  cbn [fold_left].
  (* the acquisition *)
  assert (E1 : step (step (mkState false dur mr ch false ac 0 [] [] [] 0 co al cs)
                       Click) (Acquired (Ok s))
               = mkState true 0 (Some s) [] true true 0 [s] [s] [] 0 co al cs)
    by reflexivity.
  rewrite E1. clear E1.
  (* the chunks and the seconds of the recording *)
  pose proof (deliver_fold s during
                (mkState true 0 (Some s) [] true true 0 [s] [s] [] 0 co al cs))
    as E2.
  unfold run in E2. rewrite E2 by (fields; now rewrite mem_head). clear E2.
  fields. cbn [orb Nat.add app].
  (* the button stops the recorder *)
  assert (E3 : step (mkState true (seconds_of during) (Some s)
                       (kept (chunks_of during)) true true 0 [s] [s] [] 0 co al cs)
                    Click
               = mkState false (seconds_of during) (Some s)
                   (kept (chunks_of during)) false true 0 [s] [] [s] 0 co al cs).
  { cbn [step isRecording]. unfold stopRecording. fields.
    now rewrite without_self, mem_single, Nat.eqb_refl. }
  rewrite E3. clear E3.
  (* the last chunks; the timer is cleared *)
  pose proof (deliver_fold s after
                (mkState false (seconds_of during) (Some s)
                   (kept (chunks_of during)) false true 0 [s] [] [s] 0 co al cs))
    as E4.
  unfold run in E4.
  rewrite E4 by (fields; rewrite mem_head; apply orb_true_r). clear E4.
  fields. cbn [orb Nat.ltb Nat.leb]. rewrite Nat.add_0_r.
  (* the stop event *)
  cbn [step stopping]. rewrite mem_head.
  unfold onstop, with_stopping, stopVisualizer. fields.
  now rewrite !without_self.
Qed.

End Recorder_session.

(** X3.  A session on a component that is idle, its timer at rest, ends
    with the component idle again: the stream of the session is stopped, no
    recorder is left active, the timer and the visualizer are off. *)
Theorem session_releases_microphone (st : AudioRecorder.State) (stream : nat)
    (during after : list AudioRecorder.session_event) :
  AudioRecorder.idle st ->
  AudioRecorder.timerActive st = false ->
  AudioRecorder.leakedTimers st = 0 ->
  let final := AudioRecorder.run st (AudioRecorder.session stream during after) in
  AudioRecorder.idle final
  /\ AudioRecorder.timerActive final = false
  /\ AudioRecorder.leakedTimers final = 0
  /\ AudioRecorder.audioContext final = false.
Proof.
  intros Hidle Hta Hlt final. unfold final.
  rewrite (session_final st stream during after Hidle Hta Hlt).
  unfold AudioRecorder.idle. cbn. repeat split.
Qed.

Lemma session_releases_microphone_witness :
  AudioRecorder.idle AudioRecorder.init
  /\ AudioRecorder.live
       (AudioRecorder.run AudioRecorder.init
          (AudioRecorder.session 1 [AudioRecorder.Chunk Examples.first_chunk]
             [AudioRecorder.Chunk Examples.last_chunk]))
     = [].
Proof.
  assert (H : AudioRecorder.idle AudioRecorder.init) by (repeat split).
  split; [exact H|].
  destruct (session_releases_microphone AudioRecorder.init 1
              [AudioRecorder.Chunk Examples.first_chunk]
              [AudioRecorder.Chunk Examples.last_chunk] H eq_refl eq_refl)
    as [(_ & _ & Hlive & _) _].
  exact Hlive.
Defined.

(** X4.  The duration shown at the end of such a session is the number of
    seconds that the timer counted while recording: the count starts at
    zero, and the ticks after the button stops the recording add nothing. *)
Theorem session_duration_counts_seconds (st : AudioRecorder.State) (stream : nat)
    (during after : list AudioRecorder.session_event) :
  AudioRecorder.idle st ->
  AudioRecorder.timerActive st = false ->
  AudioRecorder.leakedTimers st = 0 ->
  AudioRecorder.duration
    (AudioRecorder.run st (AudioRecorder.session stream during after))
  = AudioRecorder.seconds_of during.
Proof.
  intros Hidle Hta Hlt.
  now rewrite (session_final st stream during after Hidle Hta Hlt).
Qed.

Lemma session_duration_counts_seconds_witness :
  AudioRecorder.idle AudioRecorder.init
  /\ AudioRecorder.formatTime
       (AudioRecorder.duration
          (AudioRecorder.run AudioRecorder.init
             (AudioRecorder.session 1
                [ AudioRecorder.Second; AudioRecorder.Chunk Examples.first_chunk;
                  AudioRecorder.Second ]
                [ AudioRecorder.Second; AudioRecorder.Chunk Examples.last_chunk ])))
     = "0:02".
Proof.
  assert (H : AudioRecorder.idle AudioRecorder.init) by (repeat split).
  split; [exact H|].
  now rewrite (session_duration_counts_seconds AudioRecorder.init 1
                 [ AudioRecorder.Second; AudioRecorder.Chunk Examples.first_chunk;
                   AudioRecorder.Second ]
                 [ AudioRecorder.Second; AudioRecorder.Chunk Examples.last_chunk ]
                 H eq_refl eq_refl).
Defined.

(** ** The service: decoding and playback *)

Lemma decode_outcome (base64 : string) :
  decode base64
  = match Base64.forgiving_decode (list_ascii_of_string base64) with
    | Some bytes => Ok (mkUint8Array bytes 0 (List.length bytes))
    | None => Err (DOMException "InvalidCharacterError")
    end.
Proof.
  unfold decode, Base64.atob.
  destruct (Base64.forgiving_decode (list_ascii_of_string base64)) as [bs|];
    [|reflexivity].
  cbn [bind]. rewrite string_length_of_list, length_map.
  exact (decode_loop bs bs [] eq_refl).
Qed.

(** X5.  Whatever text [decode] is given, it either fails with
    [InvalidCharacterError] or returns an array that covers the whole of its
    buffer, from offset 0, and holds the bytes the text encodes: the
    [data.buffer] that [decodeAudioData] reads is the decoded data. *)
Theorem decode_covers_its_buffer (base64 : string) :
  match decode base64 with
  | Ok data =>
      u8_byteOffset data = 0
      /\ u8_length data = List.length (u8_buffer data)
      /\ Base64.forgiving_decode (list_ascii_of_string base64)
         = Some (u8_buffer data)
  | Err e => e = DOMException "InvalidCharacterError"
  end.
Proof.
  rewrite decode_outcome.
  destruct (Base64.forgiving_decode (list_ascii_of_string base64)) as [bs|];
    cbn; auto.
Qed.

Lemma encode_nonempty (b : byte) (bytes : list byte) :
  string_of_list_ascii (Base64.encode (b :: bytes)) <> "".
Proof.
  intros E.
  apply (f_equal list_ascii_of_string) in E.
  rewrite list_ascii_of_string_of_list_ascii in E.
  destruct bytes as [|b2 [|b3 bytes]]; discriminate.
Qed.

(** X6.  When the remote service returns speech of [frames] 16-bit samples
    (at least one), [playEloquenceTTS] hands to the playback a mono buffer of
    24000 Hz with [frames] samples, the sample at [i] being the little-endian
    16-bit integer of the bytes [2i] and [2i+1] divided by 32768. *)
Theorem playEloquenceTTS_plays_the_samples (generateContent : Remote)
    (text : string) (response : GenerateContentResponse) (bytes : list byte)
    (frames : nat) :
  generateContent (ttsRequest text) = Ok response ->
  inlineAudio response = Some (string_of_list_ascii (Base64.encode bytes)) ->
  List.length bytes = 2 * frames ->
  1 <= frames -> (Z.of_nat frames < 4294967296)%Z ->
  exists samples,
    playEloquenceTTS generateContent webAudio text
    = Ok (mkAudioBuffer 24000 [samples])
    /\ List.length samples = frames
    /\ forall i, i < frames ->
        exists lo hi,
          nth_error bytes (2 * i) = Some lo
          /\ nth_error bytes (2 * i + 1) = Some hi
          /\ nth_error samples i = Some (Fin (int16_le lo hi # 32768)).
Proof.
  intros Hresp Haudio Hlen Hframes H32.
  assert (Hhalf : List.length bytes / 2 = frames)
    by (rewrite Hlen, Nat.mul_comm; apply Nat.div_mul; discriminate).
  exists (decoded_channel (mkInt16Array bytes) 1 frames 0).
  split; [|split].
  - unfold playEloquenceTTS. rewrite Hresp. cbn [bind]. rewrite Haudio.
    destruct bytes as [|b bytes]; [cbn in Hlen; lia|].
    destruct (string_of_list_ascii (Base64.encode (b :: bytes))) eqn:E;
      [now apply encode_nonempty in E|].
    rewrite <- E, decode_encode. cbn [bind].
    rewrite (decodeAudioData_channels
               (mkUint8Array (b :: bytes) 0 (List.length (b :: bytes))) webAudio
               24000 1
               (mkAudioBuffer 24000 (repeat (repeat (Fin 0) frames) 1))).
    + cbn [u8_buffer ab_sampleRate]. rewrite Hhalf, Nat.div_1_r. reflexivity.
    + cbn [u8_buffer]. rewrite Hlen. apply Nat.even_spec. now exists frames.
    + apply Nat.mod_1_r.
    + cbn [u8_buffer]. rewrite Hhalf.
      replace frames with (1 * frames) at 1 by lia.
      apply webAudio_allocates; lia.
    + reflexivity.
    + cbn [u8_buffer ab_channels repeat]. rewrite Hhalf, Nat.div_1_r.
      constructor; [apply repeat_length | constructor].
  - unfold decoded_channel. now rewrite length_map, length_seq.
  - intros i Hi.
    assert (Hk : 2 * i + 1 < List.length bytes) by lia.
    destruct (Int16Array_get_in_range bytes i Hk) as (lo & hi & Hlo & Hhi & Hget).
    exists lo, hi. repeat split; auto.
    unfold decoded_channel. rewrite nth_error_map, nth_error_seq.
    apply Nat.ltb_lt in Hi. rewrite Hi. cbn [option_map Nat.add].
    replace (i * 1 + 0) with i by lia. now rewrite Hget.
Qed.

Lemma playEloquenceTTS_plays_the_samples_witness :
  List.length Examples.pcm_bytes = 2 * 4
  /\ exists samples,
       playEloquenceTTS (fun _ => Ok Examples.speech) webAudio "J'ai fini le projet"
       = Ok (mkAudioBuffer 24000 [samples])
       /\ List.length samples = 4.
Proof.
  split; [reflexivity|].
  destruct (playEloquenceTTS_plays_the_samples (fun _ => Ok Examples.speech)
              "J'ai fini le projet" Examples.speech Examples.pcm_bytes 4
              eq_refl eq_refl eq_refl) as (samples & Hplay & Hlen & _).
  - lia.
  - reflexivity.
  - exists samples. split; assumption.
Defined.

(** X7.  Speech of an odd number of bytes is not played:
    [playEloquenceTTS] rejects with the [RangeError] of the [Int16Array]
    constructor, whatever the audio context. *)
Theorem playEloquenceTTS_rejects_odd_speech (generateContent : Remote)
    (ctx : AudioContext) (text : string) (bytes : list byte)
    (response : GenerateContentResponse) :
  generateContent (ttsRequest text) = Ok response ->
  inlineAudio response = Some (string_of_list_ascii (Base64.encode bytes)) ->
  Nat.odd (List.length bytes) = true ->
  playEloquenceTTS generateContent ctx text = Err RangeError.
Proof.
  intros Hresp Haudio Hodd.
  unfold playEloquenceTTS. rewrite Hresp. cbn [bind]. rewrite Haudio.
  destruct bytes as [|b bytes]; [discriminate|].
  destruct (string_of_list_ascii (Base64.encode (b :: bytes))) eqn:E;
    [now apply encode_nonempty in E|].
  rewrite <- E, decode_encode. cbn [bind].
  now apply decodeAudioData_odd.
Qed.

Lemma playEloquenceTTS_rejects_odd_speech_witness :
  Nat.odd (List.length [x01; x00; xff]) = true
  /\ playEloquenceTTS
       (fun _ => Ok (mkResponse None
                       (Some (string_of_list_ascii (Base64.encode [x01; x00; xff])))))
       webAudio "Bonjour"
     = Err RangeError.
Proof.
  split; [reflexivity|].
  exact (playEloquenceTTS_rejects_odd_speech
           (fun _ => Ok (mkResponse None
                           (Some (string_of_list_ascii
                                    (Base64.encode [x01; x00; xff])))))
           webAudio "Bonjour" [x01; x00; xff]
           (mkResponse None
              (Some (string_of_list_ascii (Base64.encode [x01; x00; xff]))))
           eq_refl eq_refl eq_refl).
Defined.

(** ** The service: a complete response *)

Lemma lookup_is_json (k : string) (props : list (string * jsval)) (v : jsval) :
  is_json (VObj props) = true -> lookup k props = Some v -> is_json v = true.
Proof.
  induction props as [|[k' x] props IH]; [discriminate|].
  intros Hjson Hlook.
  change (is_json (VObj ((k', x) :: props)))
    with (is_json x && is_json (VObj props)) in Hjson.
  apply andb_prop in Hjson. destruct Hjson as [Hx Hrest].
  cbn [lookup] in Hlook.
  destruct (String.eqb k k'); [now injection Hlook as <- | now apply IH].
Qed.

Lemma filter_nil_all_false (A : Type) (f : A -> bool) (l : list A) (x : A) :
  filter f l = [] -> In x l -> f x = false.
Proof.
  induction l as [|y l IH]; [contradiction|].
  cbn [filter]. destruct (f y) eqn:E; [discriminate|].
  intros Hnil [<- | Hin]; [exact E | now apply IH].
Qed.

(** A payload without missing fields has each required property. *)
Lemma complete_has_required (props : list (string * jsval)) (k : string) :
  missing analysisSchema (VObj props) = [] ->
  In k ("transcription" :: analysis_keys) ->
  exists v, lookup k props = Some v.
Proof.
  intros Hmiss Hk.
  unfold analysisSchema in Hmiss. cbn [missing] in Hmiss.
  apply app_eq_nil in Hmiss. destruct Hmiss as [Hreq _].
  assert (Hin : In k ["transcription"; "summary"; "mood"; "tags"; "metrics";
                      "deepAnalysis"; "suggestions"; "eloquenceTip"]).
  { unfold analysis_keys in Hk. cbn [In] in Hk |- *. tauto. }
  pose proof (filter_nil_all_false _ _ _ k Hreq Hin) as Hf.
  cbv beta in Hf.
  destruct (lookup k props) as [v|]; [now exists v | discriminate].
Qed.

(** X8.  For a response that parses to a JSON object with no required field
    missing, the result of [processAudioEntry] holds no [undefined]: the
    transcription and the analysis are JSON values, so that serializing the
    analysis reads back the same value. *)
Theorem processAudioEntry_complete_response
    (parse : string -> result jsval) (generateContent : Remote)
    (audioBase64 : jsval) (mimeType : string)
    (response : GenerateContentResponse) (resultText : string)
    (props : list (string * jsval)) :
  generateContent (analysisRequest audioBase64 mimeType) = Ok response ->
  text response = Some resultText ->
  resultText <> "" ->
  parse resultText = Ok (VObj props) ->
  is_json (VObj props) = true ->
  missing analysisSchema (VObj props) = [] ->
  exists r,
    processAudioEntry parse generateContent audioBase64 mimeType = Ok r
    /\ is_json (transcription r) = true
    /\ is_json (analysis r) = true
    /\ read_back (analysis r) = analysis r
    /\ (forall k, In k analysis_keys -> field k (analysis r) <> VUndef).
Proof.
  intros Hresp Htext Hne Hparse Hjson Hmiss.
  assert (Hfield : forall k, In k ("transcription" :: analysis_keys) ->
            is_json (field k (VObj props)) = true).
  { intros k Hk. destruct (complete_has_required props k Hmiss Hk) as [v Hv].
    cbn [field]. rewrite Hv. now apply (lookup_is_json k props). }
  assert (Hr : processAudioEntry parse generateContent audioBase64 mimeType
               = Ok (mkEntryAnalysis (field "transcription" (VObj props))
                       (VObj [ ("summary", field "summary" (VObj props));
                               ("mood", field "mood" (VObj props));
                               ("tags", field "tags" (VObj props));
                               ("metrics", field "metrics" (VObj props));
                               ("deepAnalysis", field "deepAnalysis" (VObj props));
                               ("suggestions", field "suggestions" (VObj props));
                               ("eloquenceTip", field "eloquenceTip" (VObj props)) ]))).
  { unfold processAudioEntry. rewrite Hresp. cbn [bind]. rewrite Htext.
    destruct resultText as [|c t]; [congruence|].
    rewrite Hparse. cbn [bind]. now rewrite !get_object. }
  assert (Hanalysis : is_json
            (VObj [ ("summary", field "summary" (VObj props));
                    ("mood", field "mood" (VObj props));
                    ("tags", field "tags" (VObj props));
                    ("metrics", field "metrics" (VObj props));
                    ("deepAnalysis", field "deepAnalysis" (VObj props));
                    ("suggestions", field "suggestions" (VObj props));
                    ("eloquenceTip", field "eloquenceTip" (VObj props)) ]) = true).
  { cbn [is_json].
    rewrite !Hfield by (unfold analysis_keys; cbn [In]; tauto). reflexivity. }
  eexists. split; [exact Hr|]. cbn [transcription analysis].
  split; [apply Hfield; now left|].
  split; [exact Hanalysis|].
  split; [now apply read_back_is_json|].
  intros k Hk Hundef.
  assert (Hj : is_json (field k (VObj props)) = true) by (apply Hfield; now right).
  unfold analysis_keys in Hk. cbn [In] in Hk.
  repeat (destruct Hk as [<- | Hk];
          [cbn [field lookup String.eqb Ascii.eqb Bool.eqb] in Hundef;
           cbn [field] in Hj; rewrite Hundef in Hj; discriminate|]).
  contradiction.
Qed.

Lemma processAudioEntry_complete_response_witness :
  JSON_parse Examples.payload_complete = Ok (VObj Examples.props_complete)
  /\ is_json (VObj Examples.props_complete) = true
  /\ missing analysisSchema (VObj Examples.props_complete) = []
  /\ exists r,
       processAudioEntry JSON_parse (Examples.answering Examples.payload_complete)
         (VStr "GkXfow==") "audio/webm" = Ok r
       /\ is_json (analysis r) = true.
Proof.
  assert (Hp : JSON_parse Examples.payload_complete
               = Ok (VObj Examples.props_complete)) by (vm_compute; reflexivity).
  split; [exact Hp|]. split; [reflexivity|]. split; [reflexivity|].
  destruct (processAudioEntry_complete_response JSON_parse
              (Examples.answering Examples.payload_complete)
              (VStr "GkXfow==") "audio/webm"
              (mkResponse (Some Examples.payload_complete) None)
              Examples.payload_complete Examples.props_complete
              eq_refl eq_refl) as (r & Hr & _ & Hj & _).
  - discriminate.
  - exact Hp.
  - reflexivity.
  - reflexivity.
  - exists r. split; assumption.
Defined.

(** ** The pipeline: encoding, success, persistence *)

(** X9.  [blobToBase64] resolves to the text between the first and the
    second comma of what the reader produced, and to [undefined], without
    failing, when that text holds no comma. *)
Theorem blobToBase64_second_segment (reader : Blob -> result string)
    (blob : Blob) (text : string) :
  reader blob = Ok text ->
  (occurs "," text = false -> App.blobToBase64 reader blob = Ok VUndef)
  /\ (forall p q, text = (p ++ String "," q)%string -> occurs "," p = false ->
      exists segment rest,
        split "," q = segment :: rest
        /\ App.blobToBase64 reader blob = Ok (VStr segment)).
Proof.
  intros Hread. unfold App.blobToBase64. rewrite Hread. cbn [bind]. split.
  - intros Hno. now rewrite split_absent.
  - intros p q -> Hp.
    rewrite split_app by exact Hp.
    cbn [split]. rewrite Ascii.eqb_refl.
    destruct (split "," q) as [|segment rest] eqn:E;
      [now apply split_nonempty in E|].
    exists segment, rest. split; reflexivity.
Qed.

Lemma blobToBase64_second_segment_witness :
  (fun _ : Blob => Ok "data:") Examples.no_chunk = Ok "data:"
  /\ occurs "," "data:" = false
  /\ App.blobToBase64 (fun _ => Ok "data:") Examples.no_chunk = Ok VUndef.
Proof.
  split; [reflexivity|]. split; [reflexivity|].
  exact (proj1 (blobToBase64_second_segment (fun _ => Ok "data:")
                  Examples.no_chunk "data:" eq_refl) eq_refl).
Defined.

Lemma processAudioEntry_object
    (parse : string -> result jsval) (generateContent : Remote)
    (audioBase64 : jsval) (mimeType : string)
    (response : GenerateContentResponse) (resultText : string)
    (props : list (string * jsval)) :
  generateContent (analysisRequest audioBase64 mimeType) = Ok response ->
  text response = Some resultText ->
  resultText <> "" ->
  parse resultText = Ok (VObj props) ->
  processAudioEntry parse generateContent audioBase64 mimeType
  = Ok (mkEntryAnalysis (field "transcription" (VObj props))
          (VObj [ ("summary", field "summary" (VObj props));
                  ("mood", field "mood" (VObj props));
                  ("tags", field "tags" (VObj props));
                  ("metrics", field "metrics" (VObj props));
                  ("deepAnalysis", field "deepAnalysis" (VObj props));
                  ("suggestions", field "suggestions" (VObj props));
                  ("eloquenceTip", field "eloquenceTip" (VObj props)) ])).
Proof.
  intros Hresp Htext Hne Hparse.
  unfold processAudioEntry. rewrite Hresp. cbn [bind]. rewrite Htext.
  destruct resultText as [|c t]; [congruence|].
  rewrite Hparse. cbn [bind]. now rewrite !get_object.
Qed.

(** The entry that the pipeline builds from a payload. *)
Lemma analyse_success (env : App.Env) (audioBlob : Blob)
    (response : GenerateContentResponse) (resultText : string)
    (props : list (string * jsval)) :
  App.fileReader env audioBlob = App.readAsDataURL audioBlob ->
  occurs "," (blob_type audioBlob) = false ->
  App.generateContent env
    (analysisRequest
       (VStr (string_of_list_ascii (Base64.encode (blob_bytes audioBlob))))
       (if String.eqb (blob_type audioBlob) "" then "audio/webm"
        else blob_type audioBlob))
  = Ok response ->
  text response = Some resultText ->
  resultText <> "" ->
  App.parseJSON env resultText = Ok (VObj props) ->
  App.analyse env audioBlob
  = Ok (VObj [ ("id", VStr (App.now env));
               ("date", VStr (App.isoDate env));
               ("transcription", field "transcription" (VObj props));
               ("analysis",
                 VObj [ ("summary", field "summary" (VObj props));
                        ("mood", field "mood" (VObj props));
                        ("tags", field "tags" (VObj props));
                        ("metrics", field "metrics" (VObj props));
                        ("deepAnalysis", field "deepAnalysis" (VObj props));
                        ("suggestions", field "suggestions" (VObj props));
                        ("eloquenceTip", field "eloquenceTip" (VObj props)) ]);
               ("audioUrl", VStr (App.objectURL env));
               ("isProcessing", VBool false) ]).
Proof.
  intros Hreader Htype Hresp Htext Hne Hparse.
  rewrite analyse_unfold.
  unfold App.blobToBase64. rewrite Hreader. unfold App.readAsDataURL.
  cbn [bind]. rewrite split_data_url by exact Htype. cbn [bind].
  rewrite (processAudioEntry_object (App.parseJSON env) (App.generateContent env)
             _ _ response resultText props Hresp Htext Hne Hparse).
  reflexivity.
Qed.

(** X10.  The successful pipeline.  With the reader of the host, a recording
    whose type holds no comma is submitted as the base64 text of its bytes
    under its type ([audio/webm] when the type is empty); when the remote
    service answers that request with a text that parses to an object,
    [handleRecordingComplete] puts one entry in front of the entries, built
    of the clock, the object URL and the payload's fields, selects it and
    opens the detail view, the alerts untouched. *)
Theorem handleRecordingComplete_success (env : App.Env) (audioBlob : Blob)
    (st : App.State) (response : GenerateContentResponse) (resultText : string)
    (props : list (string * jsval)) :
  let mimeType := if String.eqb (blob_type audioBlob) "" then "audio/webm"
                  else blob_type audioBlob in
  let base64Audio := string_of_list_ascii (Base64.encode (blob_bytes audioBlob)) in
  let newEntry :=
    VObj [ ("id", VStr (App.now env));
           ("date", VStr (App.isoDate env));
           ("transcription", field "transcription" (VObj props));
           ("analysis",
             VObj [ ("summary", field "summary" (VObj props));
                    ("mood", field "mood" (VObj props));
                    ("tags", field "tags" (VObj props));
                    ("metrics", field "metrics" (VObj props));
                    ("deepAnalysis", field "deepAnalysis" (VObj props));
                    ("suggestions", field "suggestions" (VObj props));
                    ("eloquenceTip", field "eloquenceTip" (VObj props)) ]);
           ("audioUrl", VStr (App.objectURL env));
           ("isProcessing", VBool false) ] in
  App.fileReader env audioBlob = App.readAsDataURL audioBlob ->
  occurs "," (blob_type audioBlob) = false ->
  App.generateContent env (analysisRequest (VStr base64Audio) mimeType)
  = Ok response ->
  text response = Some resultText ->
  resultText <> "" ->
  App.parseJSON env resultText = Ok (VObj props) ->
  App.handleRecordingComplete env audioBlob st
  = App.mkState App.DETAILS (newEntry :: App.entries st) (Some newEntry) false
      (App.alerts st) (App.console st).
Proof.
  intros mimeType base64Audio newEntry Hreader Htype Hresp Htext Hne Hparse.
  unfold App.handleRecordingComplete.
  now rewrite (analyse_success env audioBlob response resultText props
                 Hreader Htype Hresp Htext Hne Hparse).
Qed.

Lemma handleRecordingComplete_success_witness :
  App.generateContent Examples.careless_env
    (analysisRequest (VStr "GkXfow==") "audio/webm")
  = Ok (mkResponse (Some Examples.payload_without_metrics) None)
  /\ App.view (App.handleRecordingComplete Examples.careless_env
                 Examples.recording Examples.earlier_state)
     = App.DETAILS
  /\ List.length
       (App.entries (App.handleRecordingComplete Examples.careless_env
                       Examples.recording Examples.earlier_state))
     = 2.
Proof.
  split; [reflexivity|].
  rewrite (handleRecordingComplete_success Examples.careless_env
             Examples.recording Examples.earlier_state
             (mkResponse (Some Examples.payload_without_metrics) None)
             Examples.payload_without_metrics
             [ ("transcription", VStr "Bonjour");
               ("summary", VStr "Une salutation.");
               ("mood", VStr "calme");
               ("tags", VArr [VStr "salut"]);
               ("deepAnalysis", VStr "Bref.");
               ("suggestions", VArr []);
               ("eloquenceTip", Examples.tip_value) ]).
  - split; reflexivity.
  - reflexivity.
  - reflexivity.
  - reflexivity.
  - reflexivity.
  - discriminate.
  - vm_compute. reflexivity.
Defined.

Section Save_more.

(** What [JSON.stringify] writes is free of [undefined]. *)
Lemma json_of_gives_json : forall v j, json_of v = Some j -> is_json j = true.
Proof.
  induction v as [| |b|z|s|elems IH|props IH] using jsval_nested_ind;
    cbn [json_of]; intros j Hj; try discriminate;
    try (injection Hj as <-; reflexivity).
  - injection Hj as <-. cbn [is_json].
    induction IH as [|x elems Hx _ IHl]; [reflexivity|].
    cbn [map forallb]. rewrite IHl, andb_true_r.
    destruct (json_of x) as [jx|] eqn:E; [now apply Hx | reflexivity].
  - injection Hj as <-.
    change (is_json (VObj (members props)) = true).
    induction IH as [|[k x] props Hx _ IHl]; [reflexivity|].
    rewrite members_cons. cbn [snd] in Hx.
    destruct (json_of x) as [jx|] eqn:E; [|exact IHl].
    change (is_json (VObj ((k, jx) :: members props)))
      with (is_json jx && is_json (VObj (members props))).
    now rewrite (Hx jx eq_refl), IHl.
Qed.

Lemma members_members props : members (members props) = members props.
Proof.
  assert (H : is_json (VObj (members props)) = true)
    by (apply (json_of_gives_json (VObj props)); reflexivity).
  apply json_of_is_json in H. rewrite json_of_object in H.
  now injection H.
Qed.

Lemma filter_members (f : string -> bool) props :
  filter (fun kv => f (fst kv)) (members props)
  = members (filter (fun kv => f (fst kv)) props).
Proof.
  induction props as [|[k x] props IH]; [reflexivity|].
  rewrite members_cons. cbn [filter fst].
  destruct (json_of x) as [j|] eqn:E; destruct (f k) eqn:Ef.
  - cbn [filter fst]. rewrite Ef, members_cons, E. now rewrite IH.
  - cbn [filter fst]. now rewrite Ef.
  - now rewrite members_cons, E.
  - exact IH.
Qed.

Lemma filter_twice (A : Type) (f : A -> bool) (l : list A) :
  filter f (filter f l) = filter f l.
Proof.
  induction l as [|x l IH]; [reflexivity|].
  cbn [filter]. destruct (f x) eqn:E; [|exact IH].
  cbn [filter]. now rewrite E, IH.
Qed.

(** The record written for an entry is what is written for the record. *)
Lemma record_stable props :
  members (filter (fun kv => negb (String.eqb (fst kv) "audioUrl"))
                  (members (filter (fun kv => negb (String.eqb (fst kv) "audioUrl"))
                                   props)))
  = members (filter (fun kv => negb (String.eqb (fst kv) "audioUrl")) props).
Proof.
  rewrite (filter_members (fun k => negb (String.eqb k "audioUrl"))).
  now rewrite filter_twice, members_members.
Qed.

Lemma rest_of_errors (e : jsval) (err : js_error) :
  App.rest_of e = Err err -> err = TypeError.
Proof.
  unfold App.rest_of, App.own_properties.
  destruct e; cbn [bind]; intros H; try discriminate; now injection H.
Qed.

Lemma entriesToSave_errors (entries : list jsval) (err : js_error) :
  App.entriesToSave entries = Err err -> err = TypeError.
Proof.
  unfold App.entriesToSave.
  induction entries as [|e entries IH]; cbn [App.map_result]; [discriminate|].
  destruct (App.rest_of e) as [r|e1] eqn:E1; cbn [bind].
  - destruct (App.map_result App.rest_of entries) as [rs|e2]; cbn [bind];
      [discriminate|].
    intros H. injection H as <-. now apply IH.
  - intros H. injection H as <-. now apply (rest_of_errors e).
Qed.

Lemma entriesToSave_nullish (entries : list jsval) (e : jsval) :
  In e entries -> e = VNull \/ e = VUndef ->
  exists err, App.entriesToSave entries = Err err.
Proof.
  unfold App.entriesToSave.
  induction entries as [|x entries IH]; [contradiction|].
  intros [-> | Hin] He; cbn [App.map_result].
  - destruct He as [-> | ->]; now exists TypeError.
  - destruct (App.rest_of x) as [r|e1]; cbn [bind]; [|now exists e1].
    destruct (IH Hin He) as [err Herr]. rewrite Herr. now exists err.
Qed.

End Save_more.

(** X11.  The value that a run of the save effect hands to [setItem] is a
    fixed point of the effect: for a collection of objects, a run on the
    records that a run wrote hands over the same records. *)
Theorem saved_records_are_stable (entries : list (list (string * jsval)))
    (records : list jsval) :
  App.saved (map VObj entries) = Ok (VArr records) ->
  App.saved records = Ok (VArr records).
Proof.
  rewrite saved_objects. intros H. injection H as <-.
  rewrite <- (map_map _ VObj).
  rewrite saved_objects. rewrite !map_map.
  do 2 f_equal. apply map_ext. intros props. now rewrite record_stable.
Qed.

Lemma saved_records_are_stable_witness :
  exists records,
    App.saved [Examples.entry_with_metrics; Examples.earlier_entry]
    = Ok (VArr records)
    /\ App.saved records = Ok (VArr records).
Proof.
  eexists. split; [vm_compute; reflexivity|].
  apply (saved_records_are_stable
           [ [ ("id", VStr "1730000000003");
               ("date", VStr "2024-10-27T06:00:00.000Z");
               ("transcription", VStr "Bonjour");
               ("analysis",
                 VObj [ ("summary", VStr "Une salutation.");
                        ("mood", VStr "calme");
                        ("tags", VArr [VStr "salut"; VStr "matin"; VStr "jour";
                                       VStr "voix"]);
                        ("metrics", VObj [ ("clarity", VNum 85);
                                           ("assertiveness", VNum 40);
                                           ("vocabularyRichness", VNum 60);
                                           ("pace", VStr "Good") ]);
                        ("deepAnalysis", VStr "Bref.");
                        ("suggestions", VArr []);
                        ("eloquenceTip", Examples.tip_value) ]);
               ("audioUrl", VStr "blob:1");
               ("isProcessing", VBool false) ];
             [ ("id", VStr "1729990000000");
               ("date", VStr "2024-10-27T00:46:40.000Z");
               ("transcription", VStr "Hier");
               ("analysis", VNull);
               ("audioUrl", VStr "blob:0");
               ("isProcessing", VBool false) ] ]).
  vm_compute. reflexivity.
Defined.

(** The collection that a run of the effect hands over, when no entry is
    [null] or [undefined]. *)
Lemma saved_without_nullish (entries : list jsval) :
  (forall e, In e entries -> e <> VNull /\ e <> VUndef) ->
  exists records, App.saved entries = Ok (VArr records).
Proof.
  intros Hall. unfold App.saved, App.entriesToSave.
  assert (H : exists toSave, App.map_result App.rest_of entries = Ok toSave).
  { induction entries as [|e entries IH]; [now exists []|].
    destruct (Hall e (or_introl eq_refl)) as [Hn Hu].
    destruct IH as [toSave Hrest]; [intros x Hx; apply Hall; now right|].
    cbn [App.map_result]. rewrite Hrest.
    unfold App.rest_of, App.own_properties.
    destruct e; try congruence; cbn [bind]; eexists; reflexivity. }
  destruct H as [toSave ->]. cbn [bind json_of]. eexists. reflexivity.
Qed.

(** X12.  A run of the save effect on entries of which one is [null] or
    [undefined] throws a [TypeError] before [setItem] is reached, whatever
    the storage does; on entries of which none is, it fails only as
    [setItem] fails: its outcome is the outcome of [setItem] on the key of
    the entries and the array of their records. *)
Theorem save_effect_throws_on_nullish_entry
    (setItem : string -> jsval -> App.Storage -> result App.Storage)
    (entries : list jsval) (storage : App.Storage) :
  (forall e, In e entries -> e = VNull \/ e = VUndef ->
     App.saveEntries setItem entries storage = Err TypeError)
  /\ ((forall e, In e entries -> e <> VNull /\ e <> VUndef) ->
      exists records,
        App.saved entries = Ok (VArr records)
        /\ App.saveEntries setItem entries storage
           = setItem App.entriesKey (VArr records) storage).
Proof.
  split.
  - intros e Hin He.
    destruct (entriesToSave_nullish entries e Hin He) as [err Herr].
    unfold App.saveEntries, App.saved. rewrite Herr. cbn [bind].
    now rewrite (entriesToSave_errors entries err Herr).
  - intros Hall. destruct (saved_without_nullish entries Hall) as [records Hs].
    exists records. split; [exact Hs|].
    unfold App.saveEntries. now rewrite Hs.
Qed.

Lemma save_effect_throws_on_nullish_entry_witness :
  App.saveEntries Examples.roomy [Examples.earlier_entry; VNull] [] = Err TypeError
  /\ App.saveEntries Examples.full [Examples.earlier_entry; VNull] []
     = Err TypeError
  /\ App.saveEntries Examples.full [Examples.earlier_entry] []
     = Err (DOMException "QuotaExceededError").
Proof.
  split; [|split].
  - apply (proj1 (save_effect_throws_on_nullish_entry Examples.roomy
                    [Examples.earlier_entry; VNull] []) VNull);
      [cbn; tauto | now left].
  - apply (proj1 (save_effect_throws_on_nullish_entry Examples.full
                    [Examples.earlier_entry; VNull] []) VNull);
      [cbn; tauto | now left].
  - destruct (proj2 (save_effect_throws_on_nullish_entry Examples.full
                       [Examples.earlier_entry] []))
      as (records & _ & Hrun).
    + intros e [<- | []]. split; discriminate.
    + rewrite Hrun. reflexivity.
Defined.

(** X13.  A run of the save effect on the entries that a successful analysis
    leaves hands to [setItem] one record more than a run on the entries
    before, in front: the record of the new entry, with its id and without
    [audioUrl]; the records of the earlier entries are the same. *)
Theorem saved_after_recording
    (setItem : string -> jsval -> App.Storage -> result App.Storage)
    (env : App.Env) (audioBlob : Blob)
    (st : App.State) (newEntry : jsval) (records : list jsval) :
  App.analyse env audioBlob = Ok newEntry ->
  App.saved (App.entries st) = Ok (VArr records) ->
  exists record,
    (forall storage,
       App.saveEntries setItem
         (App.entries (App.handleRecordingComplete env audioBlob st)) storage
       = setItem App.entriesKey (VArr (record :: records)) storage)
    /\ field "id" record = VStr (App.now env)
    /\ field "isProcessing" record = VBool false
    /\ field "audioUrl" record = VUndef.
Proof.
  intros Hok Hsaved.
  rewrite handleRecordingComplete_entries, Hok.
  rewrite analyse_unfold in Hok.
  destruct (App.blobToBase64 (App.fileReader env) audioBlob) as [b64|];
    cbn [bind] in Hok; [|discriminate].
  destruct (processAudioEntry (App.parseJSON env) (App.generateContent env) b64
              (if String.eqb (blob_type audioBlob) "" then "audio/webm"
               else blob_type audioBlob)) as [r|];
    cbn [bind] in Hok; [|discriminate].
  injection Hok as <-.
  unfold App.saveEntries, App.saved, App.entriesToSave in *.
  cbn [App.map_result].
  destruct (App.map_result App.rest_of (App.entries st)) as [toSave|];
    cbn [bind] in Hsaved; [|discriminate].
  injection Hsaved as <-.
  eexists. split; [|split; [|split]].
  - intros storage. unfold App.rest_of at 1. cbn [App.own_properties bind].
    cbn [json_of map]. reflexivity.
  - cbn. reflexivity.
  - cbn. destruct (json_of (transcription r)), (json_of (analysis r)); reflexivity.
  - cbn. destruct (json_of (transcription r)), (json_of (analysis r)); reflexivity.
Qed.

Lemma saved_after_recording_witness :
  exists newEntry records record,
    App.analyse Examples.careful_env Examples.recording = Ok newEntry
    /\ App.saved (App.entries Examples.earlier_state) = Ok (VArr records)
    /\ App.saveEntries Examples.roomy
         (App.entries (App.handleRecordingComplete Examples.careful_env
                         Examples.recording Examples.earlier_state)) []
       = Ok [(App.entriesKey, VArr (record :: records))]
    /\ field "audioUrl" record = VUndef.
Proof.
  destruct (App.analyse Examples.careful_env Examples.recording)
    as [newEntry|] eqn:Ha; [|vm_compute in Ha; discriminate].
  assert (Hs : App.saved (App.entries Examples.earlier_state)
               = Ok (VArr [ VObj [ ("id", VStr "1729990000000");
                                   ("date", VStr "2024-10-27T00:46:40.000Z");
                                   ("transcription", VStr "Hier");
                                   ("analysis", VNull);
                                   ("isProcessing", VBool false) ] ]))
    by (vm_compute; reflexivity).
  destruct (saved_after_recording Examples.roomy Examples.careful_env
              Examples.recording Examples.earlier_state newEntry _ Ha Hs)
    as (record & Hrun & _ & _ & Hno).
  exists newEntry. eexists. exists record.
  split; [reflexivity|]. split; [exact Hs|]. split; [|exact Hno].
  rewrite Hrun. reflexivity.
Defined.

(** ** The search *)

Section Search_facts.

Variable toLowerCase : string -> string.

Lemma some_includes_errors lowerQ tags err :
  App.some_includes toLowerCase lowerQ tags = Err err -> err = TypeError.
Proof.
  induction tags as [|t tags IH]; cbn [App.some_includes]; [discriminate|].
  destruct t; cbn [App.lower_of bind]; try (intros H; now injection H).
  destruct (includes (toLowerCase s) lowerQ); [discriminate | exact IH].
Qed.

Lemma get_errors k v err : get k v = Err err -> err = TypeError.
Proof. destruct v; cbn; intros H; try discriminate; now injection H. Qed.

Lemma lower_of_errors v err :
  App.lower_of toLowerCase v = Err err -> err = TypeError.
Proof. destruct v; cbn; intros H; try discriminate; now injection H. Qed.

(** Every failure of the callback is a [TypeError]. *)
Lemma matches_errors lowerQ e err :
  App.matches toLowerCase lowerQ e = Err err -> err = TypeError.
Proof.
  unfold App.matches.
  destruct (get "transcription" e) as [t|e1] eqn:E1; cbn [bind];
    [|intros H; injection H as <-; now apply (get_errors _ _ _ E1)].
  destruct (App.lower_of toLowerCase t) as [lt|e2] eqn:E2; cbn [bind];
    [|intros H; injection H as <-; now apply (lower_of_errors _ _ E2)].
  destruct (includes lt lowerQ); [discriminate|].
  destruct (get "analysis" e) as [a|e3] eqn:E3; cbn [bind];
    [|intros H; injection H as <-; now apply (get_errors _ _ _ E3)].
  assert (Hrest : forall err',
    (sm <- get "summary" a ;;
     ls <- App.lower_of toLowerCase sm ;;
     if includes ls lowerQ then Ok true
     else tg <- get "tags" a ;;
          match tg with
          | VArr elems => App.some_includes toLowerCase lowerQ elems
          | _ => Err TypeError
          end) = Err err' -> err' = TypeError).
  { intros err'.
    destruct (get "summary" a) as [sm|e4] eqn:E4; cbn [bind];
      [|intros H; injection H as <-; now apply (get_errors _ _ _ E4)].
    destruct (App.lower_of toLowerCase sm) as [ls|e5] eqn:E5; cbn [bind];
      [|intros H; injection H as <-; now apply (lower_of_errors _ _ E5)].
    destruct (includes ls lowerQ); [discriminate|].
    destruct (get "tags" a) as [tg|e6] eqn:E6; cbn [bind];
      [|intros H; injection H as <-; now apply (get_errors _ _ _ E6)].
    destruct tg; try (intros H; now injection H).
    apply some_includes_errors. }
  destruct a; try discriminate; apply Hrest.
Qed.

Lemma filter_result_errors (f : jsval -> result bool) (l : list jsval) err :
  (forall e err', f e = Err err' -> err' = TypeError) ->
  filter_result f l = Err err -> err = TypeError.
Proof.
  intros Hf. induction l as [|x l IH]; cbn [filter_result]; [discriminate|].
  destruct (f x) as [keep|e1] eqn:E1; cbn [bind];
    [|intros H; injection H as <-; now apply (Hf x)].
  destruct (filter_result f l) as [kept|e2]; cbn [bind]; [discriminate|].
  intros H. injection H as <-. now apply IH.
Qed.

Lemma filter_result_fails (f : jsval -> result bool) (l : list jsval) (e : jsval)
    (err : js_error) :
  In e l -> f e = Err err -> exists err', filter_result f l = Err err'.
Proof.
  induction l as [|x l IH]; [contradiction|].
  intros [-> | Hin] He; cbn [filter_result].
  - rewrite He. now exists err.
  - destruct (f x) as [keep|e1]; cbn [bind]; [|now exists e1].
    destruct (IH Hin He) as [err' ->]. now exists err'.
Qed.

Lemma filter_result_total (f : jsval -> result bool) (g : jsval -> bool)
    (l : list jsval) :
  (forall e, In e l -> f e = Ok (g e)) ->
  filter_result f l = Ok (filter g l).
Proof.
  induction l as [|x l IH]; intros H; [reflexivity|].
  cbn [filter_result filter].
  rewrite (H x (or_introl eq_refl)). cbn [bind].
  rewrite IH by (intros e He; apply H; now right).
  reflexivity.
Qed.

Lemma some_includes_strings lowerQ tags :
  forallb App.is_string tags = true ->
  App.some_includes toLowerCase lowerQ tags
  = Ok (existsb (fun t => includes (toLowerCase (App.text_of t)) lowerQ) tags).
Proof.
  induction tags as [|t tags IH]; cbn [forallb App.some_includes existsb];
    [reflexivity|].
  intros H. apply andb_prop in H. destruct H as [Ht Hrest].
  destruct t; try discriminate. cbn [App.lower_of bind App.text_of].
  destruct (includes (toLowerCase s) lowerQ); [reflexivity | now apply IH].
Qed.

(** On an entry of the declared shape the callback does not throw: it
    tells whether the query is found. *)
Lemma matches_searchable searchQuery e :
  App.searchable e = true ->
  App.matches toLowerCase (toLowerCase searchQuery) e
  = Ok (App.found toLowerCase searchQuery e).
Proof.
  unfold App.searchable, App.matches, App.found.
  destruct e as [| | | | | |props]; try discriminate.
  rewrite !get_object. cbn [bind].
  intros H. apply andb_prop in H. destruct H as [Ht Ha].
  destruct (field "transcription" (VObj props)); try discriminate.
  cbn [App.lower_of bind App.text_of].
  destruct (includes (toLowerCase s) (toLowerCase searchQuery));
    [reflexivity|]. cbn [orb].
  destruct (field "analysis" (VObj props)) as [| | | | | |aprops];
    try discriminate; [reflexivity|].
  rewrite !get_object. cbn [bind].
  apply andb_prop in Ha. destruct Ha as [Hs Htags].
  destruct (field "summary" (VObj aprops)); try discriminate.
  cbn [App.lower_of bind App.text_of].
  destruct (includes (toLowerCase s0) (toLowerCase searchQuery));
    [reflexivity|]. cbn [orb].
  destruct (field "tags" (VObj aprops)); try discriminate.
  now apply some_includes_strings.
Qed.

End Search_facts.

(** X14.  With an empty query the search returns all the entries, in their
    order, and reads none of their fields: it does not throw even on entries
    that are not of the declared shape. *)
Theorem filteredEntries_empty_query (toLowerCase : string -> string)
    (entries : list jsval) :
  App.filteredEntries toLowerCase "" entries = Ok entries.
Proof.
  unfold App.filteredEntries. cbn [String.eqb].
  induction entries as [|e entries IH]; [reflexivity|].
  cbn [filter_result bind]. now rewrite IH.
Qed.

(** X15.  On entries of the declared shape the search does not throw, and
    it returns, in their order, exactly the entries in whose transcription,
    summary or tags the query occurs, letter case apart; with an empty
    query, all of them. *)
Theorem filteredEntries_on_typed_entries (toLowerCase : string -> string)
    (searchQuery : string) (entries : list jsval) :
  Forall (fun e => App.searchable e = true) entries ->
  App.filteredEntries toLowerCase searchQuery entries
  = Ok (filter (fun e => String.eqb searchQuery ""
                         || App.found toLowerCase searchQuery e)
               entries).
Proof.
  intros Htyped. unfold App.filteredEntries.
  apply filter_result_total.
  intros e He. rewrite Forall_forall in Htyped.
  destruct (String.eqb searchQuery ""); [reflexivity|]. cbn [orb].
  now apply matches_searchable, Htyped.
Qed.

Lemma filteredEntries_on_typed_entries_witness :
  Forall (fun e => App.searchable e = true)
         [Examples.entry_complete; Examples.earlier_entry]
  /\ App.filteredEntries Examples.ascii_lower "MATIN"
       [Examples.entry_complete; Examples.earlier_entry]
     = Ok [Examples.entry_complete].
Proof.
  assert (H : Forall (fun e => App.searchable e = true)
                     [Examples.entry_complete; Examples.earlier_entry])
    by (repeat constructor).
  split; [exact H|].
  now rewrite (filteredEntries_on_typed_entries Examples.ascii_lower "MATIN"
                 [Examples.entry_complete; Examples.earlier_entry] H).
Defined.

(** X16.  An entry whose analysis has no string [summary] breaks the
    search: for a query that is not empty and is not found in the entry's
    transcription, the search throws a [TypeError], wherever the entry
    stands among the entries. *)
Theorem filteredEntries_throws_without_summary (toLowerCase : string -> string)
    (searchQuery : string) (entries : list jsval) (e : jsval)
    (props aprops : list (string * jsval)) (t : string) :
  searchQuery <> "" ->
  In e entries ->
  e = VObj props ->
  field "transcription" e = VStr t ->
  includes (toLowerCase t) (toLowerCase searchQuery) = false ->
  field "analysis" e = VObj aprops ->
  App.is_string (field "summary" (VObj aprops)) = false ->
  App.filteredEntries toLowerCase searchQuery entries = Err TypeError.
Proof.
  intros Hq Hin -> Ht Hmiss Ha Hs.
  assert (Hne : String.eqb searchQuery "" = false)
    by (now apply String.eqb_neq).
  assert (He : App.matches toLowerCase (toLowerCase searchQuery) (VObj props)
               = Err TypeError).
  { unfold App.matches. rewrite !get_object. cbn [bind].
    rewrite Ht. cbn [App.lower_of bind]. rewrite Hmiss.
    rewrite Ha. rewrite !get_object. cbn [bind].
    destruct (field "summary" (VObj aprops)); try reflexivity. discriminate. }
  unfold App.filteredEntries.
  destruct (filter_result_fails
              (fun e => if String.eqb searchQuery "" then Ok true
                        else App.matches toLowerCase (toLowerCase searchQuery) e)
              entries (VObj props) TypeError Hin) as [err Herr].
  { now rewrite Hne. }
  rewrite Herr. f_equal.
  eapply filter_result_errors; [|exact Herr].
  intros x err'. cbv beta. rewrite Hne. apply matches_errors.
Qed.

Lemma filteredEntries_throws_without_summary_witness :
  "matin" <> ""
  /\ includes (Examples.ascii_lower "Bonjour a tous") (Examples.ascii_lower "matin")
     = false
  /\ App.filteredEntries Examples.ascii_lower "matin"
       [Examples.entry_complete; Examples.entry_without_summary]
     = Err TypeError.
Proof.
  split; [discriminate|]. split; [reflexivity|].
  apply (filteredEntries_throws_without_summary Examples.ascii_lower "matin"
           [Examples.entry_complete; Examples.entry_without_summary]
           Examples.entry_without_summary
           [ ("id", VStr "1730000000001");
             ("date", VStr "2024-10-27T04:00:00.000Z");
             ("transcription", VStr "Bonjour a tous");
             ("analysis", VObj [ ("summary", VUndef); ("mood", VStr "calme");
                                 ("tags", VArr [VStr "salut"]) ]);
             ("isProcessing", VBool false) ]
           [ ("summary", VUndef); ("mood", VStr "calme");
             ("tags", VArr [VStr "salut"]) ]
           "Bonjour a tous");
    try reflexivity.
  - discriminate.
  - cbn. tauto.
Defined.

(** ** The reminder and its settings *)

Section Reminder_facts.

Import App.



End Reminder_facts.



Section Settings_facts.

Import App SettingsView.


End Settings_facts.



(** ** The list and the detail of the entries *)

Section Views_facts.

Variable toNumber : jsval -> option Z.

Lemma shown_tags_length (entry : jsval) (tags : list jsval) :
  EntryList.shown_tags entry = Ok tags -> List.length tags <= 3.
Proof.
  unfold EntryList.shown_tags.
  destruct (get "analysis" entry) as [a|]; cbn [bind]; [|discriminate].
  assert (Hrest :
    (tags0 <- get "tags" a ;;
     match tags0 with
     | VArr elems => Ok (firstn 3 elems)
     | _ => Err TypeError
     end) = Ok tags -> List.length tags <= 3).
  { destruct (get "tags" a) as [tg|]; cbn [bind]; [|discriminate].
    destruct tg as [| | | | |elems|]; try discriminate.
    intros H. assert (Ht : tags = firstn 3 elems) by congruence.
    rewrite Ht. apply firstn_le_length. }
  destruct a; try exact Hrest; intros H; injection H as <-; cbn; lia.
Qed.

Lemma row_tags_length (entry : jsval) (r : EntryList.Row) :
  EntryList.row toNumber entry = Ok r -> List.length (EntryList.tags r) <= 3.
Proof.
  unfold EntryList.row.
  destruct (EntryList.metric_high toNumber "assertiveness" entry); cbn [bind];
    [|discriminate].
  destruct (EntryList.metric_high toNumber "clarity" entry); cbn [bind];
    [|discriminate].
  destruct (EntryList.analysis_or "mood" "Neutre" entry); cbn [bind];
    [|discriminate].
  destruct (EntryList.analysis_or "summary" "Nouvelle entrée..." entry);
    cbn [bind]; [|discriminate].
  destruct (EntryList.shown_tags entry) as [tags|] eqn:E; cbn [bind];
    [|discriminate].
  intros H. injection H as <-. cbn [EntryList.tags].
  now apply (shown_tags_length entry).
Qed.

Lemma map_result_rows (entries : list jsval) (rows : list EntryList.Row) :
  App.map_result (EntryList.row toNumber) entries = Ok rows ->
  List.length rows = List.length entries
  /\ Forall (fun r => List.length (EntryList.tags r) <= 3) rows.
Proof.
  revert rows. induction entries as [|e entries IH]; intros rows;
    cbn [App.map_result].
  - intros H. injection H as <-. split; [reflexivity | constructor].
  - destruct (EntryList.row toNumber e) as [r|] eqn:Er; cbn [bind];
      [|discriminate].
    destruct (App.map_result (EntryList.row toNumber) entries) as [rs|];
      cbn [bind]; [|discriminate].
    intros H. injection H as <-.
    destruct (IH rs eq_refl) as [Hlen Hall].
    split; [cbn; now rewrite Hlen|].
    constructor; [now apply (row_tags_length e) | exact Hall].
Qed.

(** The row of an entry whose analysis is an object without metrics. *)
Lemma row_without_metrics (entry : jsval) (props aprops : list (string * jsval)) :
  entry = VObj props ->
  field "analysis" entry = VObj aprops ->
  field "metrics" (VObj aprops) = VUndef \/ field "metrics" (VObj aprops) = VNull ->
  EntryList.row toNumber entry = Err TypeError.
Proof.
  intros -> Ha Hm.
  unfold EntryList.row, EntryList.metric_high.
  rewrite get_object, Ha. cbn [bind]. rewrite get_object. cbn [bind].
  destruct Hm as [-> | ->]; reflexivity.
Qed.

Lemma metricsList_without_metrics (entry : jsval)
    (props aprops : list (string * jsval)) :
  entry = VObj props ->
  field "analysis" entry = VObj aprops ->
  field "metrics" (VObj aprops) = VUndef \/ field "metrics" (VObj aprops) = VNull ->
  EntryDetail.metricsList entry = Err TypeError.
Proof.
  intros -> Ha Hm.
  unfold EntryDetail.metricsList.
  rewrite get_object, Ha. cbn [bind truthy]. rewrite get_object. cbn [bind].
  destruct Hm as [-> | ->]; reflexivity.
Qed.

End Views_facts.

(** X19.  When the list of entries renders, it shows one row per entry and
    at most three tags in a row; the placeholder of the empty journal is
    shown for no entry, and only then. *)
Theorem entryList_rows (toNumber : jsval -> option Z) (entries : list jsval) :
  (EntryList.EntryList toNumber entries = Ok None <-> entries = [])
  /\ (forall rows,
      EntryList.EntryList toNumber entries = Ok (Some rows) ->
      List.length rows = List.length entries
      /\ Forall (fun r => List.length (EntryList.tags r) <= 3) rows).
Proof.
  split.
  - split.
    + destruct entries as [|e entries]; [reflexivity|].
      unfold EntryList.EntryList.
      destruct (App.map_result (EntryList.row toNumber) (e :: entries));
        discriminate.
    + intros ->. reflexivity.
  - intros rows. destruct entries as [|e entries]; [discriminate|].
    unfold EntryList.EntryList.
    destruct (App.map_result (EntryList.row toNumber) (e :: entries)) as [rs|] eqn:E;
      cbn [bind]; [|discriminate].
    intros H. injection H as <-. now apply (map_result_rows toNumber).
Qed.

Lemma entryList_rows_witness :
  exists rows,
    EntryList.EntryList Examples.no_conversion
      [Examples.entry_with_metrics; Examples.earlier_entry] = Ok (Some rows)
    /\ List.length rows = 2
    /\ Forall (fun r => List.length (EntryList.tags r) <= 3) rows.
Proof.
  eexists.
  assert (H : EntryList.EntryList Examples.no_conversion
                [Examples.entry_with_metrics; Examples.earlier_entry]
              = Ok (Some [ EntryList.mkRow (VBool true) (VBool false)
                             (VStr "calme") (VStr "Une salutation.")
                             [VStr "salut"; VStr "matin"; VStr "jour"];
                           EntryList.mkRow VUndef VUndef (VStr "Neutre")
                             (VStr "Nouvelle entrée...") [] ]))
    by (vm_compute; reflexivity).
  split; [exact H|].
  exact (proj2 (entryList_rows Examples.no_conversion
                  [Examples.entry_with_metrics; Examples.earlier_entry]) _ H).
Defined.

(** X20.  A response without [metrics] (or whose [metrics] is [null]) is
    accepted and stored, and then neither view can render: after
    [handleRecordingComplete] the detail view is open on the new entry, the
    computation of whose metrics throws a [TypeError], and the list of the
    entries throws a [TypeError] at the row of that entry. *)
Theorem response_without_metrics_breaks_views (toNumber : jsval -> option Z)
    (env : App.Env) (audioBlob : Blob) (st : App.State)
    (response : GenerateContentResponse) (resultText : string)
    (props : list (string * jsval)) :
  App.fileReader env audioBlob = App.readAsDataURL audioBlob ->
  occurs "," (blob_type audioBlob) = false ->
  App.generateContent env
    (analysisRequest
       (VStr (string_of_list_ascii (Base64.encode (blob_bytes audioBlob))))
       (if String.eqb (blob_type audioBlob) "" then "audio/webm"
        else blob_type audioBlob))
  = Ok response ->
  text response = Some resultText ->
  resultText <> "" ->
  App.parseJSON env resultText = Ok (VObj props) ->
  field "metrics" (VObj props) = VUndef \/ field "metrics" (VObj props) = VNull ->
  let st' := App.handleRecordingComplete env audioBlob st in
  App.view st' = App.DETAILS
  /\ (exists entry,
        App.selectedEntry st' = Some entry
        /\ EntryDetail.metricsList entry = Err TypeError)
  /\ EntryList.EntryList toNumber (App.entries st') = Err TypeError.
Proof.
  intros Hreader Htype Hresp Htext Hne Hparse Hm st'.
  unfold st', App.handleRecordingComplete.
  rewrite (analyse_success env audioBlob response resultText props
             Hreader Htype Hresp Htext Hne Hparse).
  cbn [App.view App.selectedEntry App.entries].
  split; [reflexivity|]. split.
  - eexists. split; [reflexivity|].
    eapply metricsList_without_metrics; [reflexivity | reflexivity | exact Hm].
  - unfold EntryList.EntryList. cbn [App.map_result].
    erewrite row_without_metrics; [reflexivity | reflexivity | reflexivity | exact Hm].
Qed.

Lemma response_without_metrics_breaks_views_witness :
  field "metrics" Examples.parsed_without_metrics = VUndef
  /\ EntryList.EntryList Examples.no_conversion
       (App.entries (App.handleRecordingComplete Examples.careless_env
                       Examples.recording Examples.earlier_state))
     = Err TypeError.
Proof.
  split; [reflexivity|].
  refine (proj2 (proj2 (response_without_metrics_breaks_views
            Examples.no_conversion Examples.careless_env Examples.recording
            Examples.earlier_state
            (mkResponse (Some Examples.payload_without_metrics) None)
            Examples.payload_without_metrics
            [ ("transcription", VStr "Bonjour");
              ("summary", VStr "Une salutation.");
              ("mood", VStr "calme");
              ("tags", VArr [VStr "salut"]);
              ("deepAnalysis", VStr "Bref.");
              ("suggestions", VArr []);
              ("eloquenceTip", Examples.tip_value) ]
            eq_refl eq_refl eq_refl eq_refl _ _ (or_introl eq_refl)))).
  - discriminate.
  - vm_compute. reflexivity.
Defined.

(** ** The recorder unmounted *)

Section Unmount_facts.

Import AudioRecorder.

Lemma abandoned_step (s : nat) (st : State) (ev : event) :
  abandoned s st -> from_host ev = true ->
  abandoned s (step st ev) /\ completed (step st ev) = completed st.
Proof.
  intros (Hp & Hl & Hr & Hs) Hev.
  destruct ev as [|outcome|r data|r|];
    [discriminate Hev| | |discriminate Hev|].
  - cbn [step]. rewrite Hp. repeat split; assumption.
  - cbn [step]. destruct (mem r (recording st) || mem r (stopping st));
      [|repeat split; assumption].
    unfold ondataavailable. destruct (0 <? blob_size data);
      repeat split; assumption.
  - cbn [step]. destruct (timerActive st || (0 <? leakedTimers st));
      repeat split; assumption.
Qed.

Lemma abandoned_run (s : nat) (later : list event) : forall st,
  abandoned s st -> forallb from_host later = true ->
  abandoned s (run st later) /\ completed (run st later) = completed st.
Proof.
  induction later as [|ev later IH]; intros st Hab Hhost; [now split|].
  cbn [forallb] in Hhost. apply andb_true_iff in Hhost as [Hev Hrest].
  destruct (abandoned_step s st ev Hab Hev) as [Hab' Hc].
  cbn [run fold_left]. destruct (IH (step st ev) Hab' Hrest) as [Hab'' Hc'].
  split; [exact Hab''|]. unfold run in Hc'. now rewrite Hc'.
Qed.

Lemma recording_phase (st : State) :
  phase st -> isRecording st = true -> exists s, capturing s st.
Proof.
  intros [H | [H | [[s H] | [s H]]]] Hrec.
  - destruct H as [H _]. congruence.
  - destruct H as [H _]. congruence.
  - now exists s.
  - destruct H as [H _]. congruence.
Qed.

End Unmount_facts.

(** X21.  The recorder unmounted while it records keeps the microphone.
    In a state reached by serialized use in which the component records, the
    cleanup of the component stops neither the recorder nor the tracks: as
    long as the recorder does not stop by itself, whatever chunks, ticks and
    settlements the host delivers afterwards, the one stream stays live, its
    recorder stays in the recording state, and no recording is handed
    over. *)
Theorem unmount_while_recording_keeps_microphone
    (evs later : list AudioRecorder.event) :
  AudioRecorder.serialized AudioRecorder.init evs ->
  AudioRecorder.isRecording (AudioRecorder.run AudioRecorder.init evs) = true ->
  forallb AudioRecorder.from_host later = true ->
  let st := AudioRecorder.run AudioRecorder.init evs in
  let st' := AudioRecorder.run (AudioRecorder.unmount st) later in
  exists s,
    AudioRecorder.live st' = [s]
    /\ AudioRecorder.recording st' = [s]
    /\ AudioRecorder.completed st' = AudioRecorder.completed st.
Proof.
  intros Hser Hrec Hhost st st'.
  destruct (recording_phase st
              (phase_run evs AudioRecorder.init phase_init Hser) Hrec)
    as [s (_ & Hp & _ & Hl & Hr & Hs)].
  assert (Hab : AudioRecorder.abandoned s (AudioRecorder.unmount st))
    by (repeat split; assumption).
  destruct (abandoned_run s later _ Hab Hhost) as [(_ & Hl' & Hr' & _) Hc].
  exists s. repeat split; assumption.
Qed.

Lemma unmount_while_recording_keeps_microphone_witness :
  exists s,
    AudioRecorder.live
      (AudioRecorder.run
         (AudioRecorder.unmount
            (AudioRecorder.run AudioRecorder.init Examples.capture_begun))
         Examples.after_unmount) = [s]
    /\ AudioRecorder.recording
         (AudioRecorder.run
            (AudioRecorder.unmount
               (AudioRecorder.run AudioRecorder.init Examples.capture_begun))
            Examples.after_unmount) = [s]
    /\ AudioRecorder.completed
         (AudioRecorder.run
            (AudioRecorder.unmount
               (AudioRecorder.run AudioRecorder.init Examples.capture_begun))
            Examples.after_unmount)
       = AudioRecorder.completed
           (AudioRecorder.run AudioRecorder.init Examples.capture_begun).
Proof.
  apply (unmount_while_recording_keeps_microphone
           Examples.capture_begun Examples.after_unmount).
  - cbn. repeat split; reflexivity.
  - reflexivity.
  - reflexivity.
Defined.

(** ** The practice round *)

Section Exercise_facts.

Import EntryDetail.

Lemma unrendered_presses (ex : Exercise) (presses : list control) :
  (forall c, rendered c ex = false) ->
  exercise_run ex (map Pressed presses) = ex.
Proof.
  intros Hnone. induction presses as [|c presses IH]; [reflexivity|].
  cbn [map exercise_run fold_left exercise_step]. rewrite Hnone. exact IH.
Qed.

End Exercise_facts.

(** X22.  A falsy evaluation leaves the exercise tab without a control.
    [evaluateExercise] returns what the text of the response parses to; when
    that is falsy ([null], [false], [0] or the empty string), the recording
    once handed over and the evaluation settled, the tab is in [FEEDBACK]
    with no alert raised, it renders neither the start button, nor the
    cancel link, nor the retry link, nor the recorder, and presses change
    nothing. *)
Theorem falsy_feedback_leaves_no_control
    (parse : string -> result jsval) (generateContent : Remote)
    (audioBase64 : jsval) (mimeType goal : string)
    (response : GenerateContentResponse) (resultText : string) (v : jsval)
    (ex : EntryDetail.Exercise) :
  generateContent (exerciseRequest audioBase64 mimeType) = Ok response ->
  text response = Some resultText ->
  parse resultText = Ok v ->
  truthy v = false ->
  EntryDetail.evaluating ex = 0 ->
  let outcome := evaluateExercise parse generateContent audioBase64 mimeType goal in
  let ex' := EntryDetail.exercise_run ex
               [ EntryDetail.ExerciseRecorded;
                 EntryDetail.EvaluationSettled outcome ] in
  EntryDetail.exerciseState ex' = EntryDetail.FEEDBACK
  /\ EntryDetail.exerciseFeedback ex' = v
  /\ EntryDetail.exerciseAlerts ex' = EntryDetail.exerciseAlerts ex
  /\ (forall c, EntryDetail.rendered c ex' = false)
  /\ EntryDetail.recorder_mounted ex' = false
  /\ (forall presses,
       EntryDetail.exercise_run ex' (map EntryDetail.Pressed presses) = ex').
Proof.
  intros Hresp Htext Hparse Hfalsy Hev outcome ex'.
  assert (Hout : outcome = Ok v).
  { unfold outcome.
    rewrite (evaluateExercise_returns_parsed parse generateContent audioBase64
               mimeType goal response resultText Hresp Htext).
    exact Hparse. }
  assert (Hex : ex' = EntryDetail.mkExercise EntryDetail.FEEDBACK v 0
                        (EntryDetail.exerciseAlerts ex)).
  { unfold ex'. rewrite Hout. cbn. now rewrite Hev. }
  assert (Hnone : forall c, EntryDetail.rendered c ex' = false).
  { intros c. rewrite Hex. destruct c; cbn; [reflexivity | reflexivity | exact Hfalsy]. }
  repeat split; try (rewrite Hex; reflexivity); [exact Hnone|].
  intros presses. now apply unrendered_presses.
Qed.

Lemma falsy_feedback_leaves_no_control_witness :
  JSON_parse "null" = Ok VNull
  /\ EntryDetail.exerciseState
       (EntryDetail.exercise_run EntryDetail.exercise_init
          [ EntryDetail.Pressed EntryDetail.StartButton;
            EntryDetail.ExerciseRecorded;
            EntryDetail.EvaluationSettled
              (evaluateExercise JSON_parse (Examples.answering "null")
                 (VStr "GkU=") "audio/webm" "Repetez.") ])
     = EntryDetail.FEEDBACK
  /\ forall c,
       EntryDetail.rendered c
         (EntryDetail.exercise_run EntryDetail.exercise_init
            [ EntryDetail.Pressed EntryDetail.StartButton;
              EntryDetail.ExerciseRecorded;
              EntryDetail.EvaluationSettled
                (evaluateExercise JSON_parse (Examples.answering "null")
                   (VStr "GkU=") "audio/webm" "Repetez.") ])
       = false.
Proof.
  assert (Hparse : JSON_parse "null" = Ok VNull) by (vm_compute; reflexivity).
  split; [exact Hparse|].
  destruct (falsy_feedback_leaves_no_control JSON_parse
              (Examples.answering "null") (VStr "GkU=") "audio/webm" "Repetez."
              (mkResponse (Some "null") None) "null" VNull
              (EntryDetail.exercise_step EntryDetail.exercise_init
                 (EntryDetail.Pressed EntryDetail.StartButton))
              eq_refl eq_refl Hparse eq_refl eq_refl)
    as (Hstate & _ & _ & Hnone & _).
  split; [exact Hstate | exact Hnone].
Defined.

(** X23.  The goal of the exercise is computed without a throw.  For an
    entry that is neither [null] nor [undefined], [tipGoal] fulfils whatever
    the analysis and its tip are, and the goal is a truthy value or the
    empty string. *)
Theorem tipGoal_never_throws (entry : jsval) :
  entry <> VUndef -> entry <> VNull ->
  exists goal,
    EntryDetail.tipGoal entry = Ok goal
    /\ (truthy goal = true \/ goal = VStr "").
Proof.
  intros Hu Hn. unfold EntryDetail.tipGoal.
  assert (Hget : forall k o, o <> VUndef -> o <> VNull ->
                 exists x, get k o = Ok x).
  { intros k o H1 H2. destruct o; try congruence; eexists; reflexivity. }
  assert (Hstr : forall s, truthy (VStr s) = true \/ VStr s = VStr "").
  { intros s. destruct s as [|c s]; [now right | now left]. }
  assert (Hinstr : forall tip, tip <> VUndef -> tip <> VNull ->
            exists goal,
              (instruction <- get "instruction" tip ;;
               Ok (if truthy instruction then instruction else VStr "")) = Ok goal
              /\ (truthy goal = true \/ goal = VStr "")).
  { intros tip H1 H2. destruct (Hget "instruction" tip H1 H2) as [x ->].
    cbn [bind]. eexists. split; [reflexivity|].
    destruct (truthy x) eqn:E; [now left | now right]. }
  assert (Htip : forall a, a <> VUndef -> a <> VNull ->
            exists goal,
              (tip <- get "eloquenceTip" a ;;
               match tip with
               | VStr s => Ok (VStr s)
               | VUndef | VNull => Ok (VStr "")
               | _ =>
                   instruction <- get "instruction" tip ;;
                   Ok (if truthy instruction then instruction else VStr "")
               end) = Ok goal
              /\ (truthy goal = true \/ goal = VStr "")).
  { intros a H1 H2. destruct (Hget "eloquenceTip" a H1 H2) as [tip ->].
    cbn [bind].
    destruct tip as [| |b|z|s'|elems|props];
      try (eexists; split; [reflexivity | now right]);
      try (apply Hinstr; discriminate).
    eexists; split; [reflexivity | apply Hstr]. }
  destruct (Hget "analysis" entry Hu Hn) as [a ->]. cbn [bind].
  destruct a as [| |b|z|s'|elems|props];
    try (eexists; split; [reflexivity | now right]);
    apply Htip; discriminate.
Qed.

Lemma tipGoal_never_throws_witness :
  exists goal,
    EntryDetail.tipGoal Examples.entry_with_metrics = Ok goal
    /\ (truthy goal = true \/ goal = VStr "").
Proof.
  apply (tipGoal_never_throws Examples.entry_with_metrics); discriminate.
Defined.

(** ** The progression chart *)

Section Chart_facts.

Import EntryDetail.

Variable getTime : jsval -> option Z.

Lemma le_time_trans (a b c : jsval) :
  le_time getTime a b -> le_time getTime b c -> le_time getTime a c.
Proof.
  intros (s & t & Ha & Hb & Hst) (t' & u & Hb' & Hc & Htu).
  exists s, u. repeat split; [assumption | assumption |].
  assert (t = t') by congruence. lia.
Qed.

Lemma byDate_dated (a b : jsval) (s t : Z) :
  time_of getTime a = Some s -> time_of getTime b = Some t -> (byDate getTime) a b = Ok (s - t)%Z.
Proof.
  unfold EntryDetail.time_of, EntryDetail.byDate.
  destruct (get "date" a) as [x|]; [|discriminate].
  destruct (get "date" b) as [y|]; [|discriminate].
  intros Hs Ht. cbn [bind]. now rewrite Hs, Ht.
Qed.

Lemma insert_sorted (x : jsval) (l : list jsval) :
  (dated getTime) x -> Forall (dated getTime) l -> StronglySorted (le_time getTime) l ->
  exists r, insert_result (byDate getTime) x l = Ok r
            /\ Permutation (x :: l) r /\ StronglySorted (le_time getTime) r.
Proof.
  intros [s Hx]. induction l as [|y rest IH]; intros Hall Hsorted.
  - exists [x]. repeat split; [apply Permutation_refl|].
    constructor; constructor.
  - apply Forall_cons_iff in Hall as [[t Hy] Hrest].
    apply StronglySorted_inv in Hsorted as [Hsrest Hy_le].
    cbn [insert_result]. rewrite (byDate_dated x y s t Hx Hy). cbn [bind].
    destruct (s - t <=? 0)%Z eqn:E.
    + apply Z.leb_le in E.
      exists (x :: y :: rest). repeat split; [apply Permutation_refl|].
      assert (Hxy : (le_time getTime) x y) by (exists s, t; repeat split; [assumption..|lia]).
      constructor; [constructor; assumption|].
      constructor; [exact Hxy|].
      eapply Forall_impl; [|exact Hy_le].
      intros z Hz. now apply (le_time_trans x y z).
    + apply Z.leb_gt in E.
      destruct (IH Hrest Hsrest) as (r & -> & Hperm & Hsr). cbn [bind].
      exists (y :: r). repeat split.
      * eapply Permutation_trans; [apply perm_swap|]. now apply perm_skip.
      * constructor; [exact Hsr|].
        eapply Permutation_Forall; [exact Hperm|].
        constructor; [|exact Hy_le].
        exists t, s. repeat split; [assumption..|lia].
Qed.

Lemma sort_sorted (l : list jsval) :
  Forall (dated getTime) l ->
  exists r, sort_result (byDate getTime) l = Ok r
            /\ Permutation l r /\ StronglySorted (le_time getTime) r.
Proof.
  induction l as [|x l IH]; intros Hall.
  - exists []. repeat split; constructor.
  - apply Forall_cons_iff in Hall as [Hx Hl].
    destruct (IH Hl) as (r & Hr & Hperm & Hsr).
    cbn [sort_result]. rewrite Hr. cbn [bind].
    destruct (insert_sorted x r Hx (Permutation_Forall Hperm Hl) Hsr)
      as (r' & -> & Hperm' & Hsr').
    exists r'. repeat split; [|exact Hsr'].
    eapply Permutation_trans; [|exact Hperm']. now apply perm_skip.
Qed.

Lemma filter_result_kept (f : jsval -> result bool) (l kept : list jsval) :
  filter_result f l = Ok kept ->
  forall e, In e kept -> In e l /\ f e = Ok true.
Proof.
  revert kept. induction l as [|x l IH]; intros kept; cbn [filter_result].
  - intros H. injection H as <-. contradiction.
  - destruct (f x) as [keep|] eqn:Ex; cbn [bind]; [|discriminate].
    destruct (filter_result f l) as [kept'|]; cbn [bind]; [|discriminate].
    intros H e. injection H as <-. destruct keep.
    + intros [<- | Hin]; [split; [now left | exact Ex]|].
      destruct (IH kept' eq_refl e Hin). split; [now right | assumption].
    + intros Hin. destruct (IH kept' eq_refl e Hin).
      split; [now right | assumption].
Qed.

Lemma charted_kept (currentEntry e : jsval) :
  (charted getTime) currentEntry e = Ok true ->
  (exists a, get "analysis" e = Ok a /\ truthy a = true)
  /\ (le_time getTime) e currentEntry.
Proof.
  unfold EntryDetail.charted, EntryDetail.le_time, EntryDetail.time_of,
    EntryDetail.on_or_before.
  destruct (get "analysis" e) as [a|]; cbn [bind]; [|discriminate].
  destruct (truthy a) eqn:Ea; [|discriminate].
  destruct (get "date" e) as [d|]; cbn [bind]; [|discriminate].
  destruct (get "date" currentEntry) as [c|]; cbn [bind]; [|discriminate].
  destruct (getTime d) as [s|]; [|discriminate].
  destruct (getTime c) as [t|]; [|discriminate].
  intros H. assert (Hle : (s <=? t)%Z = true) by congruence.
  apply Z.leb_le in Hle.
  split; [now exists a|]. exists s, t. now repeat split.
Qed.

Lemma sorted_skipn (n : nat) : forall l : list jsval,
  StronglySorted (le_time getTime) l -> StronglySorted (le_time getTime) (skipn n l).
Proof.
  induction n as [|n IH]; intros l Hs; [exact Hs|].
  destruct l as [|x l]; [exact Hs|].
  cbn [skipn]. apply IH. now apply StronglySorted_inv in Hs.
Qed.

Lemma in_skipn (n : nat) : forall (l : list jsval) e, In e (skipn n l) -> In e l.
Proof.
  induction n as [|n IH]; intros l e; [now intros|].
  destruct l as [|x l]; [now intros|].
  cbn [skipn]. intros H. right. now apply IH.
Qed.

Lemma slice_last_length (n : nat) (l : list jsval) :
  List.length (slice_last n l) <= n.
Proof. unfold slice_last. rewrite length_skipn. lia. Qed.

Lemma slice_last_keeps_last (n : nat) (front : list jsval) (last : jsval) :
  0 < n ->
  exists front', slice_last n (front ++ [last]) = front' ++ [last].
Proof.
  intros Hn. unfold slice_last. rewrite length_app. cbn [List.length].
  exists (skipn (List.length front + 1 - n) front).
  rewrite skipn_app.
  replace (List.length front + 1 - n - List.length front) with 0 by lia.
  reflexivity.
Qed.

Lemma sorted_app (l1 l2 : list jsval) :
  StronglySorted (le_time getTime) (l1 ++ l2) ->
  forall a b, In a l1 -> In b l2 -> (le_time getTime) a b.
Proof.
  induction l1 as [|x l1 IH]; intros Hs a b Ha Hb; [contradiction|].
  cbn [app] in Hs. apply StronglySorted_inv in Hs as [Hs Hx].
  destruct Ha as [<- | Ha]; [|now apply IH].
  rewrite Forall_forall in Hx. apply Hx. apply in_or_app. now right.
Qed.

(** The data of the chart, whenever the selection fulfils. *)
Lemma chartData_outcome (currentEntry : jsval) (allEntries kept : list jsval) :
  filter_result (charted getTime currentEntry) allEntries = Ok kept ->
  exists sorted,
    chartData getTime currentEntry allEntries = Ok (slice_last 5 sorted)
    /\ Permutation kept sorted /\ StronglySorted (le_time getTime) sorted.
Proof.
  intros Hkept.
  assert (Hdated : Forall (dated getTime) kept).
  { apply Forall_forall. intros e He.
    destruct (filter_result_kept _ _ _ Hkept e He) as [_ Hc].
    destruct (charted_kept currentEntry e Hc) as [_ (s & t & Hs & _)].
    now exists s. }
  destruct (sort_sorted kept Hdated) as (sorted & Hsort & Hperm & Hs).
  exists sorted. unfold chartData. rewrite Hkept. cbn [bind].
  rewrite Hsort. cbn [bind]. now repeat split.
Qed.

End Chart_facts.

(** X24.  The selection of the chart.  Whenever [chartData] fulfils, it
    holds at most five entries, each one an entry of the journal with a
    truthy analysis and a valid date no later than the date of the current
    entry, in the order of their dates. *)
Theorem chartData_selection (getTime : jsval -> option Z)
    (currentEntry : jsval) (allEntries data : list jsval) :
  EntryDetail.chartData getTime currentEntry allEntries = Ok data ->
  List.length data <= 5
  /\ StronglySorted (EntryDetail.le_time getTime) data
  /\ forall e, In e data ->
       In e allEntries
       /\ (exists a, get "analysis" e = Ok a /\ truthy a = true)
       /\ EntryDetail.le_time getTime e currentEntry.
Proof.
  intros Hdata.
  destruct (filter_result (EntryDetail.charted getTime currentEntry) allEntries)
    as [kept|err] eqn:Hkept;
    [|unfold EntryDetail.chartData in Hdata; rewrite Hkept in Hdata;
      discriminate].
  destruct (chartData_outcome getTime currentEntry allEntries kept Hkept)
    as (sorted & Hc & Hperm & Hs).
  rewrite Hc in Hdata. injection Hdata as <-.
  split; [apply slice_last_length|].
  split; [now apply sorted_skipn|].
  intros e He. apply in_skipn in He.
  apply (Permutation_in e (Permutation_sym Hperm)) in He.
  destruct (filter_result_kept _ _ _ Hkept e He) as [Hin Hch].
  destruct (charted_kept getTime currentEntry e Hch) as [Ha Hle].
  now repeat split.
Qed.

Lemma chartData_selection_witness :
  exists data,
    EntryDetail.chartData Examples.example_time Examples.entry_with_metrics
      [ Examples.entry_with_metrics; Examples.earlier_entry;
        Examples.entry_complete ] = Ok data
    /\ List.length data <= 5
    /\ StronglySorted (EntryDetail.le_time Examples.example_time) data.
Proof.
  eexists.
  assert (H : EntryDetail.chartData Examples.example_time
                Examples.entry_with_metrics
                [ Examples.entry_with_metrics; Examples.earlier_entry;
                  Examples.entry_complete ]
              = Ok [Examples.entry_complete; Examples.entry_with_metrics])
    by (vm_compute; reflexivity).
  split; [exact H|].
  destruct (chartData_selection Examples.example_time
              Examples.entry_with_metrics _ _ H) as (Hlen & Hs & _).
  split; [exact Hlen | exact Hs].
Defined.

(** X25.  The chart ends at the current entry.  When the entries of the
    journal are objects, and the current entry is one of them with a truthy
    analysis and a valid date, [chartData] fulfils with data that are not
    empty and whose last entry bears the date of the current entry. *)
Theorem chartData_ends_at_current (getTime : jsval -> option Z)
    (currentEntry : jsval) (allEntries : list jsval) (now : Z) :
  (forall e, In e allEntries -> exists props, e = VObj props) ->
  In currentEntry allEntries ->
  truthy (field "analysis" currentEntry) = true ->
  EntryDetail.time_of getTime currentEntry = Some now ->
  exists front last,
    EntryDetail.chartData getTime currentEntry allEntries = Ok (front ++ [last])
    /\ EntryDetail.time_of getTime last = Some now.
Proof.
  intros Hobj Hin Hanalysis Hnow.
  destruct (Hobj currentEntry Hin) as [cprops Hcur].
  set (g := fun e => truthy (field "analysis" e)
                     && EntryDetail.on_or_before getTime (field "date" e)
                          (field "date" currentEntry)).
  assert (Hkept : filter_result (EntryDetail.charted getTime currentEntry)
                    allEntries = Ok (filter g allEntries)).
  { apply filter_result_total. intros e He.
    destruct (Hobj e He) as [props ->]. unfold EntryDetail.charted, g.
    rewrite get_object. cbn [bind].
    destruct (truthy (field "analysis" (VObj props))); [|reflexivity].
    rewrite get_object. cbn [bind]. rewrite Hcur, get_object. reflexivity. }
  destruct (chartData_outcome getTime currentEntry allEntries _ Hkept)
    as (sorted & Hc & Hperm & Hs).
  assert (Hcur_kept : In currentEntry (filter g allEntries)).
  { apply filter_In. split; [exact Hin|]. unfold g. rewrite Hanalysis.
    cbn [andb]. unfold EntryDetail.on_or_before.
    unfold EntryDetail.time_of in Hnow. rewrite Hcur, get_object in Hnow.
    rewrite <- Hcur in Hnow. rewrite Hnow. apply Z.leb_refl. }
  assert (Hcur_sorted : In currentEntry sorted)
    by (now apply (Permutation_in currentEntry Hperm)).
  destruct (exists_last (l := sorted)) as (front & last & Hsorted);
    [intros ->; contradiction|].
  assert (Hlast_le : EntryDetail.le_time getTime last currentEntry).
  { assert (Hl : In last (filter g allEntries)).
    { apply (Permutation_in last (Permutation_sym Hperm)).
      rewrite Hsorted. apply in_or_app. right. now left. }
    destruct (filter_result_kept _ _ _ Hkept last Hl) as [_ Hch].
    now destruct (charted_kept getTime currentEntry last Hch). }
  assert (Htime : EntryDetail.time_of getTime last = Some now).
  { rewrite Hsorted in Hcur_sorted, Hs.
    apply in_app_or in Hcur_sorted as [Hfront | [<- | []]]; [|exact Hnow].
    destruct (sorted_app getTime front [last] Hs currentEntry last Hfront
                (or_introl eq_refl)) as (s & t & Hs1 & Ht1 & Hst).
    destruct Hlast_le as (t' & s' & Ht2 & Hs2 & Hts).
    rewrite Hnow in Hs1, Hs2. rewrite Ht1 in Ht2.
    assert (s = now) by congruence. assert (s' = now) by congruence.
    assert (t = t') by congruence. rewrite Ht1. f_equal. lia. }
  destruct (slice_last_keeps_last 5 front last) as [front' Hslice]; [lia|].
  exists front', last. split; [|exact Htime].
  rewrite Hc, Hsorted, Hslice. reflexivity.
Qed.

Lemma chartData_ends_at_current_witness :
  exists front last,
    EntryDetail.chartData Examples.example_time Examples.entry_with_metrics
      [ Examples.entry_with_metrics; Examples.earlier_entry;
        Examples.entry_complete ] = Ok (front ++ [last])
    /\ EntryDetail.time_of Examples.example_time last = Some 1730008800000%Z.
Proof.
  apply (chartData_ends_at_current Examples.example_time
           Examples.entry_with_metrics
           [ Examples.entry_with_metrics; Examples.earlier_entry;
             Examples.entry_complete ] 1730008800000%Z).
  - intros e [<- | [<- | [<- | []]]]; eexists; reflexivity.
  - now left.
  - reflexivity.
  - reflexivity.
Defined.
